(** * meeting-bot: session orchestration, retry policy and recording sinks

    A shallow embedding of the parts of the meeting bot that decide how a
    meeting session is retried, how its status history evolves, how the
    in-page recorder forwards chunks and is stopped, and how the two
    ffmpeg-backed sinks are written to and shut down.

    Asynchronous code is embedded in state-passing style: an [async]
    function becomes a function from the world before the call to its
    completion and the world after it, and everything observable (calls
    to collaborators, timers, log lines) is appended to a trace.  Code
    driven by events (timers, process and stream events) is embedded as
    one handler per event over an explicit state. *)

From Stdlib Require Import ZArith List Ascii String Bool Lia DecimalString.
From Equations Require Import Equations.
Import ListNotations.
Open Scope Z_scope.

Set Implicit Arguments.

(* ===================================================================== *)
(** * Part I: definitions *)
(* ===================================================================== *)

(** ** Completions of JavaScript computations *)

(** Modelled from the spec: the module [../error] that declares
    [KnownError] and [WaitingAtLobbyRetryError] is not part of the sources.
    A thrown value is described by what the code observes of it: its class
    (for the [instanceof] tests), its [name] and [message], and the
    [retryable] and [maxRetries] fields.  Following the data model
    ("KnownFailure: kind, message, retryable, maxRetries", the lobby
    time-out being one kind of it) and the constructor call
    [new WaitingAtLobbyRetryError(msg, body, false, 0)], the lobby error
    is a subclass of [KnownError]. *)
Inductive ErrorClass : Type :=
| WaitingAtLobbyRetryError
| KnownError
| UnclassifiedError.

Record JsError : Type := mkJsError {
  errClass : ErrorClass;
  errName : string;
  errMessage : string;
  retryable : bool;
  maxRetries : Z
}.

(** [error instanceof WaitingAtLobbyRetryError] *)
Definition instanceofWaitingAtLobbyRetryError (error : JsError) : bool :=
  match errClass error with
  | WaitingAtLobbyRetryError => true
  | _ => false
  end.

(** [error instanceof KnownError] *)
Definition instanceofKnownError (error : JsError) : bool :=
  match errClass error with
  | UnclassifiedError => false
  | _ => true
  end.

(** How an awaited call ends: it returns a value or throws. *)
Inductive Completion (A : Type) : Type :=
| Returned (a : A)
| Thrown (error : JsError).
Arguments Returned {A} a.
Arguments Thrown {A} error.

(** [`${n}`] for a whole number [n]: its decimal digits, with a minus
    sign below zero.  That is how JavaScript prints a number that is
    whole and below 10^21 in size. *)
Definition numberToString (n : Z) : string :=
  NilZero.string_of_int (Z.to_int n).

(* --------------------------------------------------------------------- *)
(** ** app/common: [joinMeetWithRetry] and [processMeetingJoin] *)
(* --------------------------------------------------------------------- *)

Module JoinMeeting.

Record MeetingJoinParams : Type := mkParams {
  url : string;
  name : string;
  teamId : string;
  userId : string;
  bearerToken : string;
  timezone : string;
  botId : option string;
  eventId : option string
}.

(** The lines written to the logger, kept structured instead of
    formatted. *)
Inductive LogLine : Type :=
| LobbyNotRetrying (error : JsError)
    (* error: 'WaitingAtLobbyRetryError - not retrying:' *)
| KnownErrorNotRetryable (error : JsError)
    (* error: 'KnownError is not retryable:' *)
| TriesConsumed (tries : Z) (error : JsError)
    (* error: `KnownError: ${error.maxRetries} tries consumed:` *)
| RetryAttempt (retryCount ceiling : Z)
    (* warn: `Retry attempt: ${retryCount}/${config.retryCount}` *)
| StartedRecording
    (* info: 'LogBasedMetric Bot has started recording meeting.' *)
| FinishedRecording
    (* info: 'LogBasedMetric Bot has finished recording meeting successfully.' *)
| PermanentlyExiting (error : JsError)
    (* error: 'KnownError bot is permanently exiting:' *)
| FailedAfterRetries (error : JsError)
    (* error: 'Error joining meeting after multiple retries on team:' *)
| PermanentlyFailed (errorType : string).
    (* error: `LogBasedMetric Bot has permanently failed. [errorType: ...]` *)

(** What an observer of the join phase sees, in order. *)
Inductive Event : Type :=
| Invoke (params : MeetingJoinParams)   (* await processor({...}) *)
| Sleep (ms : Z)                        (* await sleep(ms) *)
| Log (line : LogLine).

Section WithProcessor.

(** The state of everything outside the bot that the processor touches
    (browser, meeting, network). *)
Variable Env : Type.

(** [processor]: one attempt at the whole join phase. *)
Variable processor : MeetingJoinParams -> Env -> Completion unit * Env.

(** [config.retryCount] *)
Variable config_retryCount : Z.

(** Modelled from the spec: [getErrorType] of [../util/logger] is not
    part of the sources; it maps the caught value to the classification
    that is logged. *)
Variable getErrorType : JsError -> string.

Record World : Type := mkWorld {
  env : Env;
  trace : list Event
}.

Definition emit (ev : Event) (w : World) : World :=
  mkWorld (env w) (trace w ++ [ev]).

Definition callProcessor (params : MeetingJoinParams) (w : World)
  : Completion unit * World :=
  let '(r, env') := processor params (env w) in
  (r, mkWorld env' (trace w ++ [Invoke params])).

(** [sleep(ms)] *)
Definition sleep (ms : Z) (w : World) : World := emit (Sleep ms) w.

Equations? joinMeetWithRetry (params : MeetingJoinParams) (retryCount : Z)
    (w : World) : Completion unit * World
  by wf (Z.to_nat (config_retryCount - retryCount)) lt :=
joinMeetWithRetry params retryCount w with callProcessor params w := {
  | (Returned _, w1) => (Returned tt, w1)
  | (Thrown error, w1) =>
    (* Never retry WaitingAtLobbyRetryError *)
    if instanceofWaitingAtLobbyRetryError error then
      (Thrown error, emit (Log (LobbyNotRetrying error)) w1)
    else if instanceofKnownError error && negb (retryable error) then
      (Thrown error, emit (Log (KnownErrorNotRetryable error)) w1)
    else if instanceofKnownError error && retryable error
              && (maxRetries error <=? retryCount + 1) then
      (Thrown error, emit (Log (TriesConsumed (maxRetries error) error)) w1)
    else
      let retryCount' := retryCount + 1 in
      let w2 := sleep (retryCount' * 30000) w1 in
      match Z_le_gt_dec retryCount' config_retryCount with
      | left _ =>
          let w3 := if retryCount' =? 0 then w2
                    else emit (Log (RetryAttempt retryCount' config_retryCount)) w2 in
          joinMeetWithRetry params retryCount' w3
      | right _ => (Thrown error, w2)
      end }.
Proof. lia. Qed.

(** The [catch] block of [joinMeetWithRetry] on its own, entered with the
    world [w1] in which the attempt has just thrown [error]. *)
Definition catchBlock (params : MeetingJoinParams) (retryCount : Z)
    (error : JsError) (w1 : World) : Completion unit * World :=
  if instanceofWaitingAtLobbyRetryError error then
    (Thrown error, emit (Log (LobbyNotRetrying error)) w1)
  else if instanceofKnownError error && negb (retryable error) then
    (Thrown error, emit (Log (KnownErrorNotRetryable error)) w1)
  else if instanceofKnownError error && retryable error
            && (maxRetries error <=? retryCount + 1) then
    (Thrown error, emit (Log (TriesConsumed (maxRetries error) error)) w1)
  else
    let w2 := sleep ((retryCount + 1) * 30000) w1 in
    if retryCount + 1 <=? config_retryCount then
      joinMeetWithRetry params (retryCount + 1)
        (if retryCount + 1 =? 0 then w2
         else emit (Log (RetryAttempt (retryCount + 1) config_retryCount)) w2)
    else (Thrown error, w2).

Definition processMeetingJoin (params : MeetingJoinParams) (w : World)
  : Completion unit * World :=
  let w0 := emit (Log StartedRecording) w in
  match joinMeetWithRetry params 0 w0 with
  | (Returned _, w1) => (Returned tt, emit (Log FinishedRecording) w1)
  | (Thrown error, w1) =>
      let errorType := getErrorType error in
      let w2 := if instanceofKnownError error
                then emit (Log (PermanentlyExiting error)) w1
                else emit (Log (FailedAfterRetries error)) w1 in
      (Returned tt, emit (Log (PermanentlyFailed errorType)) w2)
  end.

End WithProcessor.

(** Projections of a trace: how often the processor ran and which delays
    were slept, in order. *)
Fixpoint invocations (t : list Event) : nat :=
  match t with
  | [] => O
  | Invoke _ :: t' => S (invocations t')
  | _ :: t' => invocations t'
  end.

Fixpoint sleeps (t : list Event) : list Z :=
  match t with
  | [] => []
  | Sleep ms :: t' => ms :: sleeps t'
  | _ :: t' => sleeps t'
  end.

End JoinMeeting.

(* --------------------------------------------------------------------- *)
(** ** bots/ZoomBot: the status history of [join] *)
(* --------------------------------------------------------------------- *)

Module ZoomBot.

Inductive BotStatus : Type := processing | joined | finished | failed.

Definition BotStatus_eqb (a b : BotStatus) : bool :=
  match a, b with
  | processing, processing | joined, joined
  | finished, finished | failed, failed => true
  | _, _ => false
  end.

(** [_state.includes(st)] *)
Definition includes (st : BotStatus) (l : list BotStatus) : bool :=
  existsb (BotStatus_eqb st) l.

(** How the awaited calls of one session end.  [enterMeeting] stands for
    everything [joinMeeting] does before [pushState('joined')]: browser
    launch, navigation, the web-client detection, filling in the name and
    the wait in the lobby, each of which may throw.  [patchBotStatus],
    [handleWaitingAtLobbyError] and the uploader are services outside the
    sources; they are given the arguments the code passes. *)
Record Collaborators : Type := mkCollaborators {
  enterMeeting : Completion unit;
  recordMeetingPage : Completion unit;
  patchBotStatus : list BotStatus -> Completion unit;
  uploadRecordingToRemoteStorage : Completion unit;
  handleWaitingAtLobbyError : JsError -> Completion unit
}.

(** The array [_state] and what the status collaborator was sent. *)
Record Session : Type := mkSession {
  _state : list BotStatus;
  reported : list (list BotStatus)
}.

(** A small state-and-exception monad for the body of [join]. *)
Definition M (A : Type) : Type := Session -> Completion A * Session.

Definition ret {A : Type} (a : A) : M A := fun s => (Returned a, s).

Definition throw {A : Type} (error : JsError) : M A :=
  fun s => (Thrown error, s).

Definition bind {A B : Type} (m : M A) (k : A -> M B) : M B :=
  fun s =>
    match m s with
    | (Returned a, s') => k a s'
    | (Thrown error, s') => (Thrown error, s')
    end.

Definition tryCatch {A : Type} (m : M A) (handler : JsError -> M A) : M A :=
  fun s =>
    match m s with
    | (Returned a, s') => (Returned a, s')
    | (Thrown error, s') => handler error s'
    end.

(** [await c] for a collaborator call whose completion is [c]. *)
Definition await {A : Type} (c : Completion A) : M A := fun s => (c, s).

Declare Scope session_scope.
Delimit Scope session_scope with session.
Notation "m1 ;; m2" := (bind m1 (fun _ => m2))
  (at level 61, right associativity) : session_scope.

(** [const pushState = (st) => _state.push(st)] *)
Definition pushState (st : BotStatus) : M unit :=
  fun s => (Returned tt, mkSession (_state s ++ [st]) (reported s)).

(** [await patchBotStatus({ ..., status: _state, ... })] *)
Definition callPatchBotStatus (c : Collaborators) : M unit :=
  fun s => (patchBotStatus c (_state s),
            mkSession (_state s) (reported s ++ [_state s])).

Section Join.
Variable c : Collaborators.
Local Open Scope session_scope.

Definition joinMeeting : M unit :=
  await (enterMeeting c) ;;
  pushState joined ;;
  await (recordMeetingPage c) ;;
  pushState finished.

Definition handleUpload : M unit :=
  await (uploadRecordingToRemoteStorage c).

(** The [try] block of [join]. *)
Definition joinTry : M unit :=
  joinMeeting ;;
  callPatchBotStatus c ;;
  handleUpload.

(** The [catch] block of [join]. *)
Definition joinCatch (error : JsError) : M unit :=
  (fun s => if includes finished (_state s) then ret tt s
            else pushState failed s) ;;
  callPatchBotStatus c ;;
  (if instanceofWaitingAtLobbyRetryError error
   then await (handleWaitingAtLobbyError c error)
   else ret tt) ;;
  throw error.

(** [const _state: BotStatus[] = ['processing']] *)
Definition initial : Session := mkSession [processing] [].

Definition join : Completion unit * Session :=
  tryCatch joinTry joinCatch initial.

End Join.

(** The history of a session that has come to its end. *)
Definition history (c : Collaborators) : list BotStatus :=
  _state (snd (join c)).

End ZoomBot.

(* --------------------------------------------------------------------- *)
(** ** child_process as the two ffmpeg sinks use it *)
(* --------------------------------------------------------------------- *)

Inductive Signal : Type := SIGTERM | SIGKILL.

(** The [stdin] stream of a child.  [faulty] tells whether [write]
    throws, which a pipe of Node does not do (it reports a failed write
    later, by an 'error' event), and [accepting] whether [write] returns
    [true]: the buffer is below its high-water mark and the stream has
    not been ended. *)
Record Writable : Type := mkWritable {
  written : list string;
  ended : bool;
  faulty : bool;
  accepting : bool
}.

(** How a child ended: with an exit code, or by a signal. *)
Inductive ExitStatus : Type :=
| ExitCode (code : Z)
| ExitSignal (sig : Signal).

Record ChildProcess : Type := mkChild {
  stdin : option Writable;
  killed : bool;
  exitStatus : option ExitStatus;
  signals : list Signal
}.

(** [proc.exitCode]: [null] while the child runs and when a signal ended
    it. *)
Definition exitCode (proc : ChildProcess) : option Z :=
  match exitStatus proc with
  | Some (ExitCode code) => Some code
  | _ => None
  end.

(** [proc.kill(sig)]: the signal is delivered, and [killed] set, unless
    the child has exited already. *)
Definition kill (sig : Signal) (proc : ChildProcess) : ChildProcess :=
  match exitStatus proc with
  | Some _ => proc
  | None => mkChild (stdin proc) true None (signals proc ++ [sig])
  end.

(** [stream.write(data)] and [stream.end()] when they do not throw.
    Once the stream is ended it takes no data any more: a [write] is
    dropped and returns [false]. *)
Definition write (data : string) (w : Writable) : Writable :=
  if ended w then w
  else mkWritable (written w ++ [data]) (ended w) (faulty w) (accepting w).

Definition end_ (w : Writable) : Writable :=
  mkWritable (written w) true (faulty w) false.

Definition withStdin (w : Writable) (proc : ChildProcess) : ChildProcess :=
  mkChild (Some w) (killed proc) (exitStatus proc) (signals proc).

Definition exited (status : ExitStatus) (proc : ChildProcess) : ChildProcess :=
  mkChild (stdin proc) (killed proc) (Some status) (signals proc).

(** ['q\n'] *)
Definition quitSignal : string :=
  String "q"%char (String "010"%char EmptyString).

(** The methods of a sink that return a promise. *)
Inductive Method : Type := Stop | WriteChunk.

(** What the sinks do and what happens to them, in order. *)
Inductive Entry : Type :=
| Wrote (data : string)          (* stdin.write(data) *)
| Ended                          (* stdin.end() *)
| Sent (sig : Signal)            (* kill(sig) *)
| Armed (ms : Z)                 (* setTimeout(..., ms) *)
| Cleared                        (* clearTimeout(timeout) *)
| Fired (ms : Z)                 (* the timer armed with [ms] elapsed *)
| Exited (status : ExitStatus)   (* the 'exit' event of the child *)
| Drained                        (* the 'drain' event of stdin *)
| Resolved (m : Method)           (* resolve() of a promise of [m] *)
| Warned (msg : string)
| Logged (msg : string).

(** How a call of an [async] method stands when it returns to the event
    loop. *)
Inductive Promise : Type :=
| Fulfilled
| Rejected (error : JsError)
| Pending.

(* --------------------------------------------------------------------- *)
(** ** lib/youtubeLiveStreamer: the live-restream sink *)
(* --------------------------------------------------------------------- *)

Module YouTubeLiveStreamer.

(** [child] is the object [spawn] returned, if [start] ran; [attached]
    tells whether [this.process] still refers to it or is [null].  The
    closures of [stop] keep the child in [proc] whatever becomes of
    [this.process]. *)
Record State : Type := mkState {
  child : option ChildProcess;
  attached : bool;
  timers : nat;          (* armed 15 s timers of stop() calls *)
  exitListeners : nat;   (* 'exit' listeners added by stop() calls *)
  drainListeners : nat;  (* 'drain' listeners added by writeChunk() calls *)
  log : list Entry
}.

(** [this.process] *)
Definition process (s : State) : option ChildProcess :=
  if attached s then child s else None.

Definition notRunning : JsError :=
  mkJsError UnclassifiedError "Error" "ffmpeg live process is not running"
            false 0.

(** The value thrown by a [stdin.write] that throws. *)
Definition writeFailed : JsError :=
  mkJsError UnclassifiedError "Error" "write failed" false 0.

Definition writeChunk (chunk : string) (s : State) : Promise * State :=
  match process s with
  | None => (Rejected notRunning, s)
  | Some proc =>
    match stdin proc with
    | None => (Rejected notRunning, s)
    | Some w =>
      if faulty w then (Rejected writeFailed, s)
      else
        let proc' := withStdin (write chunk w) proc in
        if accepting w then
          (Fulfilled,
           mkState (Some proc') (attached s) (timers s) (exitListeners s)
                   (drainListeners s) (log s ++ [Wrote chunk]))
        else
          (Pending,
           mkState (Some proc') (attached s) (timers s) (exitListeners s)
                   (S (drainListeners s)) (log s ++ [Wrote chunk]))
    end
  end.

(** stdin emits 'drain': every [once('drain', () => resolve())] runs. *)
Definition onDrain (s : State) : State :=
  mkState (child s) (attached s) (timers s) (exitListeners s) 0
          (log s ++ Drained :: repeat (Resolved WriteChunk) (drainListeners s)).

Definition stop (s : State) : Promise * State :=
  match process s with
  | None => (Fulfilled, s)
  | Some proc =>
    let '(proc', entries) :=
      match stdin proc with
      | None => (proc, [])
      | Some w =>
        if faulty w then
          (kill SIGTERM proc,
           [Warned "Failed to send quit signal to ffmpeg live"; Sent SIGTERM])
        else
          (withStdin (end_ (write quitSignal w)) proc,
           [Wrote quitSignal; Ended])
      end in
    (Pending,
     mkState (Some proc') (attached s) (S (timers s)) (S (exitListeners s))
             (drainListeners s) (log s ++ entries ++ [Armed 15000]))
  end.

(** The callback of [setTimeout(..., 15000)] in [stop]. *)
Definition onStopTimeout (s : State) : State :=
  match timers s with
  | O => s
  | S n =>
    match child s with
    | Some proc =>
      if killed proc then
        mkState (child s) (attached s) n (exitListeners s) (drainListeners s)
                (log s ++ [Fired 15000])
      else
        mkState (Some (kill SIGTERM proc)) (attached s) n (exitListeners s)
                (drainListeners s)
                (log s ++ [Fired 15000;
                           Warned "ffmpeg live did not exit, sending SIGTERM";
                           Sent SIGTERM])
    | None =>
      mkState (child s) (attached s) n (exitListeners s) (drainListeners s)
              (log s ++ [Fired 15000])
    end
  end.

(** The child emits 'exit', once: the listener of [start] clears
    [this.process]; then every listener added by [stop] clears its
    timer, clears [this.process] and resolves its promise. *)
Definition onExit (status : ExitStatus) (s : State) : State :=
  match child s with
  | None => s
  | Some proc =>
    match exitStatus proc with
    | Some _ => s
    | None =>
      mkState (Some (exited status proc)) false 0 0 (drainListeners s)
              (log s ++ Exited status ::
                 List.concat (repeat [Cleared; Resolved Stop] (exitListeners s)))
    end
  end.

(** What can happen to the sink between two calls of its methods. *)
Inductive Input : Type :=
| TimerElapsed
| ProcessExited (status : ExitStatus)
| StdinDrained.

Definition step (i : Input) (s : State) : State :=
  match i with
  | TimerElapsed => onStopTimeout s
  | ProcessExited status => onExit status s
  | StdinDrained => onDrain s
  end.

Definition run (inputs : list Input) (s : State) : State :=
  fold_left (fun s i => step i s) inputs s.

(** Until the child exits, a pending stop keeps its 'exit' listener. *)
Definition awaitingExit (s : State) : Prop :=
  attached s = true /\ (0 < exitListeners s)%nat /\
  exists proc, child s = Some proc /\ exitStatus proc = None.

End YouTubeLiveStreamer.

(* --------------------------------------------------------------------- *)
(** ** lib/ffmpegRecorder: the durable recorder *)
(* --------------------------------------------------------------------- *)

Module FFmpegRecorder.

(** One call of [stop] that went past the guard: its [resolved] flag and
    whether its two timers are armed. *)
Record StopCall : Type := mkStopCall {
  resolved : bool;
  timeout : bool;       (* the 15 s timer *)
  lastResort : bool     (* the 5 s timer armed when the first one fires *)
}.

(** [child] is the object [spawn] returned, if [start] ran; [attached]
    tells whether [this.ffmpegProcess] still refers to it or is [null]. *)
Record State : Type := mkState {
  child : option ChildProcess;
  attached : bool;
  stops : list StopCall;
  log : list Entry
}.

(** [this.ffmpegProcess] *)
Definition ffmpegProcess (s : State) : option ChildProcess :=
  if attached s then child s else None.

Definition stop (s : State) : Promise * State :=
  match ffmpegProcess s with
  | None =>
    (Fulfilled,
     mkState (child s) (attached s) (stops s)
             (log s ++ [Warned "No ffmpeg process to stop"]))
  | Some proc =>
    let '(proc', entries) :=
      match stdin proc with
      | None => (proc, [])
      | Some w =>
        if faulty w then
          (kill SIGTERM proc,
           [Warned "Could not send quit signal to ffmpeg stdin:"; Sent SIGTERM])
        else
          (withStdin (end_ (write quitSignal w)) proc,
           [Wrote quitSignal; Ended; Logged "Quit signal sent successfully"])
      end in
    let log' :=
      log s ++ Logged "Sending quit signal to ffmpeg..." :: entries
            ++ [Armed 15000] in
    (* If already exited *)
    if killed proc' || match exitCode proc' with Some _ => true | None => false end then
      (Fulfilled,
       mkState (Some proc') false (stops s ++ [mkStopCall true false false])
               (log' ++ [Cleared; Resolved Stop]))
    else
      (Pending,
       mkState (Some proc') (attached s)
               (stops s ++ [mkStopCall false true false]) log')
  end.

(** Replace the [i]-th stop call. *)
Fixpoint update (i : nat) (f : StopCall -> StopCall) (l : list StopCall)
  : list StopCall :=
  match l, i with
  | [], _ => []
  | c :: l', O => f c :: l'
  | c :: l', S i' => c :: update i' f l'
  end.

(** The 15 s timer of the [i]-th stop call fires. *)
Definition onTimeout (i : nat) (s : State) : State :=
  match nth_error (stops s) i with
  | Some c =>
    if timeout c then
      match ffmpegProcess s with
      | Some proc =>
        if negb (killed proc) && negb (resolved c) then
          mkState (Some (kill SIGTERM proc)) (attached s)
                  (update i (fun c => mkStopCall (resolved c) false true) (stops s))
                  (log s ++ [Fired 15000;
                             Warned "ffmpeg did not exit after 15s, sending SIGTERM";
                             Sent SIGTERM; Armed 5000])
        else
          mkState (child s) (attached s)
                  (update i (fun c => mkStopCall (resolved c) false (lastResort c))
                          (stops s))
                  (log s ++ [Fired 15000])
      | None =>
        mkState (child s) (attached s)
                (update i (fun c => mkStopCall (resolved c) false (lastResort c))
                        (stops s))
                (log s ++ [Fired 15000])
      end
    else s
  | None => s
  end.

(** The 5 s timer of the [i]-th stop call fires. *)
Definition onLastResort (i : nat) (s : State) : State :=
  match nth_error (stops s) i with
  | Some c =>
    if lastResort c then
      let stops' :=
        update i (fun c => mkStopCall (resolved c) (timeout c) false) (stops s) in
      match ffmpegProcess s with
      | Some proc =>
        if negb (killed proc) && negb (resolved c) then
          mkState (Some (kill SIGKILL proc)) (attached s) stops'
                  (log s ++ [Fired 5000;
                             Logged "ffmpeg still not exited, sending SIGKILL";
                             Sent SIGKILL])
        else mkState (child s) (attached s) stops' (log s ++ [Fired 5000])
      | None => mkState (child s) (attached s) stops' (log s ++ [Fired 5000])
      end
    else s
  | None => s
  end.

(** The 'exit' listener one stop call added: it does nothing once its
    call is resolved, and else clears the 15 s timer, clears
    [this.ffmpegProcess] and resolves. *)
Fixpoint exitListeners (att : bool) (entries : list Entry) (l : list StopCall)
  : bool * list Entry * list StopCall :=
  match l with
  | [] => (att, entries, [])
  | c :: l' =>
    if resolved c then
      let '(att', entries', l'') := exitListeners att entries l' in
      (att', entries', c :: l'')
    else
      let '(att', entries', l'') :=
        exitListeners false
          (entries ++ [Cleared; Logged "ffmpeg process exited gracefully";
                       Resolved Stop]) l' in
      (att', entries', mkStopCall true false (lastResort c) :: l'')
  end.

(** The child emits 'exit', once.  The listener of [start] only logs and
    tells the exit callback; the listeners of the stop calls run after
    it. *)
Definition onExit (status : ExitStatus) (s : State) : State :=
  match child s with
  | None => s
  | Some proc =>
    match exitStatus proc with
    | Some _ => s
    | None =>
      let '(att', log', stops') :=
        exitListeners (attached s) (log s ++ [Exited status]) (stops s) in
      mkState (Some (exited status proc)) att' stops' log'
    end
  end.

(** What can happen to the recorder between two calls of its methods. *)
Inductive Input : Type :=
| TimeoutElapsed (i : nat)
| LastResortElapsed (i : nat)
| ProcessExited (status : ExitStatus).

Definition step (i : Input) (s : State) : State :=
  match i with
  | TimeoutElapsed n => onTimeout n s
  | LastResortElapsed n => onLastResort n s
  | ProcessExited status => onExit status s
  end.

Definition run (inputs : list Input) (s : State) : State :=
  fold_left (fun s i => step i s) inputs s.

(** The stop call has not resolved its promise yet. *)
Definition unresolved (c : StopCall) : bool := negb (resolved c).

(** A stop call is pending on a running child. *)
Definition stopping (s : State) : Prop :=
  attached s = true /\
  (exists proc, child s = Some proc /\ exitStatus proc = None) /\
  existsb unresolved (stops s) = true.

(** The child was ended by the signal [sig], which the recorder did not
    send, and [this.ffmpegProcess] still refers to it; [sigs] are the
    signals that have reached the child from the recorder. *)
Definition orphaned (sig : Signal) (sigs : list Signal) (s : State) : Prop :=
  attached s = true /\
  exists proc,
    child s = Some proc /\ exitStatus proc = Some (ExitSignal sig) /\
    killed proc = false /\ signals proc = sigs.

End FFmpegRecorder.

(* --------------------------------------------------------------------- *)
(** ** config and tasks/RecordingTask: the recorder inside the page *)
(* --------------------------------------------------------------------- *)

Module Config.

(** [process.env.MAX_RECORDING_DURATION_MINUTES ? Number(...) : 180],
    for a variable that is unset (or empty) or holds a whole number of
    minutes. *)
Definition maxRecordingDuration (env : option Z) : Z :=
  match env with
  | Some minutes => minutes
  | None => 180
  end.

End Config.

Module RecordingTask.

(** [duration] as [ZoomBot.recordMeetingPage] computes it and hands it to
    the task: [config.maxRecordingDuration * 60 * 1000]. *)
Definition durationOf (maxRecordingDuration : Z) : Z :=
  maxRecordingDuration * 60 * 1000.

(** *** Chunks *)

(** A [Blob] of recorded media; reading it with [arrayBuffer()] may
    fail. *)
Record Blob : Type := mkBlob {
  bytes : list Byte.byte;
  readable : bool
}.

(** [blob.size] *)
Definition size (b : Blob) : Z := Z.of_nat (List.length (bytes b)).

Inductive ChunkNote : Type :=
| ReceivedEmptyChunk                         (* console.warn *)
| SendChunkToServer (chunk : list Byte.byte) (* sendChunkToServer(arrayBuffer) *)
| ErrorUploadingChunk (error : JsError).     (* console.error *)

Definition notReadable : JsError :=
  mkJsError UnclassifiedError "NotReadableError" "blob could not be read"
            false 0.

Section OnDataAvailable.

(** [window.screenAppSendData], the bridge out of the page, for one
    chunk; it may reject. *)
Variable screenAppSendData : list Byte.byte -> Completion unit.

(** [mediaRecorder.ondataavailable] *)
Definition ondataavailable (data : Blob) (notes : list ChunkNote)
  : list ChunkNote :=
  if size data =? 0 then notes ++ [ReceivedEmptyChunk]
  else if readable data then
    match screenAppSendData (bytes data) with
    | Returned _ => notes ++ [SendChunkToServer (bytes data)]
    | Thrown error =>
        notes ++ [SendChunkToServer (bytes data); ErrorUploadingChunk error]
    end
  else notes ++ [ErrorUploadingChunk notReadable].

(** The recorder hands over its chunks one after the other. *)
Definition deliver (chunks : list Blob) : list ChunkNote :=
  fold_left (fun notes data => ondataavailable data notes) chunks [].

End OnDataAvailable.

(** *** Timers *)

Inductive RecordingState : Type := inactive | recording.

(** The four callbacks [startRecording] hands to [setTimeout] and
    [setInterval]. *)
Inductive Callback : Type :=
| StopAfterDuration             (* timeoutId *)
| ActivateInactivityDetection   (* inactivityDetectionTimeout *)
| LoneTest                      (* loneTest, every 2 s *)
| MonitorSilence.               (* monitorSilence, re-armed every 100 ms *)

Definition Callback_eqb (a b : Callback) : bool :=
  match a, b with
  | StopAfterDuration, StopAfterDuration
  | ActivateInactivityDetection, ActivateInactivityDetection
  | LoneTest, LoneTest
  | MonitorSilence, MonitorSilence => true
  | _, _ => false
  end.

Record Timer : Type := mkTimer {
  deadline : Z;
  callback : Callback
}.

(** The delay the page's timers use for [setTimeout(f, ms)]: the argument
    is converted to a signed 32-bit integer and a negative result counts
    as zero. *)
Definition timerDelay (ms : Z) : Z :=
  Z.max 0 ((ms + 2147483648) mod 4294967296 - 2147483648).

(** The timer that is due first; of two that are due together, the one
    armed first. *)
Fixpoint next (l : list Timer) : option (Timer * list Timer) :=
  match l with
  | [] => None
  | t :: l' =>
    match next l' with
    | None => Some (t, [])
    | Some (u, rest) =>
      if deadline t <=? deadline u then Some (t, l') else Some (u, t :: rest)
    end
  end.

(** What the participants panel shows when [loneTest] looks at it. *)
Record DomSnapshot : Type := mkDom {
  broken : bool;              (* a DOM query throws *)
  okButton : bool;            (* a button labelled OK is there *)
  meetingEnded : bool;        (* the "meeting has been ended" notice is there *)
  participants : option Z     (* the number on the participants button *)
}.

Inductive Note : Type :=
| TriggerStop            (* console.log('-------- TRIGGER stop the recording') *)
| ScreenAppMeetEnd       (* window.screenAppMeetEnd(slightlySecretId) *)
| ClickedOk
| DetectionNotWorking    (* console.error *)
| DetectionFailed.       (* console.error in the catch *)

Record Page : Type := mkPage {
  now : Z;                        (* ms since the timers were armed *)
  state : RecordingState;         (* mediaRecorder.state *)
  tracksStopped : bool;
  timers : list Timer;
  monitor : bool;
  silenceDuration : Z;
  notes : list (Z * Note)
}.

(** The page at the moment the timer [t] is due: the clock shows its
    deadline and [rest] are the timers still pending. *)
Definition due (t : Timer) (rest : list Timer) (p : Page) : Page :=
  mkPage (deadline t) (state p) (tracksStopped p) rest (monitor p)
         (silenceDuration p) (notes p).

Section InPage.

(** [duration], [inactivityLimit] and
    [activateInactivityDetectionAfterMinutes * 60 * 1000], in ms. *)
Variables duration inactivityLimit activateInactivityDetectionAfter : Z.

(** What the page shows and whether the audio is below the silence
    threshold, at a given time. *)
Variable dom : Z -> DomSnapshot.
Variable silent : Z -> bool.

(** Whether [mediaRecorder.stop()] throws when the recorder is
    inactive already (browsers differ). *)
Variable stopThrowsWhenInactive : bool.

Definition note (n : Note) (p : Page) : Page :=
  mkPage (now p) (state p) (tracksStopped p) (timers p) (monitor p)
         (silenceDuration p) (notes p ++ [(now p, n)]).

Definition withTimers (l : list Timer) (p : Page) : Page :=
  mkPage (now p) (state p) (tracksStopped p) l (monitor p)
         (silenceDuration p) (notes p).

(** [setTimeout(cb, ms)] and the arming of an interval. *)
Definition setTimeout (cb : Callback) (ms : Z) (p : Page) : Page :=
  withTimers (timers p ++ [mkTimer (now p + timerDelay ms) cb]) p.

(** [clearTimeout(id)] and [clearInterval(id)] for the timer that runs
    [cb]. *)
Definition clearTimer (cb : Callback) (p : Page) : Page :=
  withTimers (filter (fun t => negb (Callback_eqb (callback t) cb)) (timers p)) p.

Definition setMonitor (b : bool) (p : Page) : Page :=
  mkPage (now p) (state p) (tracksStopped p) (timers p) b
         (silenceDuration p) (notes p).

Definition setSilenceDuration (d : Z) (p : Page) : Page :=
  mkPage (now p) (state p) (tracksStopped p) (timers p) (monitor p)
         d (notes p).

(** [mediaRecorder.stop()] when it does not throw, and
    [stream.getTracks().forEach((track) => track.stop())]. *)
Definition stopRecorderAndTracks (p : Page) : Page :=
  mkPage (now p) inactive true (timers p) (monitor p) (silenceDuration p)
         (notes p).

(** [stopTheRecording].  It is [async] and nobody awaits it: when
    [mediaRecorder.stop()] throws, the rest of its body is skipped and
    the caller goes on. *)
Definition stopTheRecording (p : Page) : Page :=
  let p1 := note TriggerStop p in
  match state p1, stopThrowsWhenInactive with
  | inactive, true => p1
  | _, _ =>
    note ScreenAppMeetEnd
      (clearTimer ActivateInactivityDetection
         (clearTimer StopAfterDuration (stopRecorderAndTracks p1)))
  end.

(** The body of the [loneTest] interval. *)
Definition loneTestBody (p : Page) : Page :=
  let d := dom (now p) in
  if broken d then note DetectionFailed p
  else
    let p1 :=
      if okButton d then
        let p' := note ClickedOk p in
        if meetingEnded d then
          stopTheRecording (setMonitor false (clearTimer LoneTest p'))
        else p'
      else p in
    match participants d with
    | None => note DetectionNotWorking p1
    | Some n =>
      if n >? 1 then p1
      else stopTheRecording (setMonitor false (clearTimer LoneTest p1))
    end.

(** [monitorSilence] *)
Definition monitorSilence (p : Page) : Page :=
  let p1 :=
    if silent (now p) then
      let p' := setSilenceDuration (silenceDuration p + 100) p in
      if silenceDuration p' >=? inactivityLimit then
        stopTheRecording (clearTimer LoneTest (setMonitor false p'))
      else p'
    else setSilenceDuration 0 p in
  if monitor p1 then setTimeout MonitorSilence 100 p1 else p1.

(** What a timer does when it is due.  An interval is armed again
    before its body runs. *)
Definition fire (cb : Callback) (p : Page) : Page :=
  match cb with
  | StopAfterDuration => stopTheRecording p
  | ActivateInactivityDetection =>
      (* detectLoneParticipant(); detectIncrediblySilentMeeting() *)
      monitorSilence (setTimeout LoneTest 2000 p)
  | LoneTest => loneTestBody (setTimeout LoneTest 2000 p)
  | MonitorSilence => monitorSilence p
  end.

(** One turn of the page's event loop: the timer that is due first
    runs, at its deadline.  Timers are taken to run on time; what a busy
    browser adds to a delay is not part of the page's code. *)
Definition step (p : Page) : option Page :=
  match next (timers p) with
  | None => None
  | Some (t, rest) => Some (fire (callback t) (due t rest p))
  end.

Fixpoint steps (n : nat) (p : Page) : option Page :=
  match n with
  | O => Some p
  | S n' =>
    match step p with
    | None => None
    | Some p' => steps n' p'
    end
  end.

(** The page when [startRecording] has started the recorder: the
    recorder runs and the two timers are armed, the inactivity detection
    first.  (Where screen capture is not available [startRecording]
    returns before there is a recorder, and nothing is armed.) *)
Definition started : Page :=
  setTimeout StopAfterDuration duration
    (setTimeout ActivateInactivityDetection activateInactivityDetectionAfter
       (mkPage 0 recording false [] true 0 [])).

(** No end of the meeting is ever detected: the audio is never silent,
    and whenever the page is looked at, the look fails, or it shows no
    notice that the meeting ended and does not show a count of at most
    one participant. *)
Definition quiet : Prop :=
  (forall t, silent t = false) /\
  (forall t,
      broken (dom t) = true \/
      ((okButton (dom t) = false \/ meetingEnded (dom t) = false) /\
       match participants (dom t) with
       | Some n => 1 < n
       | None => True
       end)).

End InPage.

(** *** The hard ceiling *)

Section Ceiling.

(** When the timer of the hard ceiling is due. *)
Variable D : Z.

(** How often a timer that is due at [d] and armed again every [period]
    ms runs until the ceiling is due. *)
Definition uses (period d : Z) : Z :=
  if d <=? D then (D - d) / period + 1 else 0.

(** How many callbacks a pending timer stands for until then. *)
Definition weight (t : Timer) : Z :=
  match callback t with
  | StopAfterDuration => if deadline t <=? D then 1 else 0
  | LoneTest => uses 2000 (deadline t)
  | MonitorSilence => uses 100 (deadline t)
  | ActivateInactivityDetection =>
      if deadline t <=? D
      then 1 + uses 2000 (deadline t + 2000) + uses 100 (deadline t + 100)
      else 0
  end.

Fixpoint load (l : list Timer) : Z :=
  match l with
  | [] => 0
  | t :: l' => weight t + load l'
  end.

(** [p1] comes from [p0] within one callback: the clock stands still and
    timers are only cleared or armed for later, and no new ceiling is
    armed. *)
Definition later (p0 p1 : Page) : Prop :=
  now p1 = now p0 /\
  forall t, In t (timers p1) ->
            In t (timers p0) \/
            (now p0 <= deadline t /\ callback t <> StopAfterDuration).

(** On top of that the recorder was stopped, or was left alone together
    with the ceiling, the load growing by [k] at most. *)
Definition calm (k : Z) (p0 p1 : Page) : Prop :=
  later p0 p1 /\
  (state p1 = inactive \/
   (state p1 = state p0 /\
    (In (mkTimer D StopAfterDuration) (timers p0) ->
     In (mkTimer D StopAfterDuration) (timers p1)) /\
    load (timers p1) <= load (timers p0) + k)).

(** What holds of the page between two callbacks: the pending timers are
    not overdue, the only timer that stops the recording after [duration]
    is due at [D], and it is pending for as long as the recorder runs. *)
Definition Inv (p : Page) : Prop :=
  Forall (fun t => now p <= deadline t) (timers p) /\
  Forall (fun t => callback t = StopAfterDuration -> deadline t = D) (timers p) /\
  (state p = recording -> In (mkTimer D StopAfterDuration) (timers p)).

End Ceiling.

End RecordingTask.

(** [l1] is an initial segment of [l2]. *)
Definition prefix {A : Type} (l1 l2 : list A) : Prop :=
  exists k, l2 = l1 ++ k.

(** In [l], every entry that satisfies [b] comes after one that
    satisfies [a]. *)
Definition precedes (a b : Entry -> bool) (l : list Entry) : Prop :=
  forall pre x post,
    l = pre ++ x :: post -> b x = true -> existsb a pre = true.

Definition isFired (ms : Z) (e : Entry) : bool :=
  match e with Fired ms' => ms' =? ms | _ => false end.

Definition isExited (e : Entry) : bool :=
  match e with Exited _ => true | _ => false end.

Definition isSent (sig : Signal) (e : Entry) : bool :=
  match e, sig with
  | Sent SIGTERM, SIGTERM | Sent SIGKILL, SIGKILL => true
  | _, _ => false
  end.

Definition isResolved (m : Method) (e : Entry) : bool :=
  match e, m with
  | Resolved Stop, Stop | Resolved WriteChunk, WriteChunk => true
  | _, _ => false
  end.

(* --------------------------------------------------------------------- *)
(** ** bots/ZoomBot: the way into the web client *)
(* --------------------------------------------------------------------- *)

Module JoinFromBrowser.

(** How one look for the link "Join from your browser" ends.  The awaited
    page calls of the [try] block are [waitForTimeout(5000)], two
    [isVisible()], the click on "Download Now", [waitFor] and [count()] on
    the link and the click on it. *)
Inductive Look : Type :=
| Clicked                       (* count() > 0 and the click went through *)
| Absent                        (* count() is 0 *)
| LookThrew (error : JsError).  (* one of the awaited calls threw *)

(** [const attempts = 3] *)
Definition attempts : Z := 3.

#[local] Opaque attempts.

Section WithPage.

(** What the first look finds, the second, and so on. *)
Variable page : nat -> Look.

(** [findAndEnableJoinFromBrowserButton(retry)], with the number of looks
    taken so far. *)
Equations? findAndEnableJoinFromBrowserButton (retry : Z) (looks : nat)
    : Completion bool * nat
  by wf (Z.to_nat (attempts - retry)) lt :=
findAndEnableJoinFromBrowserButton retry looks
    with Z_ge_lt_dec retry attempts := {
  | left _ => (Returned false, looks)
  | right _ with page looks := {
    | Clicked => (Returned true, S looks)
    | Absent =>
        (* return await findAndEnableJoinFromBrowserButton(retry + 1),
           inside the try *)
        match findAndEnableJoinFromBrowserButton (retry + 1) (S looks) with
        | (Returned found, looks') => (Returned found, looks')
        | (Thrown _, looks') =>
            if retry >=? attempts then (Returned false, looks')
            else findAndEnableJoinFromBrowserButton (retry + 1) looks'
        end
    | LookThrew _ =>
        if retry >=? attempts then (Returned false, S looks)
        else findAndEnableJoinFromBrowserButton (retry + 1) (S looks) } }.
Proof. all: lia. Qed.

#[local] Transparent attempts.

End WithPage.

(** What [waitFor] and [count()] on the link show at one tick of the
    interval of [waitForJoinFromBrowserNav]. *)
Inductive NavLook : Type :=
| StillThere                   (* count() > 0 *)
| Gone                         (* count() is 0 *)
| WaitTimedOut                 (* a TimeoutError *)
| NavThrew (error : JsError).  (* any other error *)

(** [attempt], the ticks that have run, what [foundResolver] was called
    with, and whether [clearInterval(interv)] was called. *)
Record Nav : Type := mkNav {
  attempt : Z;
  ticks : nat;
  answer : option bool;
  cleared : bool
}.

(** [const maxAttempts = 3] *)
Definition maxAttempts : Z := 3.

(** A promise keeps the value it was first resolved with. *)
Definition foundResolver (b : bool) (s : Nav) : Nav :=
  mkNav (attempt s) (ticks s)
        (match answer s with Some a => Some a | None => Some b end)
        (cleared s).

Definition clearInterval (s : Nav) : Nav :=
  mkNav (attempt s) (ticks s) (answer s) true.

Definition nextAttempt (s : Nav) : Nav :=
  mkNav (attempt s + 1) (ticks s) (answer s) (cleared s).

(** The callback of the interval. *)
Definition tick (look : NavLook) (s : Nav) : Nav :=
  let s := mkNav (attempt s) (S (ticks s)) (answer s) (cleared s) in
  if attempt s >=? maxAttempts then foundResolver false (clearInterval s)
  else
    match look with
    | StillThere => nextAttempt s
    | Gone => nextAttempt (foundResolver true (clearInterval s))
    | WaitTimedOut => foundResolver true (clearInterval s)
    | NavThrew _ =>
        if attempt s >=? maxAttempts
        then foundResolver false (clearInterval s)
        else nextAttempt s
    end.

(** The interval runs its callback every 6 s until it is cleared; [n] is
    how many periods go by. *)
Fixpoint interval (page : nat -> NavLook) (n : nat) (s : Nav) : Nav :=
  match n with
  | O => s
  | S n' =>
      if cleared s then s else interval page n' (tick (page (ticks s)) s)
  end.

(** [let attempt = 0] and the promise not resolved yet. *)
Definition waiting : Nav := mkNav 0 0 None false.

Definition isGone (look : NavLook) : bool :=
  match look with
  | Gone | WaitTimedOut => true
  | StillThere | NavThrew _ => false
  end.

End JoinFromBrowser.

(* --------------------------------------------------------------------- *)
(** ** bots/ZoomBot: the container of the web client *)
(* --------------------------------------------------------------------- *)

Module AppContainer.

(** ['app' | 'iframe'] *)
Inductive Kind : Type := app | iframe.

Definition Kind_eqb (a b : Kind) : bool :=
  match a, b with
  | app, app | iframe, iframe => true
  | _, _ => false
  end.

(** [apps.includes(kind)] *)
Definition includes (kind : Kind) (apps : list Kind) : bool :=
  existsb (Kind_eqb kind) apps.

(** What a look for a container finds.  For ['app'] the awaited call is
    [page.waitForSelector('input[type="text"]')], whose handle may be
    null; for ['iframe'] they are [page.waitForSelector('iframe#webclient')],
    [getAttribute('id')] and [contentFrame()], whose frame may be null. *)
Inductive Lookup : Type :=
| Present
| Missing
| LookupThrew (error : JsError).

(** What the variable [iframe] refers to. *)
Inductive Frame : Type := ThePage | ContentFrame.

(** The array [apps], the variable [iframe], the looks taken (in order)
    and the number of debug images uploaded. *)
Record State : Type := mkState {
  apps : list Kind;
  frame : Frame;
  lookups : list Kind;
  uploads : nat
}.

Definition push (kind : Kind) (s : State) : State :=
  mkState (apps s ++ [kind]) (frame s) (lookups s) (uploads s).

Definition looked (kind : Kind) (s : State) : State :=
  mkState (apps s) (frame s) (lookups s ++ [kind]) (uploads s).

Definition setFrame (f : Frame) (s : State) : State :=
  mkState (apps s) f (lookups s) (uploads s).

Definition uploaded (s : State) : State :=
  mkState (apps s) (frame s) (lookups s) (S (uploads s)).

Section WithPage.

(** What the look number [i] for a container of a kind finds. *)
Variable page : nat -> Kind -> Lookup.

(** Modelled from the spec: [uploadDebugImage] of [../services/bugService]
    is not part of the sources; how its call number [i] (with the
    screenshot taken for it) ends. *)
Variable uploadDebugImage : nat -> Completion unit.

(** [detectAppContainer(startWith)].  The recursion of the source is
    bounded by what [apps] holds, which the calls share; [fuel] bounds
    its depth here, and [None] stands for a bound that was too small. *)
Fixpoint detectAppContainer (fuel : nat) (startWith : Kind) (s : State)
  : option (Completion bool * State) :=
  match fuel with
  | O => None
  | S fuel' =>
    (* the catch block *)
    let handler (s1 : State) :=
      match uploadDebugImage (uploads s1) with
      | Thrown error => Some (Thrown error, uploaded s1)
      | Returned _ =>
          detectAppContainer fuel'
            (match startWith with app => iframe | iframe => app end)
            (uploaded s1)
      end in
    (* return await detectAppContainer(kind), inside the try *)
    let again (kind : Kind) (s1 : State) :=
      match detectAppContainer fuel' kind s1 with
      | None => None
      | Some (Returned found, s2) => Some (Returned found, s2)
      | Some (Thrown _, s2) => handler s2
      end in
    if includes app (apps s) && includes iframe (apps s)
    then Some (Returned false, s)
    else
      let s1 := push startWith s in
      match startWith with
      | app =>
          match page (List.length (lookups s1)) app with
          | Present => Some (Returned true, setFrame ThePage (looked app s1))
          | Missing => again iframe (looked app s1)
          | LookupThrew _ => handler (looked app s1)
          end
      | iframe =>
          match page (List.length (lookups s1)) iframe with
          | Present =>
              Some (Returned true, setFrame ContentFrame (looked iframe s1))
          | Missing => again app (looked iframe s1)
          | LookupThrew _ => handler (looked iframe s1)
          end
      end
  end.

End WithPage.

(** [const apps = []] and [let iframe = this.page]. *)
Definition initial : State := mkState [] ThePage [] 0.

Definition other (kind : Kind) : Kind :=
  match kind with app => iframe | iframe => app end.

(** The frame a container of a kind is used through. *)
Definition frameOf (kind : Kind) : Frame :=
  match kind with app => ThePage | iframe => ContentFrame end.

Definition isPresent (l : Lookup) : bool :=
  match l with Present => true | _ => false end.

End AppContainer.

(* --------------------------------------------------------------------- *)
(** ** bots/ZoomBot: the registration form of a webinar *)
(* --------------------------------------------------------------------- *)

Module WebinarRegistration.

(** *** The strings of the display name *)

(** A string is taken as its sequence of code units, all below 256.
    Among these, the white space and line terminators of JavaScript,
    which [trim()] strips and [\s] matches, are the codes 9 to 13, 32
    and 160. *)
Definition isWhiteSpace (c : ascii) : bool :=
  let n := nat_of_ascii c in
  ((9 <=? n)%nat && (n <=? 13)%nat) || (n =? 32)%nat || (n =? 160)%nat.

Fixpoint trimStart (s : string) : string :=
  match s with
  | EmptyString => EmptyString
  | String c s' => if isWhiteSpace c then trimStart s' else s
  end.

Fixpoint trimEnd (s : string) : string :=
  match s with
  | EmptyString => EmptyString
  | String c s' =>
      match trimEnd s' with
      | EmptyString =>
          if isWhiteSpace c then EmptyString else String c EmptyString
      | t => String c t
      end
  end.

(** [str.trim()] *)
Definition trim (s : string) : string := trimEnd (trimStart s).

Definition startsWithWhiteSpace (s : string) : bool :=
  match s with
  | EmptyString => false
  | String c _ => isWhiteSpace c
  end.

(** [str.split(/\s+/)]: the pieces between the maximal runs of white
    space; a run at the start or at the end leaves an empty piece
    there, and the empty string gives one empty piece. *)
Fixpoint split (s : string) : list string :=
  match s with
  | EmptyString => [EmptyString]
  | String c s' =>
      if isWhiteSpace c then
        if startsWithWhiteSpace s' then split s' else EmptyString :: split s'
      else
        match split s' with
        | piece :: pieces => String c piece :: pieces
        | [] => [String c EmptyString]
        end
  end.

(** [Boolean(str)] *)
Definition nonEmpty (s : string) : bool :=
  match s with
  | EmptyString => false
  | String _ _ => true
  end.

(** [(name ?? '').trim().split(/\s+/).filter(Boolean)] *)
Definition tokensOf (name : option string) : list string :=
  filter nonEmpty
    (split (trim (match name with Some n => n | None => EmptyString end))).

(** *** The details *)

(** A value that may be [undefined], and its truthiness. *)
Definition truthy (v : option string) : bool :=
  match v with
  | Some s => nonEmpty s
  | None => false
  end.

(** [WebinarRegistrationDetails], and what
    [buildWebinarRegistrationDetails] returns. *)
Record Details : Type := mkDetails {
  firstName : option string;
  lastName : option string;
  email : option string;
  phone : option string
}.

Definition buildWebinarRegistrationDetails
    (webinarRegistration : option Details) (name : option string) : Details :=
  let registration :=
    match webinarRegistration with
    | Some r => r
    | None => mkDetails None None None None
    end in
  if negb (truthy (firstName registration))
     || negb (truthy (lastName registration)) then
    let tokens := tokensOf name in
    mkDetails
      (if negb (truthy (firstName registration))
          && (0 <? Z.of_nat (List.length tokens))
       then Some (nth 0 tokens EmptyString)
       else firstName registration)
      (if negb (truthy (lastName registration))
          && (1 <? Z.of_nat (List.length tokens))
       then Some (String.concat " " (skipn 1 tokens))
       else lastName registration)
      (email registration) (phone registration)
  else registration.

(** *** The form *)

Inductive Field : Type := FirstName | LastName | Email | Phone.

Inductive Button : Type :=
| RegisterButton    (* getByRole('button', { name: /Register/i }).first() *)
| SubmitInput.      (* input[type="submit"][value*="Register"] *)

(** What is done to the page. *)
Inductive Action : Type :=
| Fill (field : Field) (value : string)
| Click (button : Button)
| WaitForLoadState.

(** What the page shows and how the calls that change it end.  A list
    of candidates holds, for each element a selector list matches, how
    [isVisible()] on it ends. *)
Record Page : Type := mkPage {
  inputs : Field -> list (Completion bool);
  recaptchas : list (Completion bool);
  buttonVisible : Button -> Completion bool;
  fill : Field -> Completion unit;
  click : Button -> Completion unit
}.

(** [await candidate.isVisible().catch(() => false)] *)
Definition isVisible (candidate : Completion bool) : bool :=
  match candidate with
  | Returned b => b
  | Thrown _ => false
  end.

(** [findVisibleInput]: the first visible candidate, by its index. *)
Fixpoint findVisibleInput (candidates : list (Completion bool))
  : option nat :=
  match candidates with
  | [] => None
  | candidate :: rest =>
      if isVisible candidate then Some O
      else option_map S (findVisibleInput rest)
  end.

(** [hasVisibleRecaptchaValidator] *)
Definition hasVisibleRecaptchaValidator (page : Page) : bool :=
  existsb isVisible (recaptchas page).

Definition found (input : option nat) : bool :=
  match input with Some _ => true | None => false end.

(** The awaited calls of [tryCompleteWebinarRegistration] that change
    the page are logged; one that throws ends the function. *)
Definition M (A : Type) : Type := list Action -> Completion A * list Action.

Definition ret {A : Type} (a : A) : M A := fun log => (Returned a, log).

Definition throw {A : Type} (error : JsError) : M A :=
  fun log => (Thrown error, log).

Definition bind {A B : Type} (m : M A) (k : A -> M B) : M B :=
  fun log =>
    match m log with
    | (Returned a, log') => k a log'
    | (Thrown error, log') => (Thrown error, log')
    end.

Definition act (a : Action) (outcome : Completion unit) : M unit :=
  fun log => (outcome, log ++ [a]).

Declare Scope form_scope.
Delimit Scope form_scope with form.
Notation "x <- m1 ;; m2" := (bind m1 (fun x => m2))
  (at level 61, m1 at next level, right associativity) : form_scope.
Notation "m1 ;; m2" := (bind m1 (fun _ => m2))
  (at level 61, right associativity) : form_scope.

Definition missingDetails (missing : list string) : JsError :=
  mkJsError UnclassifiedError "Error"
    (String.append "Missing webinar registration details: "
                   (String.concat ", " missing))
    false 0.

Definition visibleRecaptcha : JsError :=
  mkJsError UnclassifiedError "Error"
    "Visible reCAPTCHA detected on webinar registration" false 0.

Section OnPage.
Variable page : Page.
Local Open Scope form_scope.

(** [clickWebinarRegisterButton] *)
Definition clickWebinarRegisterButton : M bool :=
  if isVisible (buttonVisible page RegisterButton) then
    act (Click RegisterButton) (click page RegisterButton) ;;
    ret true
  else if isVisible (buttonVisible page SubmitInput) then
    act (Click SubmitInput) (click page SubmitInput) ;;
    ret true
  else ret false.

(** [if (input && value) await input.fill(value)] *)
Definition fillIf (field : Field) (input : option nat)
    (value : option string) : M unit :=
  match input, value with
  | Some _, Some (String c s) =>
      act (Fill field (String c s)) (fill page field)
  | _, _ => ret tt
  end.

Definition tryCompleteWebinarRegistration
    (webinarRegistration : option Details) (name : option string) : M bool :=
  let firstNameInput := findVisibleInput (inputs page FirstName) in
  let lastNameInput := findVisibleInput (inputs page LastName) in
  let emailInput := findVisibleInput (inputs page Email) in
  let phoneInput := findVisibleInput (inputs page Phone) in
  let hasRegistrationForm :=
    found firstNameInput || found lastNameInput || found emailInput in
  if negb hasRegistrationForm then ret false
  else
    let details := buildWebinarRegistrationDetails webinarRegistration name in
    let missing :=
      (if found firstNameInput && negb (truthy (firstName details))
       then ["firstName"%string] else [])
      ++ (if found lastNameInput && negb (truthy (lastName details))
          then ["lastName"%string] else [])
      ++ (if found emailInput && negb (truthy (email details))
          then ["email"%string] else [])
      ++ (if found phoneInput && negb (truthy (phone details))
          then ["phone"%string] else []) in
    if 0 <? Z.of_nat (List.length missing) then throw (missingDetails missing)
    else
      fillIf FirstName firstNameInput (firstName details) ;;
      fillIf LastName lastNameInput (lastName details) ;;
      fillIf Email emailInput (email details) ;;
      fillIf Phone phoneInput (phone details) ;;
      if hasVisibleRecaptchaValidator page then throw visibleRecaptcha
      else
        submitted <- clickWebinarRegisterButton ;;
        if negb submitted then ret false
        else
          (* waitForLoadState('networkidle').catch(() => undefined) *)
          act WaitForLoadState (Returned tt) ;;
          ret true.

End OnPage.

(** The value of a field in the details. *)
Definition valueOf (details : Details) (field : Field) : option string :=
  match field with
  | FirstName => firstName details
  | LastName => lastName details
  | Email => email details
  | Phone => phone details
  end.

(** A word: a string that is not empty and holds no white space. *)
Fixpoint noWhiteSpace (s : string) : bool :=
  match s with
  | EmptyString => true
  | String c s' => negb (isWhiteSpace c) && noWhiteSpace s'
  end.

Definition isWord (s : string) : bool := nonEmpty s && noWhiteSpace s.

Definition isClick (a : Action) : bool :=
  match a with Click _ => true | _ => false end.

Definition isFill (a : Action) : bool :=
  match a with Fill _ _ => true | _ => false end.

End WebinarRegistration.



(* --------------------------------------------------------------------- *)
(** ** bots/ZoomBot: the notices about camera and microphone *)
(* --------------------------------------------------------------------- *)

Module DeviceNotifications.

(** ['found' | 'dismissed'] *)
Inductive Mark : Type := found | dismissed.

Definition Mark_eqb (a b : Mark) : bool :=
  match a, b with
  | found, found | dismissed, dismissed => true
  | _, _ => false
  end.

Definition includes (m : Mark) (l : list Mark) : bool :=
  existsb (Mark_eqb m) l.

(** What the callback of the interval does with one of its two arrays
    once [isVisible()] of the notice has answered. *)
Definition observe (visible : bool) (notifications : list Mark)
  : list Mark :=
  if visible then
    if negb (includes found notifications) then notifications ++ [found]
    else notifications
  else
    if includes found notifications then notifications ++ [dismissed]
    else notifications.

(** The two arrays and what the promise was resolved with. *)
Record State : Type := mkState {
  cameraNotifications : list Mark;
  micNotifications : list Mark;
  answer : option bool
}.

(** A promise keeps the value it was first resolved with. *)
Definition res (b : bool) (s : State) : State :=
  mkState (cameraNotifications s) (micNotifications s)
          (match answer s with Some a => Some a | None => Some b end).

(** The steps of the callback between two awaits, and the time-out of
    30 s.  Callbacks of the interval may overlap, so that their steps
    interleave. *)
Inductive Event : Type :=
| CameraLooked (visible : bool)   (* await cameraDiv.isVisible() *)
| MicLooked (visible : bool)      (* await micDiv.isVisible() *)
| Checked                         (* the test of the two lengths *)
| Threw                           (* the catch block of the callback *)
| TimedOut.                       (* notifyTimeout *)

Definition step (s : State) (ev : Event) : State :=
  match ev with
  | CameraLooked visible =>
      mkState (observe visible (cameraNotifications s))
              (micNotifications s) (answer s)
  | MicLooked visible =>
      mkState (cameraNotifications s)
              (observe visible (micNotifications s)) (answer s)
  | Checked =>
      if (2 <=? Z.of_nat (List.length (micNotifications s)))
         && (2 <=? Z.of_nat (List.length (cameraNotifications s)))
      then res true s
      else s
  | Threw => res false s
  | TimedOut => res false s
  end.

Definition run (events : list Event) (s : State) : State :=
  fold_left step events s.

(** How one callback of the interval goes when it runs alone. *)
Inductive Tick : Type :=
| Looked (camera mic : bool)       (* both looks answered *)
| CameraThrew                      (* the first isVisible() threw *)
| MicThrew (camera : bool)         (* the second isVisible() threw *)
| CloseThrew (camera mic : bool).  (* getByLabel('close').all() threw *)

Definition eventsOf (t : Tick) : list Event :=
  match t with
  | Looked camera mic => [CameraLooked camera; MicLooked mic; Checked]
  | CameraThrew => [Threw]
  | MicThrew camera => [CameraLooked camera; Threw]
  | CloseThrew camera mic =>
      [CameraLooked camera; MicLooked mic; Checked; Threw]
  end.

Definition initial : State := mkState [] [] None.

(** A notice was seen and, at a later look, was gone. *)
Definition seenThenGone (look : bool -> Event) (events : list Event)
  : Prop :=
  exists before between after,
    events = before ++ look true :: between ++ look false :: after.

End DeviceNotifications.

(* --------------------------------------------------------------------- *)
(** ** The two ffmpeg sinks: [start] *)
(* --------------------------------------------------------------------- *)

(** What happens to a child that [start] has spawned. *)
Inductive StartEvent : Type :=
| ExitEvent (status : ExitStatus)   (* 'exit' *)
| ErrorEvent (error : JsError)      (* 'error' *)
| OutputData                        (* 'data' on stdout *)
| StderrData (output : string)      (* 'data' on stderr *)
| StartTimer.                       (* the timer of 2 s *)

Definition isExitEvent (ev : StartEvent) : bool :=
  match ev with ExitEvent _ => true | _ => false end.

Definition isStartTimer (ev : StartEvent) : bool :=
  match ev with StartTimer => true | _ => false end.

Definition isErrorEvent (ev : StartEvent) : bool :=
  match ev with ErrorEvent _ => true | _ => false end.

(** An 'exit' event that carries an exit code. *)
Definition isExitWithCode (ev : StartEvent) : bool :=
  match ev with ExitEvent (ExitCode _) => true | _ => false end.

(** [resolve()] and [reject(error)] of a promise: a promise that is
    settled stays as it is. *)
Definition resolve (p : Promise) : Promise :=
  match p with Pending => Fulfilled | _ => p end.

Definition reject (error : JsError) (p : Promise) : Promise :=
  match p with Pending => Rejected error | _ => p end.

Module YouTubeLiveStart.

(** A call of [start] that has spawned a child: the child, whether
    [this.process] still refers to it, the flag [settled] and the
    promise [start] returned. *)
Record State : Type := mkState {
  child : ChildProcess;
  attached : bool;
  settled : bool;
  promise : Promise
}.

(** [new Error(`ffmpeg live exited with code ${code}`)] *)
Definition exitedWithCode (code : Z) : JsError :=
  mkJsError UnclassifiedError "Error"
    (String.append "ffmpeg live exited with code " (numberToString code))
    false 0.

Definition failedToStart : JsError :=
  mkJsError UnclassifiedError "Error" "ffmpeg live failed to start" false 0.

(** [start()]: nothing is done when [this.process] is set; else the
    child is spawned, and a [spawn] that throws rejects the promise. *)
Definition start (process : option ChildProcess)
    (spawn : Completion ChildProcess) : Promise * option State :=
  match process with
  | Some _ => (Fulfilled, None)
  | None =>
    match spawn with
    | Thrown error => (Rejected error, None)
    | Returned proc => (Pending, Some (mkState proc true false Pending))
    end
  end.

(** The call when [start] has spawned [proc] and returned. *)
Definition spawned (proc : ChildProcess) : State :=
  mkState proc true false Pending.

(** The child emits 'exit' once. *)
Definition step (s : State) (ev : StartEvent) : State :=
  match ev with
  | ExitEvent status =>
    match exitStatus (child s) with
    | Some _ => s
    | None =>
      let proc := exited status (child s) in
      match status with
      | ExitCode code =>
        if negb (code =? 0) then
          if negb (settled s)
          then mkState proc false true
                       (reject (exitedWithCode code) (promise s))
          else mkState proc false (settled s) (promise s)
        else mkState proc false (settled s) (promise s)
      | ExitSignal _ => mkState proc false (settled s) (promise s)
      end
    end
  | ErrorEvent error =>
    if negb (settled s)
    then mkState (child s) (attached s) true (reject error (promise s))
    else s
  | OutputData => s
  | StderrData _ => s   (* kept in [stderrBuffer], which is only logged *)
  | StartTimer =>
    if settled s then s
    else if attached s && negb (killed (child s))
            && match exitCode (child s) with None => true | Some _ => false end
    then mkState (child s) (attached s) true (resolve (promise s))
    else mkState (child s) (attached s) true
                 (reject failedToStart (promise s))
  end.

Definition run (events : list StartEvent) (s : State) : State :=
  fold_left step events s.

End YouTubeLiveStart.

Module FFmpegStart.

(** A call of [start] that has spawned a child: the child, what it has
    printed on stderr so far, the flag [settled] and the promise [start]
    returned. *)
Record State : Type := mkState {
  child : ChildProcess;
  stderrBuffer : string;
  settled : bool;
  promise : Promise
}.

Definition outputPathRequired : JsError :=
  mkJsError UnclassifiedError "Error"
    "FFmpeg outputPath is required when outputToStdout is false" false 0.

(** [new Error(`FFmpeg exited with code ${code}: ${trimmedBuffer ||
    'no error details'}`)], where [trimmedBuffer] is
    [stderrBuffer.trim()]. *)
Definition exitedWithCode (code : Z) (stderrBuffer : string) : JsError :=
  let trimmedBuffer := WebinarRegistration.trim stderrBuffer in
  mkJsError UnclassifiedError "Error"
    (String.append "FFmpeg exited with code "
       (String.append (numberToString code)
          (String.append ": "
             (if WebinarRegistration.nonEmpty trimmedBuffer
              then trimmedBuffer else "no error details"))))
    false 0.

Definition failedToStart : JsError :=
  mkJsError UnclassifiedError "Error" "ffmpeg failed to start" false 0.

(** [!this.outputPath] *)
Definition noPath (outputPath : option string) : bool :=
  match outputPath with
  | Some (String _ _) => false
  | _ => true
  end.

(** [start()]: [spawn] is what spawning the child would give. *)
Definition start (outputToStdout : bool) (outputPath : option string)
    (spawn : Completion ChildProcess) : Promise * option State :=
  if negb outputToStdout && noPath outputPath
  then (Rejected outputPathRequired, None)
  else
    match spawn with
    | Thrown error => (Rejected error, None)
    | Returned proc =>
        (Pending, Some (mkState proc EmptyString false Pending))
    end.

(** The call when [start] has spawned [proc] and returned. *)
Definition spawned (proc : ChildProcess) : State :=
  mkState proc EmptyString false Pending.

(** The child emits 'exit' once; the 'exit' listener of [start] leaves
    [this.ffmpegProcess] as it is. *)
Definition step (s : State) (ev : StartEvent) : State :=
  match ev with
  | ExitEvent status =>
    match exitStatus (child s) with
    | Some _ => s
    | None =>
      let proc := exited status (child s) in
      match status with
      | ExitCode code =>
        if negb (code =? 0) then
          if negb (settled s)
          then mkState proc (stderrBuffer s) true
                 (reject (exitedWithCode code (stderrBuffer s)) (promise s))
          else mkState proc (stderrBuffer s) (settled s) (promise s)
        else mkState proc (stderrBuffer s) (settled s) (promise s)
      | ExitSignal _ => mkState proc (stderrBuffer s) (settled s) (promise s)
      end
    end
  | ErrorEvent error =>
    if negb (settled s)
    then mkState (child s) (stderrBuffer s) true (reject error (promise s))
    else s
  | OutputData => s
  | StderrData output =>
      (* stderrBuffer += output *)
      mkState (child s) (String.append (stderrBuffer s) output) (settled s)
              (promise s)
  | StartTimer =>
    if settled s then s
    else if negb (killed (child s))
            && match exitCode (child s) with None => true | Some _ => false end
    then mkState (child s) (stderrBuffer s) true (resolve (promise s))
    else mkState (child s) (stderrBuffer s) true
                 (reject failedToStart (promise s))
  end.

Definition run (events : list StartEvent) (s : State) : State :=
  fold_left step events s.

End FFmpegStart.

(* --------------------------------------------------------------------- *)
(** ** lib/ffmpegRecorder: calls of [stop] among the events *)
(* --------------------------------------------------------------------- *)

Module FFmpegRecorderUse.

(** What is done to the recorder and what happens to it. *)
Inductive Action : Type :=
| CallStop
| Happens (i : FFmpegRecorder.Input).

Definition act (s : FFmpegRecorder.State) (a : Action)
  : FFmpegRecorder.State :=
  match a with
  | CallStop => snd (FFmpegRecorder.stop s)
  | Happens i => FFmpegRecorder.step i s
  end.

Definition acts (l : list Action) (s : FFmpegRecorder.State)
  : FFmpegRecorder.State :=
  fold_left act l s.

(** The recorder when [start] has spawned [proc]. *)
Definition recording (proc : ChildProcess) : FFmpegRecorder.State :=
  FFmpegRecorder.mkState (Some proc) true [] [].

(** What the recorder has sent to the child [proc0] it was started
    with: only SIGTERM; and a last-resort timer is armed only for a
    child that has taken a SIGTERM or has exited. *)
Definition sound (proc0 : ChildProcess) (s : FFmpegRecorder.State) : Prop :=
  exists proc k,
    FFmpegRecorder.child s = Some proc /\
    signals proc = signals proc0 ++ repeat SIGTERM k /\
    Forall (fun c => FFmpegRecorder.lastResort c = true ->
                     killed proc = true \/ exitStatus proc <> None)
           (FFmpegRecorder.stops s).

End FFmpegRecorderUse.

(* --------------------------------------------------------------------- *)
(** ** The runner of meeting jobs *)
(* --------------------------------------------------------------------- *)

Module MeetingJobs.

(** *** [submitJob] *)

(** How one [axios.post] to the join endpoint ends. *)
Inductive PostResult : Type :=
| Accepted
| Conflict                       (* an AxiosError with response.status 409 *)
| PostFailed (error : JsError).  (* anything else that is thrown *)

Inductive Request : Type :=
| Post (attempt : nat)
| Sleep (ms : Z).

Section Submit.

(** [pollIntervalMs], and how the first post ends, the second, ... *)
Variable pollIntervalMs : Z.
Variable post : nat -> PostResult.

(** [submitJob]: the loop runs for as long as the server answers 409;
    [fuel] bounds its turns here, and [None] stands for a bound that
    was too small. *)
Fixpoint submitJob (fuel : nat) (attempt : nat) (trace : list Request)
  : option (Completion unit * list Request) :=
  match fuel with
  | O => None
  | S fuel' =>
    match post attempt with
    | Accepted => Some (Returned tt, trace ++ [Post attempt])
    | Conflict =>
        submitJob fuel' (S attempt)
          (trace ++ [Post attempt; Sleep pollIntervalMs])
    | PostFailed error => Some (Thrown error, trace ++ [Post attempt])
    end
  end.

End Submit.

Definition isConflict (r : PostResult) : bool :=
  match r with Conflict => true | _ => false end.

(** What [submitJob] ends with after a post that is not answered 409. *)
Definition completionOf (r : PostResult) : Completion unit :=
  match r with
  | PostFailed error => Thrown error
  | _ => Returned tt
  end.

(** The requests of [n] posts answered 409, from the post [attempt]
    on. *)
Fixpoint conflicts (pollIntervalMs : Z) (attempt n : nat) : list Request :=
  match n with
  | O => []
  | S n' =>
      Post attempt :: Sleep pollIntervalMs
        :: conflicts pollIntervalMs (S attempt) n'
  end.

(** *** [run] *)

Inductive Call : Type :=
| LoadJobsFile
| StartServerProcess
| WaitForServerReady
| SubmitJob (index : nat)
| WaitForJobCompletion (index : nat)
| StopServerProcess.

(** How the awaited calls of [run] end; [loadJobsFile] gives the number
    of jobs of the file. *)
Record Collaborators : Type := mkCollaborators {
  loadJobsFile : Completion nat;
  startServerProcess : Completion unit;
  waitForServerReady : Completion unit;
  submit : nat -> Completion unit;
  waitForJobCompletion : nat -> Completion unit;
  stopServerProcess : Completion unit
}.

Section Run.

(** [startServer]: MEETING_JOBS_START_SERVER is not ['false']. *)
Variable startServer : bool.
Variable c : Collaborators.

(** The [for] loop over the jobs, from [index] on; [todo] jobs are
    left. *)
Fixpoint jobsLoop (index todo : nat) (log : list Call)
  : Completion unit * list Call :=
  match todo with
  | O => (Returned tt, log)
  | S todo' =>
    match submit c index with
    | Thrown error => (Thrown error, log ++ [SubmitJob index])
    | Returned _ =>
      match waitForJobCompletion c index with
      | Thrown error =>
          (Thrown error, log ++ [SubmitJob index; WaitForJobCompletion index])
      | Returned _ =>
          jobsLoop (S index) todo'
            (log ++ [SubmitJob index; WaitForJobCompletion index])
      end
    end
  end.

(** The [try] block: its completion, the calls, and whether
    [serverProcess] is set. *)
Definition runTry (jobs : nat) (log : list Call)
  : Completion unit * list Call * bool :=
  if startServer then
    match startServerProcess c with
    | Thrown error => (Thrown error, log ++ [StartServerProcess], false)
    | Returned _ =>
      match waitForServerReady c with
      | Thrown error =>
          (Thrown error, log ++ [StartServerProcess; WaitForServerReady],
           true)
      | Returned _ =>
          (jobsLoop O jobs (log ++ [StartServerProcess; WaitForServerReady]),
           true)
      end
    end
  else (jobsLoop O jobs log, false).

Definition run : Completion unit * list Call :=
  match loadJobsFile c with
  | Thrown error => (Thrown error, [LoadJobsFile])
  | Returned jobs =>
    match runTry jobs [LoadJobsFile] with
    | (r, log, true) =>
        (* finally *)
        match stopServerProcess c with
        | Thrown error => (Thrown error, log ++ [StopServerProcess])
        | Returned _ => (r, log ++ [StopServerProcess])
        end
    | (r, log, false) => (r, log)
    end
  end.

End Run.

(** The calls for the first [n] jobs, in the order of the file. *)
Fixpoint jobCalls (index n : nat) : list Call :=
  match n with
  | O => []
  | S n' => SubmitJob index :: WaitForJobCompletion index :: jobCalls (S index) n'
  end.

Definition isJobCall (call : Call) : bool :=
  match call with
  | SubmitJob _ | WaitForJobCompletion _ => true
  | _ => false
  end.

Definition isStop (call : Call) : bool :=
  match call with StopServerProcess => true | _ => false end.

(** *** [stopServerProcess] *)

(** The child, whether the timer of 10 s is armed, whether the 'exit'
    listener is on, and the promise the function awaits. *)
Record Stopping : Type := mkStopping {
  child : ChildProcess;
  timer : bool;
  listener : bool;
  promise : Promise;
  log : list Entry
}.

Definition stopServer (proc : ChildProcess) : Stopping :=
  if killed proc || match exitCode proc with Some _ => true | None => false end
  then mkStopping proc false false Fulfilled []
  else mkStopping (kill SIGTERM proc) true true Pending
                  [Armed 10000; Sent SIGTERM].

(** The callback of the timer. *)
Definition onTimer (s : Stopping) : Stopping :=
  if timer s then
    if negb (killed (child s)) then
      mkStopping (kill SIGKILL (child s)) false (listener s)
                 (resolve (promise s))
                 (log s ++ [Fired 10000; Sent SIGKILL; Resolved Stop])
    else
      mkStopping (child s) false (listener s) (resolve (promise s))
                 (log s ++ [Fired 10000; Resolved Stop])
  else s.

(** The child emits 'exit', once; the listener was added with [once]. *)
Definition onServerExit (status : ExitStatus) (s : Stopping) : Stopping :=
  match exitStatus (child s) with
  | Some _ => s
  | None =>
    if listener s then
      mkStopping (exited status (child s)) false false (resolve (promise s))
                 (log s ++ [Exited status; Cleared; Resolved Stop])
    else
      mkStopping (exited status (child s)) (timer s) false (promise s)
                 (log s ++ [Exited status])
  end.

Inductive Input : Type :=
| TimerElapsed
| ProcessExited (status : ExitStatus).

Definition step (s : Stopping) (i : Input) : Stopping :=
  match i with
  | TimerElapsed => onTimer s
  | ProcessExited status => onServerExit status s
  end.

Definition runStopping (inputs : list Input) (s : Stopping) : Stopping :=
  fold_left step inputs s.

End MeetingJobs.

(* --------------------------------------------------------------------- *)
(** ** Notions for the detection of the end of a meeting *)
(* --------------------------------------------------------------------- *)

(** A look at the page finds that the meeting is over: the look does
    not fail, and there is either the notice that the host has ended
    the meeting, with its OK button, or a count of at most one
    participant. *)
Definition endDetected (d : RecordingTask.DomSnapshot) : Prop :=
  RecordingTask.broken d = false /\
  ((RecordingTask.okButton d = true /\ RecordingTask.meetingEnded d = true) \/
   exists n, RecordingTask.participants d = Some n /\ n <= 1).

(** While the recorder runs, a look at the page is due at [T]: no timer
    is overdue, and either the detection will be activated a multiple
    of 2 s before [T], or the next look is due a multiple of 2 s before
    [T] or at [T]. *)
Definition lookDue (T : Z) (p : RecordingTask.Page) : Prop :=
  Forall (fun t => RecordingTask.now p <= RecordingTask.deadline t)
         (RecordingTask.timers p) /\
  (RecordingTask.state p = RecordingTask.recording ->
   exists d,
     (T - d) mod 2000 = 0 /\
     ((d < T /\
       In (RecordingTask.mkTimer d RecordingTask.ActivateInactivityDetection)
          (RecordingTask.timers p)) \/
      (d <= T /\
       In (RecordingTask.mkTimer d RecordingTask.LoneTest)
          (RecordingTask.timers p)))).
(** The two callbacks that run [monitorSilence]. *)
Definition runsMonitorSilence (t : RecordingTask.Timer) : bool :=
  match RecordingTask.callback t with
  | RecordingTask.ActivateInactivityDetection
  | RecordingTask.MonitorSilence => true
  | _ => false
  end.

(** While the recorder runs, the audio has been silent since the
    detection was to be activated at [A], and [monitorSilence] is due:
    no timer is overdue, [monitor] is set, exactly one timer that runs
    [monitorSilence] is pending, due at [A] plus a multiple of 100 ms
    and no later than [T], and [silenceDuration] is the time from [A]
    to when it is due. *)
Definition silenceDue (A T : Z) (p : RecordingTask.Page) : Prop :=
  Forall (fun t => RecordingTask.now p <= RecordingTask.deadline t)
         (RecordingTask.timers p) /\
  (RecordingTask.state p = RecordingTask.recording ->
   RecordingTask.monitor p = true /\
   exists d cb,
     filter runsMonitorSilence (RecordingTask.timers p)
     = [RecordingTask.mkTimer d cb] /\
     A <= d <= T /\ (d - A) mod 100 = 0 /\
     RecordingTask.silenceDuration p = d - A).

(* --------------------------------------------------------------------- *)
(** ** The runner of meeting jobs: polling the server *)
(* --------------------------------------------------------------------- *)

Module Polling.

Inductive Request : Type :=
| GetHealth      (* axios.get(`${baseUrl}/health`) *)
| GetIsBusy      (* axios.get(`${baseUrl}/isbusy`) *)
| Sleep (ms : Z).

(** [new Error(`Server did not become healthy within
    ${startTimeoutMs}ms`)] *)
Definition notHealthy (startTimeoutMs : Z) : JsError :=
  mkJsError UnclassifiedError "Error"
    (String.append "Server did not become healthy within "
       (String.append (numberToString startTimeoutMs) "ms"))
    false 0.

(** [new Error(`Timed out waiting for isbusy=${desiredState} after
    ${timeoutMs}ms`)] *)
Definition timedOut (desiredState timeoutMs : Z) : JsError :=
  mkJsError UnclassifiedError "Error"
    (String.append "Timed out waiting for isbusy="
       (String.append (numberToString desiredState)
          (String.append " after "
             (String.append (numberToString timeoutMs) "ms"))))
    false 0.

(** How a request for /health ends. *)
Inductive Health : Type :=
| Healthy                          (* response.status === 200 *)
| OtherStatus
| HealthFailed (error : JsError).  (* the request threw *)

Definition isHealthy (h : Health) : bool :=
  match h with Healthy => true | _ => false end.

Section WithServer.

(** [pollIntervalMs] and [startTimeoutMs], in whole ms; what
    [Date.now()] gives when it is read the first time, the second, ...;
    how the requests for /health end; and what [getBusyStatus] gives,
    one call after the other. *)
Variables pollIntervalMs startTimeoutMs : Z.
Variable clock : nat -> Z.
Variable health : nat -> Health.
Variable getBusyStatus : nat -> Completion Z.

(** The loop of [waitForServerReady]; [reads] readings of the clock and
    [tries] requests are behind.  [fuel] bounds its turns here, and
    [None] stands for a bound that was too small. *)
Fixpoint readyLoop (fuel : nat) (deadline : Z) (reads tries : nat)
    (trace : list Request) : option (Completion unit * list Request) :=
  match fuel with
  | O => None
  | S fuel' =>
    if clock reads <? deadline then
      match health tries with
      | Healthy => Some (Returned tt, trace ++ [GetHealth])
      | _ =>
          readyLoop fuel' deadline (S reads) (S tries)
            (trace ++ [GetHealth; Sleep 2000])
      end
    else Some (Thrown (notHealthy startTimeoutMs), trace)
  end.

Definition waitForServerReady (fuel : nat)
  : option (Completion unit * list Request) :=
  readyLoop fuel (clock 0 + startTimeoutMs) 1 0 [].

(** The loop of [waitForBusyState]. *)
Fixpoint busyLoop (fuel : nat) (desiredState timeoutMs : Z)
    (deadline : option Z) (reads polls : nat) (trace : list Request)
  : option (Completion unit * list Request) :=
  match fuel with
  | O => None
  | S fuel' =>
    match getBusyStatus polls with
    | Thrown error => Some (Thrown error, trace ++ [GetIsBusy])
    | Returned busyState =>
      if busyState =? desiredState
      then Some (Returned tt, trace ++ [GetIsBusy])
      else
        match deadline with
        | Some d =>
          if clock reads >=? d
          then Some (Thrown (timedOut desiredState timeoutMs),
                     trace ++ [GetIsBusy])
          else busyLoop fuel' desiredState timeoutMs deadline (S reads)
                 (S polls) (trace ++ [GetIsBusy; Sleep pollIntervalMs])
        | None =>
          busyLoop fuel' desiredState timeoutMs deadline reads (S polls)
            (trace ++ [GetIsBusy; Sleep pollIntervalMs])
        end
    end
  end.

Definition waitForBusyState (fuel : nat) (desiredState timeoutMs : Z)
  : option (Completion unit * list Request) :=
  if timeoutMs >? 0
  then busyLoop fuel desiredState timeoutMs (Some (clock 0 + timeoutMs)) 1 0 []
  else busyLoop fuel desiredState timeoutMs None 0 0 [].

(** A poll that ends the wait by itself: it shows the desired state, or
    it failed. *)
Definition decisive (desiredState : Z) (r : Completion Z) : bool :=
  match r with
  | Returned busyState => busyState =? desiredState
  | Thrown _ => true
  end.

(** The deadline is over when the clock is read after the poll number
    [j]. *)
Definition overdue (timeoutMs : Z) (j : nat) : bool :=
  (timeoutMs >? 0) && (clock (S j) >=? clock 0 + timeoutMs).

End WithServer.

(** [n] rounds of a request and a sleep. *)
Fixpoint rounds (request : Request) (ms : Z) (n : nat) : list Request :=
  match n with
  | O => []
  | S n' => request :: Sleep ms :: rounds request ms n'
  end.

End Polling.

(* --------------------------------------------------------------------- *)
(** ** Notions for the retry law *)
(* --------------------------------------------------------------------- *)

(** The delays of [k] retries in a row that follow an attempt made with
    [retryCount]: [(retryCount + 1) * 30000], ..., [(retryCount + k) *
    30000]. *)
Definition backoff (retryCount : Z) (k : nat) : list Z :=
  map (fun i => (retryCount + Z.of_nat i) * 30000) (seq 1 k).

Arguments backoff : simpl never.

(** What an attempt that is tried again leaves on the trace: the
    processor runs, the delay of [n * 30000] ms is slept, where [n] is
    [retryCount] after its increment, and the next attempt is announced,
    unless [n] is zero. *)
Definition retried (params : JoinMeeting.MeetingJoinParams) (ceiling n : Z)
  : list JoinMeeting.Event :=
  JoinMeeting.Invoke params :: JoinMeeting.Sleep (n * 30000) ::
  (if n =? 0 then []
   else [JoinMeeting.Log (JoinMeeting.RetryAttempt n ceiling)]).

(** [k] such attempts in a row, the first of them made with
    [retryCount]. *)
Fixpoint retries (params : JoinMeeting.MeetingJoinParams)
    (ceiling retryCount : Z) (k : nat) : list JoinMeeting.Event :=
  match k with
  | O => []
  | S k' =>
      retried params ceiling (retryCount + 1)
      ++ retries params ceiling (retryCount + 1) k'
  end.

(** The line that [joinMeetWithRetry] logs for an error it does not
    retry. *)
Definition notRetriedLine (error : JsError) (line : JoinMeeting.LogLine)
  : Prop :=
  line = JoinMeeting.LobbyNotRetrying error \/
  line = JoinMeeting.KnownErrorNotRetryable error \/
  line = JoinMeeting.TriesConsumed (maxRetries error) error.

(** The state of the outside after [k] attempts in a row. *)
Fixpoint envAfter (Env : Type)
    (processor : JoinMeeting.MeetingJoinParams -> Env -> Completion unit * Env)
    (params : JoinMeeting.MeetingJoinParams) (k : nat) (e : Env) : Env :=
  match k with
  | O => e
  | S k' => envAfter processor params k' (snd (processor params e))
  end.

(* --------------------------------------------------------------------- *)
(** ** Notions for the page after a stop *)
(* --------------------------------------------------------------------- *)

(** The recorder and the signal to the Node side agree: while the
    recorder runs, the tracks are live and [screenAppMeetEnd] was not
    called; once it is inactive, the tracks are stopped, [screenAppMeetEnd]
    was called, and the only timers left are those of the inactivity
    detection. *)
Definition settled (p : RecordingTask.Page) : Prop :=
  match RecordingTask.state p with
  | RecordingTask.recording =>
      RecordingTask.tracksStopped p = false /\
      ~ In RecordingTask.ScreenAppMeetEnd (map snd (RecordingTask.notes p))
  | RecordingTask.inactive =>
      RecordingTask.tracksStopped p = true /\
      In RecordingTask.ScreenAppMeetEnd (map snd (RecordingTask.notes p)) /\
      Forall (fun t => RecordingTask.callback t = RecordingTask.LoneTest \/
                       RecordingTask.callback t = RecordingTask.MonitorSilence)
             (RecordingTask.timers p)
  end.

(* --------------------------------------------------------------------- *)
(** ** Sample values for the examples *)
(* --------------------------------------------------------------------- *)

Module JoinMeetingExamples.
Import JoinMeeting.

Definition params0 : MeetingJoinParams :=
  mkParams "https://zoom.us/j/1" "Notetaker" "team" "user" "token" "UTC"
           None None.

Definition w0 : World unit := mkWorld tt [].

(** A processor whose every attempt throws the same error. *)
Definition alwaysThrows (error : JsError)
  : MeetingJoinParams -> unit -> Completion unit * unit :=
  fun _ e => (Thrown error, e).

Definition automationFailure : JsError :=
  mkJsError KnownError "KnownError" "automation failed" true 2.

Definition lobbyTimeout : JsError :=
  mkJsError WaitingAtLobbyRetryError "WaitingAtLobbyRetryError"
            "Zoom bot could not enter the meeting..." false 0.

Definition unsupportedMeeting : JsError :=
  mkJsError KnownError "KnownError" "unsupported" false 0.

Definition typeOf (error : JsError) : string := errName error.

End JoinMeetingExamples.

Module SinkExamples.

(** A child as [spawn] with piped stdio returns it. *)
Definition spawned (w : Writable) : ChildProcess :=
  mkChild (Some w) false None [].

Definition openPipe : Writable := mkWritable [] false false true.
Definition fullPipe : Writable := mkWritable [] false false false.

Definition streaming (w : Writable) : YouTubeLiveStreamer.State :=
  YouTubeLiveStreamer.mkState (Some (spawned w)) true 0 0 0 [].

Definition neverStarted : YouTubeLiveStreamer.State :=
  YouTubeLiveStreamer.mkState None false 0 0 0 [].

Definition recording (w : Writable) : FFmpegRecorder.State :=
  FFmpegRecorder.mkState (Some (spawned w)) true [] [].

(** The recorder whose ffmpeg has been ended by a SIGKILL that came from
    outside: the 'exit' listener of [start] has run and has left
    [this.ffmpegProcess] as it is. *)
Definition killedFromOutside : FFmpegRecorder.State :=
  FFmpegRecorder.mkState
    (Some (exited (ExitSignal SIGKILL) (spawned openPipe))) true [] [].

End SinkExamples.

Module ChunkExamples.
Import RecordingTask.

Definition emptyBlob : Blob := mkBlob [] true.
Definition mediaBlob : Blob := mkBlob [Byte.x1a; Byte.x45; Byte.xdf; Byte.xa3] true.
Definition bridgeUp : list Byte.byte -> Completion unit := fun _ => Returned tt.

End ChunkExamples.

Module PageExamples.
Import RecordingTask.

(** Three participants and no notice, whenever the page is looked at. *)
Definition busyMeeting : Z -> DomSnapshot :=
  fun _ => mkDom false false false (Some 3).

Definition talking : Z -> bool := fun _ => false.

(** The bot is alone from the start. *)
Definition emptyMeeting : Z -> DomSnapshot :=
  fun _ => mkDom false false false (Some 1).

End PageExamples.

(* ===================================================================== *)
(** * Part II: properties *)
(* ===================================================================== *)

Unset Implicit Arguments.

Section JoinMeetingFacts.
Import JoinMeeting.

Variable Env : Type.
Variable processor : MeetingJoinParams -> Env -> Completion unit * Env.
Variable config_retryCount : Z.
Variable getErrorType : JsError -> string.

(** One unfolding of the function when the attempt throws. *)
Lemma joinMeetWithRetry_thrown params retryCount w error env' :
  processor params (env w) = (Thrown error, env') ->
  joinMeetWithRetry processor config_retryCount params retryCount w =
  catchBlock processor config_retryCount params retryCount error
    (mkWorld env' (trace w ++ [Invoke params])).
Proof.
  intros Hp. unfold catchBlock.
  rewrite joinMeetWithRetry_equation_1.
  unfold callProcessor. rewrite Hp. cbn.
  destruct (Z_le_gt_dec (retryCount + 1) config_retryCount) as [Hle | Hgt];
    destruct (Z.leb_spec (retryCount + 1) config_retryCount);
    try lia; reflexivity.
Qed.

(** One unfolding of the function when the attempt succeeds. *)
Lemma joinMeetWithRetry_returned params retryCount w u env' :
  processor params (env w) = (Returned u, env') ->
  joinMeetWithRetry processor config_retryCount params retryCount w =
  (Returned tt, mkWorld env' (trace w ++ [Invoke params])).
Proof.
  intros Hp. rewrite joinMeetWithRetry_equation_1.
  unfold callProcessor. rewrite Hp. reflexivity.
Qed.

(** C2: a lobby-admission time-out is rethrown at once.  Whatever the
    current [retryCount] and the configured ceiling, the processor has
    run once, nothing was slept, and the only other thing that happened
    is the "not retrying" log line. *)
Theorem lobby_failure_never_retried params retryCount w error env' :
  processor params (env w) = (Thrown error, env') ->
  instanceofWaitingAtLobbyRetryError error = true ->
  joinMeetWithRetry processor config_retryCount params retryCount w =
  (Thrown error,
   mkWorld env' (trace w ++ [Invoke params; Log (LobbyNotRetrying error)])).
Proof.
  intros Hp Hlobby.
  rewrite (joinMeetWithRetry_thrown _ retryCount _ _ _ Hp).
  unfold catchBlock. rewrite Hlobby. unfold emit. cbn.
  rewrite <- app_assoc. reflexivity.
Qed.

(** C5: a [KnownError] that is not retryable is rethrown at once, for
    every [retryCount]: one invocation of the processor, no sleep, one
    error log line. *)
Theorem non_retryable_known_error_rethrown params retryCount w error env' :
  processor params (env w) = (Thrown error, env') ->
  instanceofKnownError error = true ->
  retryable error = false ->
  joinMeetWithRetry processor config_retryCount params retryCount w =
  (Thrown error,
   mkWorld env'
     (trace w ++
      [Invoke params;
       Log (if instanceofWaitingAtLobbyRetryError error
            then LobbyNotRetrying error
            else KnownErrorNotRetryable error)])).
Proof.
  intros Hp Hknown Hnr.
  rewrite (joinMeetWithRetry_thrown _ retryCount _ _ _ Hp).
  unfold catchBlock. rewrite Hknown, Hnr. cbn.
  destruct (instanceofWaitingAtLobbyRetryError error);
    unfold emit; cbn; rewrite <- app_assoc; reflexivity.
Qed.

(** C1 (as amended): a retryable [KnownError] with [maxRetries = 2]
    thrown by every attempt gets two attempts in all.  Started with
    [retryCount = 0] under a configured ceiling of at least one retry,
    [joinMeetWithRetry] sleeps 30 s, runs the processor a second time
    and then rethrows: [(retryCount + 1) >= maxRetries] holds as soon as
    [retryCount] is 1, so [maxRetries] counts tries, not retries. *)
Theorem known_error_max2_gets_two_tries params w error :
  (forall e, fst (processor params e) = Thrown error) ->
  errClass error = KnownError ->
  retryable error = true ->
  maxRetries error = 2 ->
  1 <= config_retryCount ->
  exists env',
    joinMeetWithRetry processor config_retryCount params 0 w =
    (Thrown error,
     mkWorld env'
       (trace w ++
        [Invoke params; Sleep 30000; Log (RetryAttempt 1 config_retryCount);
         Invoke params; Log (TriesConsumed 2 error)])).
Proof.
  intros Hall Hcls Hr Hmax Hcfg.
  assert (Hstep : forall e, exists e', processor params e = (Thrown error, e')).
  { intros e. specialize (Hall e). destruct (processor params e) as [r e'].
    cbn in Hall. subst r. eauto. }
  destruct (Hstep (env w)) as [e1 H1].
  destruct (Hstep e1) as [e2 H2].
  exists e2.
  rewrite (joinMeetWithRetry_thrown _ 0 _ _ _ H1).
  unfold catchBlock, instanceofWaitingAtLobbyRetryError, instanceofKnownError.
  rewrite Hcls, Hr, Hmax. cbn.
  destruct (Z.leb_spec 1 config_retryCount); [ | lia ].
  unfold emit, sleep; cbn [env trace].
  rewrite (joinMeetWithRetry_thrown _ 1 (mkWorld e1 _) _ _ H2).
  unfold catchBlock, instanceofWaitingAtLobbyRetryError, instanceofKnownError.
  rewrite Hcls, Hr, Hmax. cbn.
  unfold emit. cbn. repeat rewrite <- app_assoc. reflexivity.
Qed.

(** C9: [processMeetingJoin] always returns normally.  When the retry
    loop gives up with an error, that error is logged according to its
    class, followed by the "permanently failed" line carrying its
    classification, and nothing is rethrown. *)
Theorem processMeetingJoin_never_rejects params w :
  exists w',
    processMeetingJoin processor config_retryCount getErrorType params w =
    (Returned tt, w') /\
    (forall error w1,
       joinMeetWithRetry processor config_retryCount params 0
         (emit (Log StartedRecording) w) = (Thrown error, w1) ->
       env w' = env w1 /\
       trace w' =
       trace w1 ++
       [Log (if instanceofKnownError error then PermanentlyExiting error
             else FailedAfterRetries error);
        Log (PermanentlyFailed (getErrorType error))]) /\
    (forall u w1,
       joinMeetWithRetry processor config_retryCount params 0
         (emit (Log StartedRecording) w) = (Returned u, w1) ->
       w' = emit (Log FinishedRecording) w1).
Proof.
  unfold processMeetingJoin.
  destruct (joinMeetWithRetry processor config_retryCount params 0
              (emit (Log StartedRecording) w)) as [[u | error] w1].
  - eexists. split; [ reflexivity | ].
    split; [ intros ? ? [=] | intros ? ? [= _ <-]; reflexivity ].
  - eexists. split; [ reflexivity | ].
    split; [ | intros ? ? [=] ].
    intros ? ? [= <- <-].
    destruct (instanceofKnownError error); unfold emit; cbn;
      rewrite <- app_assoc; split; reflexivity.
Qed.

End JoinMeetingFacts.


Section JoinMeetingExampleFacts.
Import JoinMeeting JoinMeetingExamples.

(** C1 (as stated) fails: with the default ceiling [config.retryCount = 2]
    and a retryable [KnownError] whose [maxRetries] is 2 thrown by every
    attempt, the processor runs twice, not three times, and the only
    delay slept is 30 s: there is no second retry and no 60 s delay. *)
Lemma known_error_max2_counterexample :
  let r := joinMeetWithRetry (alwaysThrows automationFailure) 2 params0 0 w0 in
  fst r = Thrown automationFailure /\
  invocations (trace (snd r)) = 2%nat /\
  sleeps (trace (snd r)) = [30000] /\
  ~ (invocations (trace (snd r)) = 3%nat /\
     sleeps (trace (snd r)) = [30000; 60000]).
Proof.
  vm_compute. repeat split; try reflexivity. intros [H _]. discriminate H.
Qed.

(** The amended retry law at the default ceiling. *)
Lemma known_error_max2_gets_two_tries_witness :
  exists env',
    joinMeetWithRetry (alwaysThrows automationFailure) 2 params0 0 w0 =
    (Thrown automationFailure,
     mkWorld env'
       (trace w0 ++
        [Invoke params0; Sleep 30000; Log (RetryAttempt 1 2);
         Invoke params0; Log (TriesConsumed 2 automationFailure)])).
Proof.
  apply (known_error_max2_gets_two_tries unit (alwaysThrows automationFailure)
           2 params0 w0 automationFailure).
  - intros e. reflexivity.
  - reflexivity.
  - reflexivity.
  - reflexivity.
  - lia.
Defined.

(** A lobby time-out on a second attempt, under the default ceiling. *)
Lemma lobby_failure_never_retried_witness :
  joinMeetWithRetry (alwaysThrows lobbyTimeout) 2 params0 1 w0 =
  (Thrown lobbyTimeout,
   mkWorld tt (trace w0 ++ [Invoke params0; Log (LobbyNotRetrying lobbyTimeout)])).
Proof.
  apply (lobby_failure_never_retried unit (alwaysThrows lobbyTimeout)
           2 params0 1 w0 lobbyTimeout tt); reflexivity.
Defined.

(** A non-retryable [KnownError] on the first attempt. *)
Lemma non_retryable_known_error_rethrown_witness :
  joinMeetWithRetry (alwaysThrows unsupportedMeeting) 2 params0 0 w0 =
  (Thrown unsupportedMeeting,
   mkWorld tt
     (trace w0 ++
      [Invoke params0;
       Log (if instanceofWaitingAtLobbyRetryError unsupportedMeeting
            then LobbyNotRetrying unsupportedMeeting
            else KnownErrorNotRetryable unsupportedMeeting)])).
Proof.
  apply (non_retryable_known_error_rethrown unit
           (alwaysThrows unsupportedMeeting) 2 params0 0 w0
           unsupportedMeeting tt); reflexivity.
Defined.

(** An unclassified failure is retried up to the configured ceiling and
    the backoff grows linearly; the delay is slept once more before the
    ceiling is checked. *)
Example unclassified_failure_backoff :
  let r := joinMeetWithRetry
             (alwaysThrows (mkJsError UnclassifiedError "Error" "boom" false 0))
             2 params0 0 w0 in
  invocations (trace (snd r)) = 3%nat /\
  sleeps (trace (snd r)) = [30000; 60000; 90000].
Proof. vm_compute. split; reflexivity. Qed.

(** The three ways the join phase can fail all end in a normal return. *)
Example processMeetingJoin_examples :
  fst (processMeetingJoin (alwaysThrows automationFailure) 2 typeOf params0 w0)
    = Returned tt /\
  fst (processMeetingJoin (alwaysThrows lobbyTimeout) 2 typeOf params0 w0)
    = Returned tt /\
  fst (processMeetingJoin (alwaysThrows unsupportedMeeting) 2 typeOf params0 w0)
    = Returned tt.
Proof. vm_compute. repeat split; reflexivity. Qed.

End JoinMeetingExampleFacts.

Section ZoomBotFacts.
Import ZoomBot.

(** C4: the status history starts with [processing] and only grows:
    every snapshot handed to the status collaborator is an initial
    segment of the final history.  A session that succeeds has the
    history [processing; joined; finished].  When the [try] block
    throws, [failed] is appended if and only if [finished] is not in
    the history yet.  Either way the history of a finished session has
    [finished] or [failed] as its last entry, and contains exactly one
    of the two. *)
Theorem status_history_shape (c : Collaborators) :
  (exists rest, history c = processing :: rest) /\
  Forall (fun snapshot => prefix snapshot (history c))
         (reported (snd (join c))) /\
  (fst (join c) = Returned tt -> history c = [processing; joined; finished]) /\
  (forall error s,
      joinTry c initial = (Thrown error, s) ->
      prefix [processing] (_state s) /\
      history c =
      (if includes finished (_state s) then _state s
       else _state s ++ [failed])) /\
  (last (history c) processing = finished \/
   last (history c) processing = failed) /\
  (includes finished (history c) = negb (includes failed (history c))).
Proof.
  unfold history, join, tryCatch, joinTry, joinCatch, joinMeeting,
    handleUpload, callPatchBotStatus, pushState, await, bind, ret, throw,
    initial.
  destruct c as [enter record patch upload lobby]. cbn.
  destruct enter as [[] | e1]; cbn;
    [ destruct record as [[] | e2]; cbn;
      [ destruct (patch [processing; joined; finished]) as [[] | e3] eqn:Hp;
        cbn; rewrite ?Hp; cbn;
        [ destruct upload as [[] | e4]; cbn; rewrite ?Hp; cbn | ]
      | ]
    | ].
  all: repeat match goal with
       | |- context [match ?x with Returned _ => _ | Thrown _ => _ end] =>
           destruct x as [[] | ?]; cbn
       | |- context [if instanceofWaitingAtLobbyRetryError ?e then _ else _] =>
           destruct (instanceofWaitingAtLobbyRetryError e); cbn
       end.
  all: repeat split; intros;
    try match goal with
        | H : (Thrown _, _) = (Thrown _, _) |- _ => injection H as <- <-; cbn
        end;
    try solve
      [ eexists; cbn; reflexivity
      | discriminate
      | reflexivity
      | left; reflexivity
      | right; reflexivity
      | repeat constructor; unfold prefix;
        first [ exists []; reflexivity
              | eexists; cbn; reflexivity ] ].
Qed.

(** The three histories the code can leave behind. *)
Example history_success :
  history (mkCollaborators (Returned tt) (Returned tt)
             (fun _ => Returned tt) (Returned tt) (fun _ => Returned tt))
  = [processing; joined; finished].
Proof. reflexivity. Qed.

Example history_lobby_timeout :
  history (mkCollaborators (Thrown JoinMeetingExamples.lobbyTimeout)
             (Returned tt) (fun _ => Returned tt) (Returned tt)
             (fun _ => Returned tt))
  = [processing; failed].
Proof. reflexivity. Qed.

Example history_upload_failure :
  history (mkCollaborators (Returned tt) (Returned tt)
             (fun _ => Returned tt)
             (Thrown (mkJsError UnclassifiedError "Error" "upload" false 0))
             (fun _ => Returned tt))
  = [processing; joined; finished].
Proof. reflexivity. Qed.

End ZoomBotFacts.

Section LogOrder.

Variables a b : Entry -> bool.

Lemma precedes_nil : precedes a b [].
Proof. intros [ | ? ?] x post H; discriminate H. Qed.

(** A block in which [b] only occurs after [a] can be appended. *)
Lemma precedes_app l k :
  precedes a b l -> precedes a b k -> precedes a b (l ++ k).
Proof.
  intros Hl Hk pre x post Heq Hb.
  apply app_eq_app in Heq.
  destruct Heq as [m [[-> Hk'] | [-> Hk']]].
  - destruct m as [ | y m].
    + cbn in Hk'. symmetry in Hk'.
      specialize (Hk [] x post Hk' Hb). discriminate Hk.
    + injection Hk' as <- ->.
      apply (Hl pre x m); [ reflexivity | exact Hb ].
  - rewrite existsb_app. apply orb_true_iff. right.
    apply (Hk m x post); [ exact Hk' | exact Hb ].
Qed.

Lemma precedes_without l :
  existsb b l = false -> precedes a b l.
Proof.
  intros Hno pre x post -> Hb.
  rewrite existsb_app in Hno. cbn in Hno. rewrite Hb in Hno.
  rewrite orb_true_r in Hno. discriminate Hno.
Qed.

(** Behind an entry that satisfies [a] anything may follow. *)
Lemma precedes_head e l :
  a e = true -> b e = false -> precedes a b (e :: l).
Proof.
  intros Ha Hbe pre x post Heq Hb. destruct pre as [ | y pre].
  - injection Heq as <- _. congruence.
  - injection Heq as <- _. cbn. rewrite Ha. reflexivity.
Qed.

End LogOrder.

Section YouTubeLiveStreamerFacts.
Import YouTubeLiveStreamer.

Lemma run_snoc inputs i s : run (inputs ++ [i]) s = step i (run inputs s).
Proof. unfold run. rewrite fold_left_app. reflexivity. Qed.

(** Every handler only appends to the log. *)
Lemma step_log i s : exists block, log (step i s) = log s ++ block.
Proof.
  destruct i as [ | status | ]; cbn.
  - unfold onStopTimeout. destruct (timers s).
    + exists []. symmetry. apply app_nil_r.
    + destruct (child s) as [proc | ]; [ destruct (killed proc) | ];
        cbn; eexists; reflexivity.
  - unfold onExit. destruct (child s) as [proc | ].
    + destruct (exitStatus proc); cbn;
        [ exists []; symmetry; apply app_nil_r | eexists; reflexivity ].
    + exists []. symmetry. apply app_nil_r.
  - cbn. eexists. reflexivity.
Qed.

(** A SIGTERM is only sent by the callback of the 15 s timer, and a
    promise of [stop] is only resolved by the 'exit' listener. *)
Lemma step_order i s :
  exists block,
    log (step i s) = log s ++ block /\
    precedes (isFired 15000) (isSent SIGTERM) block /\
    precedes isExited (isResolved Stop) block.
Proof.
  destruct i as [ | status | ]; cbn.
  - unfold onStopTimeout. destruct (timers s).
    + exists []. split; [ symmetry; apply app_nil_r | ].
      split; apply precedes_nil.
    + destruct (child s) as [proc | ]; [ destruct (killed proc) | ];
        cbn; eexists; (split; [ reflexivity | ]);
        split;
        first [ apply precedes_head; reflexivity
              | apply precedes_without; reflexivity ].
  - unfold onExit. destruct (child s) as [proc | ].
    + destruct (exitStatus proc); cbn.
      * exists []. split; [ symmetry; apply app_nil_r | ].
        split; apply precedes_nil.
      * eexists. split; [ reflexivity | ].
        split; [ | apply precedes_head; reflexivity ].
        apply precedes_without. cbn.
        induction (exitListeners s); [ reflexivity | exact IHn ].
    + exists []. split; [ symmetry; apply app_nil_r | ].
      split; apply precedes_nil.
  - cbn. eexists. split; [ reflexivity | ].
    split; apply precedes_without; cbn;
      induction (drainListeners s); [ reflexivity | exact IHn
                                    | reflexivity | exact IHn ].
Qed.

Lemma run_order inputs s :
  exists tail,
    log (run inputs s) = log s ++ tail /\
    precedes (isFired 15000) (isSent SIGTERM) tail /\
    precedes isExited (isResolved Stop) tail.
Proof.
  induction inputs as [ | i inputs IH] using rev_ind.
  - exists []. split; [ symmetry; apply app_nil_r | ].
    split; apply precedes_nil.
  - rewrite run_snoc. destruct IH as (tail & Hlog & H1 & H2).
    destruct (step_order i (run inputs s)) as (block & Hb & B1 & B2).
    exists (tail ++ block). rewrite Hb, Hlog, app_assoc.
    split; [ reflexivity | ]. split; apply precedes_app; assumption.
Qed.

Lemma step_awaitingExit i s :
  awaitingExit s ->
  match i with
  | ProcessExited _ =>
      attached (step i s) = false /\
      exists block, log (step i s) = log s ++ block /\
                    existsb (isResolved Stop) block = true
  | _ => awaitingExit (step i s)
  end.
Proof.
  intros (Hatt & Hl & proc & Hc & Hrun).
  destruct i as [ | status | ]; cbn.
  - unfold onStopTimeout, awaitingExit.
    destruct (timers s); [ eauto 6 | ].
    rewrite Hc. destruct (killed proc); cbn.
    + eauto 6.
    + repeat split; auto. eexists. split; [ reflexivity | ].
      unfold kill. rewrite Hrun. reflexivity.
  - unfold onExit. rewrite Hc, Hrun. split; [ reflexivity | ]. cbn.
    eexists. split; [ reflexivity | ]. cbn.
    destruct (exitListeners s); [ lia | reflexivity ].
  - unfold awaitingExit. cbn. eauto 6.
Qed.

(** Nothing but [start] makes [this.process] refer to a child again. *)
Lemma step_detached i s : attached s = false -> attached (step i s) = false.
Proof.
  intros Hatt. destruct i as [ | status | ]; cbn.
  - unfold onStopTimeout. destruct (timers s); [ exact Hatt | ].
    destruct (child s) as [proc | ]; [ destruct (killed proc) | ];
      exact Hatt.
  - unfold onExit. destruct (child s) as [proc | ]; [ | exact Hatt ].
    destruct (exitStatus proc); [ exact Hatt | reflexivity ].
  - exact Hatt.
Qed.

Lemma run_detached inputs s :
  attached s = false -> attached (run inputs s) = false.
Proof.
  revert s. induction inputs as [ | i inputs IH]; intros s Hs;
    [ exact Hs | ].
  cbn. apply IH. apply step_detached. exact Hs.
Qed.

Lemma run_until_exit inputs s status :
  awaitingExit s -> In (ProcessExited status) inputs ->
  attached (run inputs s) = false /\
  exists tail, log (run inputs s) = log s ++ tail /\
               existsb (isResolved Stop) tail = true.
Proof.
  revert s. induction inputs as [ | i inputs IH]; intros s Hs Hin.
  - destruct Hin.
  - change (run (i :: inputs) s) with (run inputs (step i s)).
    pose proof (step_awaitingExit i s Hs) as Hstep.
    destruct (step_log i s) as [block Hblock].
    assert (Hgo : awaitingExit (step i s) ->
                  In (ProcessExited status) inputs ->
                  attached (run inputs (step i s)) = false /\
                  exists tail, log (run inputs (step i s)) = log s ++ tail /\
                               existsb (isResolved Stop) tail = true).
    { intros Haw Hin'. destruct (IH _ Haw Hin') as (Hd & tail & Hlog & Hres).
      split; [ exact Hd | ]. exists (block ++ tail).
      rewrite Hlog, Hblock, app_assoc. split; [ reflexivity | ].
      rewrite existsb_app, Hres. apply orb_true_r. }
    destruct i as [ | status' | ].
    + destruct Hin as [Heq | Hin]; [ discriminate Heq | auto ].
    + clear Hgo Hblock block.
      destruct Hstep as (Hd & block & Hblock & Hres).
      split; [ apply run_detached; exact Hd | ].
      destruct (run_order inputs (step (ProcessExited status') s))
        as (tail & Hlog & _).
      exists (block ++ tail). rewrite Hlog, Hblock, app_assoc.
      split; [ reflexivity | ].
      rewrite existsb_app, Hres. reflexivity.
    + destruct Hin as [Heq | Hin]; [ discriminate Heq | auto ].
Qed.

(** Without a child attached, nothing that happens attaches one. *)
Lemma step_no_process i s : process s = None -> process (step i s) = None.
Proof.
  intros H. destruct (attached s) eqn:Hatt;
    [ | unfold process; rewrite (step_detached i s Hatt); reflexivity ].
  assert (Hc : child s = None).
  { unfold process in H. rewrite Hatt in H. exact H. }
  destruct i as [ | status | ]; cbn.
  - unfold onStopTimeout. destruct (timers s); [ exact H | ].
    rewrite Hc. unfold process. cbn. rewrite Hatt. reflexivity.
  - unfold onExit. rewrite Hc. exact H.
  - unfold process. cbn. rewrite Hatt. exact Hc.
Qed.

Lemma run_no_process inputs s : process s = None -> process (run inputs s) = None.
Proof.
  revert s. induction inputs as [ | i inputs IH]; intros s Hs; [ exact Hs | ].
  cbn. apply IH. apply step_no_process. exact Hs.
Qed.

(** [stop] on a running child leaves its 'exit' listener behind. *)
Lemma stop_awaitingExit s proc :
  process s = Some proc -> exitStatus proc = None ->
  awaitingExit (snd (stop s)).
Proof.
  intros Hp Hrun.
  assert (Hatt : attached s = true).
  { unfold process in Hp. destruct (attached s); [ auto | discriminate ]. }
  unfold stop, awaitingExit. rewrite Hp.
  destruct (stdin proc) as [w | ]; [ destruct (faulty w) | ]; cbn;
    (split; [ exact Hatt | ]); (split; [ lia | ]);
    eexists; (split; [ reflexivity | ]);
    first [ exact Hrun | unfold kill; rewrite Hrun; reflexivity ].
Qed.

(** With one timer armed, the callback of the timer runs at most
    once. *)
Lemma step_fired_once i s :
  exists block,
    log (step i s) = log s ++ block /\
    (timers (step i s) + List.length (filter (isFired 15000) block)
     <= timers s)%nat.
Proof.
  destruct i as [ | status | ]; cbn.
  - unfold onStopTimeout. destruct (timers s) eqn:Ht.
    + exists []. split; [ symmetry; apply app_nil_r | cbn; lia ].
    + destruct (child s) as [proc | ]; [ destruct (killed proc) | ];
        cbn; eexists; (split; [ reflexivity | cbn; lia ]).
  - unfold onExit. destruct (child s) as [proc | ].
    + destruct (exitStatus proc); cbn.
      * exists []. split; [ symmetry; apply app_nil_r | cbn; lia ].
      * eexists. split; [ reflexivity | ]. cbn.
        replace (filter (isFired 15000)
                   (List.concat (repeat [Cleared; Resolved Stop]
                                        (exitListeners s))))
          with (@nil Entry); [ cbn; lia | ].
        induction (exitListeners s); [ reflexivity | exact IHn ].
    + exists []. split; [ symmetry; apply app_nil_r | cbn; lia ].
  - cbn. eexists. split; [ reflexivity | ]. cbn.
    replace (filter (isFired 15000)
               (repeat (Resolved WriteChunk) (drainListeners s)))
      with (@nil Entry); [ cbn; lia | ].
    induction (drainListeners s); [ reflexivity | exact IHn ].
Qed.

Lemma run_fired_once inputs s :
  exists tail,
    log (run inputs s) = log s ++ tail /\
    (timers (run inputs s) + List.length (filter (isFired 15000) tail)
     <= timers s)%nat.
Proof.
  induction inputs as [ | i inputs IH] using rev_ind.
  - exists []. split; [ symmetry; apply app_nil_r | cbn; lia ].
  - rewrite run_snoc. destruct IH as (tail & Hlog & Hc).
    destruct (step_fired_once i (run inputs s)) as (block & Hb & Hcb).
    exists (tail ++ block). rewrite Hb, Hlog, app_assoc.
    split; [ reflexivity | ].
    rewrite filter_app, length_app. lia.
Qed.

(** C8: [writeChunk] throws when the live process is not running (no
    process, or no stdin).  Otherwise the chunk is written; the promise
    is fulfilled at once when [write] returns [true], and when it
    returns [false] the promise stays pending with a 'drain' listener,
    which no other event removes and which the 'drain' event runs,
    resolving the promise. *)
Theorem writeChunk_backpressure (chunk : string) (s : State) :
  (process s = None \/
   (exists proc, process s = Some proc /\ stdin proc = None) ->
   writeChunk chunk s = (Rejected notRunning, s)) /\
  (forall proc w,
      process s = Some proc -> stdin proc = Some w -> faulty w = false ->
      let s' := snd (writeChunk chunk s) in
      log s' = log s ++ [Wrote chunk] /\
      (accepting w = true ->
       fst (writeChunk chunk s) = Fulfilled /\
       drainListeners s' = drainListeners s) /\
      (accepting w = false ->
       fst (writeChunk chunk s) = Pending /\
       drainListeners s' = S (drainListeners s) /\
       drainListeners (step TimerElapsed s') = drainListeners s' /\
       (forall status,
           drainListeners (step (ProcessExited status) s') = drainListeners s') /\
       drainListeners (step StdinDrained s') = 0%nat /\
       log (step StdinDrained s') =
       log s' ++ Drained :: repeat (Resolved WriteChunk) (S (drainListeners s)))).
Proof.
  split.
  - intros [Hnone | (proc & Hp & Hin)]; unfold writeChunk.
    + rewrite Hnone. reflexivity.
    + rewrite Hp, Hin. reflexivity.
  - intros proc w Hp Hin Hok. unfold writeChunk.
    rewrite Hp, Hin, Hok. destruct (accepting w); cbn.
    + split; [ reflexivity | ]. split; [ auto | discriminate ].
    + split; [ reflexivity | ]. split; [ discriminate | ].
      intros _. repeat split.
      * unfold onStopTimeout. cbn. destruct (timers s); [ reflexivity | ].
        destruct (killed proc); reflexivity.
      * intros status. unfold onExit. cbn.
        destruct (exitStatus proc); reflexivity.
Qed.

(** The 'drain' events of stdin leave the child and the timers alone. *)
Lemma run_drains drains s :
  Forall (fun i => i = StdinDrained) drains ->
  child (run drains s) = child s /\ timers (run drains s) = timers s.
Proof.
  intros Hd. revert s. induction Hd as [ | i drains -> _ IH]; intros s.
  - split; reflexivity.
  - change (run (StdinDrained :: drains) s) with (run drains (onDrain s)).
    destruct (IH (onDrain s)) as [Hc Ht]. rewrite Hc, Ht.
    split; reflexivity.
Qed.

(** Once the child has exited and no timer is armed, no signal is sent
    any more. *)
Lemma step_after_exit i s proc status :
  child s = Some proc -> exitStatus proc = Some status ->
  timers s = 0%nat ->
  child (step i s) = Some proc /\ timers (step i s) = 0%nat.
Proof.
  intros Hc He Ht. destruct i as [ | status' | ]; cbn.
  - unfold onStopTimeout. rewrite Ht. auto.
  - unfold onExit. rewrite Hc, He. auto.
  - auto.
Qed.

Lemma run_after_exit inputs s proc status :
  child s = Some proc -> exitStatus proc = Some status ->
  timers s = 0%nat ->
  child (run inputs s) = Some proc.
Proof.
  revert s. induction inputs as [ | i inputs IH]; intros s Hc He Ht;
    [ exact Hc | ].
  change (run (i :: inputs) s) with (run inputs (step i s)).
  destruct (step_after_exit i s proc status Hc He Ht) as [Hc' Ht'].
  apply IH; assumption.
Qed.

(** C7: [stop] on the sink that streams: the child runs, [stop] has not
    been called before, and stdin is a pipe that is open and whose
    [write] does not throw, as that of a pipe does not.  [stop] first
    writes ['q\n'] to stdin, then ends stdin, then arms the timer of
    15 s, and sends no signal itself; the promise it returns is pending.
    When the timer runs before the child has exited, its callback sends
    SIGTERM to the child; when the child exits first, no signal is sent
    at all.  And whatever happens after the call: a SIGTERM is sent only
    by the callback of the timer, which runs at most once, and the
    promise is resolved only by the 'exit' listener, and is resolved
    once the child has exited. *)
Theorem stop_quit_grace_sigterm s proc w :
  process s = Some proc ->
  stdin proc = Some w ->
  faulty w = false ->
  ended w = false ->
  exitStatus proc = None ->
  killed proc = false ->
  timers s = 0%nat ->
  fst (stop s) = Pending /\
  log (snd (stop s)) = log s ++ [Wrote quitSignal; Ended; Armed 15000] /\
  (exists w',
      child (snd (stop s)) = Some (withStdin w' proc) /\
      written w' = written w ++ [quitSignal] /\ ended w' = true) /\
  (forall drains,
      Forall (fun i => i = StdinDrained) drains ->
      log (run (drains ++ [TimerElapsed]) (snd (stop s))) =
      log (run drains (snd (stop s))) ++
      [Fired 15000; Warned "ffmpeg live did not exit, sending SIGTERM";
       Sent SIGTERM] /\
      exists proc',
        child (run (drains ++ [TimerElapsed]) (snd (stop s))) = Some proc' /\
        signals proc' = signals proc ++ [SIGTERM]) /\
  (forall drains status after,
      Forall (fun i => i = StdinDrained) drains ->
      exists proc',
        child (run (drains ++ ProcessExited status :: after) (snd (stop s)))
        = Some proc' /\
        signals proc' = signals proc) /\
  (forall inputs,
      exists tail,
        log (run inputs (snd (stop s))) = log (snd (stop s)) ++ tail /\
        precedes (isFired 15000) (isSent SIGTERM) tail /\
        (List.length (filter (isFired 15000) tail) <= 1)%nat /\
        precedes isExited (isResolved Stop) tail /\
        (forall status,
            In (ProcessExited status) inputs ->
            existsb (isResolved Stop) tail = true)).
Proof.
  intros Hp Hin Hok Hopen Hrun Hk Ht.
  assert (Hatt : attached s = true /\ child s = Some proc).
  { unfold process in Hp. destruct (attached s); [ auto | discriminate ]. }
  destruct Hatt as [Hatt Hc].
  pose proof (stop_awaitingExit s proc Hp Hrun) as Haw.
  assert (Hs1 : stop s =
                (Pending,
                 mkState (Some (withStdin (end_ (write quitSignal w)) proc))
                         true 1 (S (exitListeners s)) (drainListeners s)
                         (log s ++ [Wrote quitSignal; Ended; Armed 15000]))).
  { unfold stop. rewrite Hp, Hin, Hok, Hatt, Ht. reflexivity. }
  rewrite Hs1 in *. cbn [fst snd] in *.
  set (s1 := mkState (Some (withStdin (end_ (write quitSignal w)) proc))
                     true 1 (S (exitListeners s)) (drainListeners s)
                     (log s ++ [Wrote quitSignal; Ended; Armed 15000])) in *.
  split; [ reflexivity | ]. split; [ reflexivity | ].
  split.
  { eexists. split; [ reflexivity | ].
    unfold write. rewrite Hopen. split; reflexivity. }
  split; [ | split ].
  - intros drains Hd. rewrite run_snoc.
    destruct (run_drains drains s1 Hd) as [Hcd Htd].
    cbn [step]. unfold onStopTimeout. rewrite Htd, Hcd. cbn.
    rewrite Hk. cbn. split; [ reflexivity | ].
    eexists. split; [ reflexivity | ].
    unfold kill. cbn. rewrite Hrun. reflexivity.
  - intros drains status after Hd.
    assert (Hsplit : run (drains ++ ProcessExited status :: after) s1 =
                     run after (onExit status (run drains s1))).
    { unfold run. rewrite fold_left_app. reflexivity. }
    rewrite Hsplit.
    destruct (run_drains drains s1 Hd) as [Hcd Htd].
    exists (exited status (withStdin (end_ (write quitSignal w)) proc)).
    split; [ | reflexivity ].
    apply (run_after_exit after _ _ status).
    + unfold onExit. rewrite Hcd. cbn. rewrite Hrun. reflexivity.
    + reflexivity.
    + unfold onExit. rewrite Hcd. cbn. rewrite Hrun. reflexivity.
  - intros inputs.
    destruct (run_order inputs s1) as (tail & Hlog & Ho1 & Ho2).
    destruct (run_fired_once inputs s1) as (tail' & Hlog' & Hcount).
    assert (tail' = tail) as ->.
    { rewrite Hlog in Hlog'. apply app_inv_head in Hlog'. congruence. }
    exists tail. split; [ exact Hlog | ].
    split; [ exact Ho1 | ]. split; [ cbn in Hcount; lia | ].
    split; [ exact Ho2 | ].
    intros status Hexit.
    destruct (run_until_exit inputs s1 status Haw Hexit)
      as (_ & tail2 & Hlog2 & Hres).
    rewrite Hlog in Hlog2. apply app_inv_head in Hlog2. subst tail2.
    exact Hres.
Qed.

End YouTubeLiveStreamerFacts.

Section FFmpegRecorderFacts.
Import FFmpegRecorder.

Lemma update_unresolved i f l :
  (forall c, resolved (f c) = resolved c) ->
  existsb unresolved (update i f l) = existsb unresolved l.
Proof.
  intros Hf. revert i. induction l as [ | c l IH]; intros i.
  - destruct i; reflexivity.
  - destruct i as [ | i]; cbn.
    + unfold unresolved. rewrite Hf. reflexivity.
    + rewrite IH. reflexivity.
Qed.

(** The 'exit' listeners never make [this.ffmpegProcess] refer to the
    child again, and a listener whose call is not resolved clears it. *)
Lemma exitListeners_attached att entries l :
  (att = false \/ existsb unresolved l = true) ->
  fst (fst (exitListeners att entries l)) = false.
Proof.
  revert att entries. induction l as [ | c l IH]; intros att entries H.
  - destruct H as [H | H]; [ exact H | discriminate H ].
  - cbn. unfold unresolved in H. cbn in H.
    destruct (resolved c); cbn in H.
    + specialize (IH att entries H).
      destruct (exitListeners att entries l) as [[att' entries'] l''].
      exact IH.
    + match goal with
      | |- context [exitListeners false ?e l] =>
          specialize (IH false e (or_introl eq_refl));
          destruct (exitListeners false e l) as [[att' entries'] l'']
      end.
      exact IH.
Qed.

Lemma step_detached_recorder i s :
  attached s = false -> attached (step i s) = false.
Proof.
  intros Hatt. destruct i as [n | n | status]; cbn.
  - unfold onTimeout, ffmpegProcess. rewrite Hatt.
    destruct (nth_error (stops s) n) as [c | ]; [ | exact Hatt ].
    destruct (timeout c); first [ exact Hatt | reflexivity ].
  - unfold onLastResort, ffmpegProcess. rewrite Hatt.
    destruct (nth_error (stops s) n) as [c | ]; [ | exact Hatt ].
    destruct (lastResort c); first [ exact Hatt | reflexivity ].
  - unfold onExit. destruct (child s) as [proc | ]; [ | exact Hatt ].
    destruct (exitStatus proc); [ exact Hatt | ].
    pose proof (exitListeners_attached (attached s)
                  (log s ++ [Exited status]) (stops s) (or_introl Hatt)) as H.
    destruct (exitListeners (attached s) (log s ++ [Exited status]) (stops s))
      as [[att' entries'] l'']. exact H.
Qed.

Lemma run_detached_recorder inputs s :
  attached s = false -> attached (run inputs s) = false.
Proof.
  revert s. induction inputs as [ | i inputs IH]; intros s Hs;
    [ exact Hs | ].
  cbn. apply IH. apply step_detached_recorder. exact Hs.
Qed.

Lemma step_stopping i s :
  stopping s ->
  match i with
  | ProcessExited _ => attached (step i s) = false
  | _ => stopping (step i s)
  end.
Proof.
  intros (Hatt & (proc & Hc & Hrun) & Hun).
  assert (Hkill : forall sig, exitStatus (kill sig proc) = None).
  { intros sig. unfold kill. rewrite Hrun. reflexivity. }
  destruct i as [n | n | status]; cbn.
  - unfold onTimeout, ffmpegProcess, stopping. rewrite Hatt, Hc.
    destruct (nth_error (stops s) n) as [c | ]; [ | eauto 6 ].
    destruct (timeout c); [ | eauto 6 ].
    destruct (negb (killed proc) && negb (resolved c)); cbn;
      rewrite update_unresolved by reflexivity; eauto 6.
  - unfold onLastResort, ffmpegProcess, stopping. rewrite Hatt, Hc.
    destruct (nth_error (stops s) n) as [c | ]; [ | eauto 6 ].
    destruct (lastResort c); [ | eauto 6 ].
    destruct (negb (killed proc) && negb (resolved c)); cbn;
      rewrite update_unresolved by reflexivity; eauto 6.
  - unfold onExit. rewrite Hc, Hrun.
    pose proof (exitListeners_attached (attached s)
                  (log s ++ [Exited status]) (stops s) (or_intror Hun)) as H.
    destruct (exitListeners (attached s) (log s ++ [Exited status]) (stops s))
      as [[att' entries'] l'']. exact H.
Qed.

Lemma run_until_exit_recorder inputs s status :
  stopping s -> In (ProcessExited status) inputs ->
  attached (run inputs s) = false.
Proof.
  revert s. induction inputs as [ | i inputs IH]; intros s Hs Hin.
  - destruct Hin.
  - change (run (i :: inputs) s) with (run inputs (step i s)).
    pose proof (step_stopping i s Hs) as Hstep.
    destruct i as [n | n | status'].
    + destruct Hin as [Heq | Hin]; [ discriminate Heq | auto ].
    + destruct Hin as [Heq | Hin]; [ discriminate Heq | auto ].
    + apply run_detached_recorder. exact Hstep.
Qed.

(** Without a child attached, nothing that happens attaches one. *)
Lemma step_no_ffmpegProcess i s :
  ffmpegProcess s = None -> ffmpegProcess (step i s) = None.
Proof.
  intros H. destruct (attached s) eqn:Hatt.
  - assert (Hc : child s = None).
    { unfold ffmpegProcess in H. rewrite Hatt in H. exact H. }
    destruct i as [n | n | status]; cbn.
    + unfold onTimeout. rewrite H.
      destruct (nth_error (stops s) n) as [c | ]; [ | exact H ].
      destruct (timeout c); [ | exact H ].
      unfold ffmpegProcess. cbn. rewrite Hatt. exact Hc.
    + unfold onLastResort. rewrite H.
      destruct (nth_error (stops s) n) as [c | ]; [ | exact H ].
      destruct (lastResort c); [ | exact H ].
      unfold ffmpegProcess. cbn. rewrite Hatt. exact Hc.
    + unfold onExit. rewrite Hc. exact H.
  - unfold ffmpegProcess. rewrite (step_detached_recorder i s Hatt). reflexivity.
Qed.

Lemma run_no_ffmpegProcess inputs s :
  ffmpegProcess s = None -> ffmpegProcess (run inputs s) = None.
Proof.
  revert s. induction inputs as [ | i inputs IH]; intros s Hs; [ exact Hs | ].
  cbn. apply IH. apply step_no_ffmpegProcess. exact Hs.
Qed.

(** A [stop] that is fulfilled at once leaves no child attached. *)
Lemma stop_fulfilled s :
  fst (stop s) = Fulfilled -> ffmpegProcess (snd (stop s)) = None.
Proof.
  unfold stop. destruct (ffmpegProcess s) as [proc | ] eqn:Hp.
  - destruct (stdin proc) as [w | ]; [ destruct (faulty w) | ];
      match goal with
      | |- context [if ?b then _ else _] => destruct b
      end; cbn; intros H; first [ reflexivity | discriminate H ].
  - intros _. exact Hp.
Qed.

(** [stop] on a running child either resolves at once, leaving
    [this.ffmpegProcess] cleared, or leaves a pending stop call. *)
Lemma stop_running s proc :
  ffmpegProcess s = Some proc -> exitStatus proc = None ->
  attached (snd (stop s)) = false \/ stopping (snd (stop s)).
Proof.
  intros Hp Hrun.
  assert (Hatt : attached s = true).
  { unfold ffmpegProcess in Hp. destruct (attached s); [ auto | discriminate ]. }
  unfold stop. rewrite Hp.
  destruct (stdin proc) as [w | ]; [ destruct (faulty w) | ]; cbn.
  - unfold kill. rewrite Hrun. cbn. left. reflexivity.
  - unfold exitCode. cbn. rewrite Hrun.
    destruct (killed proc); cbn; [ left; reflexivity | right ].
    unfold stopping. cbn. rewrite existsb_app. cbn.
    rewrite orb_true_r. eauto 6.
  - unfold exitCode. rewrite Hrun.
    destruct (killed proc); cbn; [ left; reflexivity | right ].
    unfold stopping. cbn. rewrite existsb_app. cbn.
    rewrite orb_true_r. eauto 6.
Qed.

End FFmpegRecorderFacts.

Section StopIsIdempotent.

(** Where stopping a sink twice is harmless.  With no child attached
    ([this.process], [this.ffmpegProcess] is [null]) [stop] is fulfilled
    at once and leaves the sink as it is: nothing is written, no signal
    is sent, no timer is armed (the recorder only logs a warning).  And
    once an earlier [stop] has resolved, at once or when the child it
    stopped has exited, no child is attached any more, whatever happened
    in between, so that a further [stop] is that no-op. *)
Theorem stop_idempotent :
  (forall s,
      YouTubeLiveStreamer.process s = None ->
      YouTubeLiveStreamer.stop s = (Fulfilled, s)) /\
  (forall s inputs,
      fst (YouTubeLiveStreamer.stop s) = Fulfilled \/
      (exists proc status,
          YouTubeLiveStreamer.process s = Some proc /\
          exitStatus proc = None /\
          In (YouTubeLiveStreamer.ProcessExited status) inputs) ->
      let s' := YouTubeLiveStreamer.run inputs
                  (snd (YouTubeLiveStreamer.stop s)) in
      YouTubeLiveStreamer.process s' = None /\
      YouTubeLiveStreamer.stop s' = (Fulfilled, s')) /\
  (forall s,
      FFmpegRecorder.ffmpegProcess s = None ->
      FFmpegRecorder.stop s =
      (Fulfilled,
       FFmpegRecorder.mkState
         (FFmpegRecorder.child s) (FFmpegRecorder.attached s)
         (FFmpegRecorder.stops s)
         (FFmpegRecorder.log s ++ [Warned "No ffmpeg process to stop"]))) /\
  (forall s inputs,
      fst (FFmpegRecorder.stop s) = Fulfilled \/
      (exists proc status,
          FFmpegRecorder.ffmpegProcess s = Some proc /\
          exitStatus proc = None /\
          In (FFmpegRecorder.ProcessExited status) inputs) ->
      let s' := FFmpegRecorder.run inputs (snd (FFmpegRecorder.stop s)) in
      FFmpegRecorder.ffmpegProcess s' = None /\
      FFmpegRecorder.stop s' =
      (Fulfilled,
       FFmpegRecorder.mkState
         (FFmpegRecorder.child s') (FFmpegRecorder.attached s')
         (FFmpegRecorder.stops s')
         (FFmpegRecorder.log s' ++ [Warned "No ffmpeg process to stop"]))).
Proof.
  assert (Y1 : forall s,
             YouTubeLiveStreamer.process s = None ->
             YouTubeLiveStreamer.stop s = (Fulfilled, s)).
  { intros s H. unfold YouTubeLiveStreamer.stop. rewrite H. reflexivity. }
  assert (F1 : forall s,
             FFmpegRecorder.ffmpegProcess s = None ->
             FFmpegRecorder.stop s =
             (Fulfilled,
              FFmpegRecorder.mkState
                (FFmpegRecorder.child s) (FFmpegRecorder.attached s)
                (FFmpegRecorder.stops s)
                (FFmpegRecorder.log s ++ [Warned "No ffmpeg process to stop"]))).
  { intros s H. unfold FFmpegRecorder.stop. rewrite H. reflexivity. }
  split; [ exact Y1 | ]. split; [ | split; [ exact F1 | ] ].
  - intros s inputs Hprior s'.
    assert (Hnone : YouTubeLiveStreamer.process s' = None).
    { subst s'. destruct Hprior as [Hful | (proc & status & Hp & Hrun & Hexit)].
      - apply run_no_process.
        destruct (YouTubeLiveStreamer.process s) as [proc | ] eqn:Hp.
        + unfold YouTubeLiveStreamer.stop in Hful. rewrite Hp in Hful.
          destruct (stdin proc) as [w | ]; [ destruct (faulty w) | ];
            discriminate Hful.
        + rewrite (Y1 s Hp). exact Hp.
      - pose proof (stop_awaitingExit s proc Hp Hrun) as Haw.
        destruct (run_until_exit inputs _ status Haw Hexit) as [Hd _].
        unfold YouTubeLiveStreamer.process. rewrite Hd. reflexivity. }
    split; [ exact Hnone | apply Y1; exact Hnone ].
  - intros s inputs Hprior s'.
    assert (Hnone : FFmpegRecorder.ffmpegProcess s' = None).
    { subst s'. destruct Hprior as [Hful | (proc & status & Hp & Hrun & Hexit)].
      - apply run_no_ffmpegProcess. apply stop_fulfilled. exact Hful.
      - unfold FFmpegRecorder.ffmpegProcess.
        destruct (stop_running s proc Hp Hrun) as [Hd | Hst].
        + rewrite (run_detached_recorder inputs _ Hd). reflexivity.
        + rewrite (run_until_exit_recorder inputs _ status Hst Hexit).
          reflexivity. }
    split; [ exact Hnone | apply F1; exact Hnone ].
Qed.

End StopIsIdempotent.

Section StopAfterSignalDeath.
Import FFmpegRecorder.

Lemma stop_orphaned sig sigs s :
  orphaned sig sigs s ->
  fst (stop s) = Pending /\ orphaned sig sigs (snd (stop s)) /\
  exists block,
    log (snd (stop s)) = log s ++ block /\
    existsb (isResolved Stop) block = false.
Proof.
  intros (Hatt & proc & Hc & He & Hk & Hs).
  unfold stop, ffmpegProcess, orphaned. rewrite Hatt, Hc.
  destruct (stdin proc) as [w | ]; [ destruct (faulty w) | ];
    unfold kill, exitCode; cbn; rewrite ?He, ?Hk; cbn; rewrite ?He;
    (split; [ reflexivity | ]);
    (split; [ split; [ first [ exact Hatt | reflexivity ] | ]; eexists;
              split; [ reflexivity | ]; cbn; auto | ]);
    eexists; (split; [ reflexivity | reflexivity ]).
Qed.

Lemma step_orphaned sig sigs i s :
  orphaned sig sigs s ->
  orphaned sig sigs (step i s) /\
  exists block,
    log (step i s) = log s ++ block /\
    existsb (isResolved Stop) block = false.
Proof.
  intros (Hatt & proc & Hc & He & Hk & Hs).
  assert (Hnone : orphaned sig sigs s /\
                  exists block, log s = log s ++ block /\
                                existsb (isResolved Stop) block = false).
  { split; [ unfold orphaned; eauto 10 | ].
    exists []. rewrite app_nil_r. auto. }
  destruct i as [n | n | status]; cbn.
  - unfold onTimeout, ffmpegProcess. rewrite Hatt, Hc, Hk.
    destruct (nth_error (stops s) n) as [c | ]; [ | exact Hnone ].
    destruct (timeout c); [ | exact Hnone ].
    destruct (resolved c); cbn;
      (split; [ unfold orphaned; cbn; rewrite ?Hatt;
                split; [ reflexivity | ];
                exists proc; unfold kill; rewrite ?He; auto | ]);
      eexists; (split; [ reflexivity | reflexivity ]).
  - unfold onLastResort, ffmpegProcess. rewrite Hatt, Hc, Hk.
    destruct (nth_error (stops s) n) as [c | ]; [ | exact Hnone ].
    destruct (lastResort c); [ | exact Hnone ].
    destruct (resolved c); cbn;
      (split; [ unfold orphaned; cbn; rewrite ?Hatt;
                split; [ reflexivity | ];
                exists proc; unfold kill; rewrite ?He; auto | ]);
      eexists; (split; [ reflexivity | reflexivity ]).
  - unfold onExit. rewrite Hc, He. exact Hnone.
Qed.

Lemma run_orphaned sig sigs inputs s :
  orphaned sig sigs s ->
  orphaned sig sigs (run inputs s) /\
  exists tail,
    log (run inputs s) = log s ++ tail /\
    existsb (isResolved Stop) tail = false.
Proof.
  revert s. induction inputs as [ | i inputs IH]; intros s Hs.
  - split; [ exact Hs | ]. exists []. rewrite app_nil_r. auto.
  - change (run (i :: inputs) s) with (run inputs (step i s)).
    destruct (@step_orphaned sig sigs i s Hs) as (Hs' & block & Hb & Hnb).
    destruct (IH _ Hs') as (Hs'' & tail & Ht & Hnt).
    split; [ exact Hs'' | ].
    exists (block ++ tail). rewrite Ht, Hb, app_assoc.
    split; [ reflexivity | ].
    rewrite existsb_app, Hnb, Hnt. reflexivity.
Qed.

(** C6: where the durable recorder is not idempotent.  When ffmpeg has
    been ended by a signal from outside ([exitCode] is [null] and
    [killed] is [false]), the 'exit' listener of [start] has left
    [this.ffmpegProcess] as it is.  A [stop] then goes past its guard
    and past the check under "If already exited", and the promise it
    returns is pending.  Whatever timers fire afterwards, that promise
    is never resolved, no signal reaches the child, and
    [this.ffmpegProcess] stays set, so that a further [stop] is pending
    again. *)
Theorem stop_after_signal_death_never_resolves s proc sig inputs :
  ffmpegProcess s = Some proc ->
  exitStatus proc = Some (ExitSignal sig) ->
  killed proc = false ->
  fst (stop s) = Pending /\
  (exists tail,
      log (run inputs (snd (stop s))) = log s ++ tail /\
      existsb (isResolved Stop) tail = false) /\
  (exists proc',
      ffmpegProcess (run inputs (snd (stop s))) = Some proc' /\
      exitStatus proc' = Some (ExitSignal sig) /\
      signals proc' = signals proc) /\
  fst (stop (run inputs (snd (stop s)))) = Pending.
Proof.
  intros Hp He Hk.
  assert (Hs : orphaned sig (signals proc) s).
  { unfold ffmpegProcess in Hp. unfold orphaned.
    destruct (attached s); [ | discriminate Hp ].
    split; [ reflexivity | ]. exists proc. auto. }
  destruct (@stop_orphaned sig (signals proc) s Hs) as (Hpend & Hs1 & block & Hb & Hnb).
  destruct (@run_orphaned sig (signals proc) inputs _ Hs1) as (Hs2 & tail & Ht & Hnt).
  split; [ exact Hpend | ]. split; [ | split ].
  - exists (block ++ tail). rewrite Ht, Hb, app_assoc.
    split; [ reflexivity | ].
    rewrite existsb_app, Hnb, Hnt. reflexivity.
  - destruct Hs2 as (Hatt & proc' & Hc' & He' & Hk' & Hsig').
    exists proc'. unfold ffmpegProcess. rewrite Hatt. auto.
  - apply (@stop_orphaned sig (signals proc) _ Hs2).
Qed.

End StopAfterSignalDeath.


Section SinkExampleFacts.
Import SinkExamples.

(** A stop whose grace period runs out before the child exits. *)
Lemma stop_quit_grace_sigterm_witness :
  fst (YouTubeLiveStreamer.stop (streaming openPipe)) = Pending /\
  YouTubeLiveStreamer.log (snd (YouTubeLiveStreamer.stop (streaming openPipe)))
  = [Wrote quitSignal; Ended; Armed 15000] /\
  YouTubeLiveStreamer.log
    (YouTubeLiveStreamer.run [YouTubeLiveStreamer.TimerElapsed]
       (snd (YouTubeLiveStreamer.stop (streaming openPipe)))) =
  [Wrote quitSignal; Ended; Armed 15000;
   Fired 15000; Warned "ffmpeg live did not exit, sending SIGTERM";
   Sent SIGTERM].
Proof.
  destruct (stop_quit_grace_sigterm (streaming openPipe) (spawned openPipe)
              openPipe eq_refl eq_refl eq_refl eq_refl eq_refl eq_refl
              eq_refl)
    as (Hpending & Hlog & _ & Htimer & _).
  split; [ exact Hpending | ]. split; [ exact Hlog | ].
  exact (proj1 (Htimer [] (Forall_nil _))).
Defined.

(** The same run, spelled out. *)
Example stop_then_timeout_then_exit :
  YouTubeLiveStreamer.log
    (YouTubeLiveStreamer.run
       [YouTubeLiveStreamer.TimerElapsed;
        YouTubeLiveStreamer.ProcessExited (ExitSignal SIGTERM)]
       (snd (YouTubeLiveStreamer.stop (streaming openPipe)))) =
  [Wrote quitSignal; Ended; Armed 15000;
   Fired 15000; Warned "ffmpeg live did not exit, sending SIGTERM";
   Sent SIGTERM;
   Exited (ExitSignal SIGTERM); Cleared; Resolved Stop].
Proof. reflexivity. Qed.

Example stop_then_exit_in_time :
  YouTubeLiveStreamer.log
    (YouTubeLiveStreamer.run
       [YouTubeLiveStreamer.ProcessExited (ExitCode 0);
        YouTubeLiveStreamer.TimerElapsed]
       (snd (YouTubeLiveStreamer.stop (streaming openPipe)))) =
  [Wrote quitSignal; Ended; Armed 15000;
   Exited (ExitCode 0); Cleared; Resolved Stop].
Proof. reflexivity. Qed.

(** A write without a process, an accepted write, and a write that waits
    for 'drain'. *)
Lemma writeChunk_backpressure_witness :
  YouTubeLiveStreamer.writeChunk "chunk" neverStarted =
  (Rejected YouTubeLiveStreamer.notRunning, neverStarted) /\
  fst (YouTubeLiveStreamer.writeChunk "chunk" (streaming openPipe)) =
  Fulfilled /\
  fst (YouTubeLiveStreamer.writeChunk "chunk" (streaming fullPipe)) =
  Pending /\
  YouTubeLiveStreamer.log
    (YouTubeLiveStreamer.step YouTubeLiveStreamer.StdinDrained
       (snd (YouTubeLiveStreamer.writeChunk "chunk" (streaming fullPipe)))) =
  [Wrote "chunk"; Drained; Resolved WriteChunk].
Proof.
  split; [ | split; [ | split ] ].
  - apply (proj1 (writeChunk_backpressure "chunk" neverStarted)).
    left. reflexivity.
  - apply (proj2 (writeChunk_backpressure "chunk" (streaming openPipe))
             (spawned openPipe) openPipe); reflexivity.
  - apply (proj2 (writeChunk_backpressure "chunk" (streaming fullPipe))
             (spawned fullPipe) fullPipe); reflexivity.
  - apply (proj2 (writeChunk_backpressure "chunk" (streaming fullPipe))
             (spawned fullPipe) fullPipe); reflexivity.
Defined.

(** Both sinks: a stop before any start, and a second stop after the
    child has exited. *)
Lemma stop_idempotent_witness :
  YouTubeLiveStreamer.stop neverStarted = (Fulfilled, neverStarted) /\
  (let s' := YouTubeLiveStreamer.run
               [YouTubeLiveStreamer.ProcessExited (ExitCode 0)]
               (snd (YouTubeLiveStreamer.stop (streaming openPipe))) in
   YouTubeLiveStreamer.process s' = None /\
   YouTubeLiveStreamer.stop s' = (Fulfilled, s')) /\
  (let s' := FFmpegRecorder.run
               [FFmpegRecorder.ProcessExited (ExitCode 0)]
               (snd (FFmpegRecorder.stop (recording openPipe))) in
   FFmpegRecorder.ffmpegProcess s' = None /\
   FFmpegRecorder.stop s' =
   (Fulfilled,
    FFmpegRecorder.mkState
      (FFmpegRecorder.child s') (FFmpegRecorder.attached s')
      (FFmpegRecorder.stops s')
      (FFmpegRecorder.log s' ++ [Warned "No ffmpeg process to stop"]))).
Proof.
  destruct stop_idempotent as (Y1 & Y2 & F1 & F2).
  split; [ apply Y1; reflexivity | ]. split.
  - apply (Y2 (streaming openPipe)
              [YouTubeLiveStreamer.ProcessExited (ExitCode 0)]).
    right. exists (spawned openPipe), (ExitCode 0).
    split; [ reflexivity | ]. split; [ reflexivity | left; reflexivity ].
  - apply (F2 (recording openPipe)
              [FFmpegRecorder.ProcessExited (ExitCode 0)]).
    right. exists (spawned openPipe), (ExitCode 0).
    split; [ reflexivity | ]. split; [ reflexivity | left; reflexivity ].
Defined.

(** ffmpeg was ended by a signal from outside: [stop], its two timers
    and a second [stop]. *)
Lemma stop_after_signal_death_never_resolves_witness :
  fst (FFmpegRecorder.stop killedFromOutside) = Pending /\
  (exists tail,
      FFmpegRecorder.log
        (FFmpegRecorder.run
           [FFmpegRecorder.TimeoutElapsed 0; FFmpegRecorder.LastResortElapsed 0]
           (snd (FFmpegRecorder.stop killedFromOutside)))
      = FFmpegRecorder.log killedFromOutside ++ tail /\
      existsb (isResolved Stop) tail = false) /\
  (exists proc',
      FFmpegRecorder.ffmpegProcess
        (FFmpegRecorder.run
           [FFmpegRecorder.TimeoutElapsed 0; FFmpegRecorder.LastResortElapsed 0]
           (snd (FFmpegRecorder.stop killedFromOutside)))
      = Some proc' /\
      exitStatus proc' = Some (ExitSignal SIGKILL) /\
      signals proc' = signals (exited (ExitSignal SIGKILL) (spawned openPipe))) /\
  fst (FFmpegRecorder.stop
         (FFmpegRecorder.run
            [FFmpegRecorder.TimeoutElapsed 0; FFmpegRecorder.LastResortElapsed 0]
            (snd (FFmpegRecorder.stop killedFromOutside)))) = Pending.
Proof.
  apply (stop_after_signal_death_never_resolves killedFromOutside
           (exited (ExitSignal SIGKILL) (spawned openPipe)) SIGKILL
           [FFmpegRecorder.TimeoutElapsed 0;
            FFmpegRecorder.LastResortElapsed 0]);
    reflexivity.
Defined.

(** The same run, spelled out: the promise of [stop] is not resolved,
    and the two calls of [kill] find no child to signal. *)
Example stop_after_signal_death_log :
  let s := FFmpegRecorder.run
             [FFmpegRecorder.TimeoutElapsed 0;
              FFmpegRecorder.LastResortElapsed 0]
             (snd (FFmpegRecorder.stop killedFromOutside)) in
  FFmpegRecorder.log s =
  [Logged "Sending quit signal to ffmpeg..."; Wrote quitSignal; Ended;
   Logged "Quit signal sent successfully"; Armed 15000;
   Fired 15000; Warned "ffmpeg did not exit after 15s, sending SIGTERM";
   Sent SIGTERM; Armed 5000;
   Fired 5000; Logged "ffmpeg still not exited, sending SIGKILL";
   Sent SIGKILL] /\
  FFmpegRecorder.attached s = true /\
  option_map signals (FFmpegRecorder.child s) = Some [].
Proof. cbn. repeat split. Qed.

(** An exit with a code is seen by the check under "If already exited":
    the [stop] after it is fulfilled at once. *)
Example stop_after_exit_with_code :
  fst (FFmpegRecorder.stop
         (FFmpegRecorder.mkState
            (Some (exited (ExitCode 1) (spawned openPipe))) true [] []))
  = Fulfilled.
Proof. reflexivity. Qed.

(** After [stop] has ended stdin, a chunk written to the live-restream
    sink is not taken: [write] returns [false] and the promise waits for
    a 'drain' event. *)
Example writeChunk_after_stop :
  fst (YouTubeLiveStreamer.writeChunk "chunk"
         (snd (YouTubeLiveStreamer.stop (streaming openPipe)))) = Pending.
Proof. reflexivity. Qed.

(** The recorder's log over a stop, the exit of ffmpeg and a second
    stop. *)
Example recorder_stop_twice :
  FFmpegRecorder.log
    (snd (FFmpegRecorder.stop
            (FFmpegRecorder.run
               [FFmpegRecorder.ProcessExited (ExitCode 0)]
               (snd (FFmpegRecorder.stop (recording openPipe)))))) =
  [Logged "Sending quit signal to ffmpeg..."; Wrote quitSignal; Ended;
   Logged "Quit signal sent successfully"; Armed 15000;
   Exited (ExitCode 0);
   Cleared; Logged "ffmpeg process exited gracefully"; Resolved Stop;
   Warned "No ffmpeg process to stop"].
Proof. reflexivity. Qed.

End SinkExampleFacts.

(* --------------------------------------------------------------------- *)
(** ** The recorder inside the page *)
(* --------------------------------------------------------------------- *)

Section ChunkFacts.
Import RecordingTask.

Variable screenAppSendData : list Byte.byte -> Completion unit.

Lemma ondataavailable_sent data notes chunk :
  In (SendChunkToServer chunk) (ondataavailable screenAppSendData data notes) ->
  In (SendChunkToServer chunk) notes \/ (chunk = bytes data /\ 0 < size data).
Proof.
  unfold ondataavailable.
  destruct (Z.eqb_spec (size data) 0) as [Hz | Hnz].
  - rewrite in_app_iff. intros [H | [H | []]]; [ left; exact H | discriminate H ].
  - assert (Hpos : 0 < size data) by (unfold size in *; lia).
    destruct (readable data).
    + destruct (screenAppSendData (bytes data)) as [u | error];
        rewrite in_app_iff; cbn;
        intros [H | H]; try (left; exact H).
      * destruct H as [[= <-] | []]. right. split; [ reflexivity | exact Hpos ].
      * destruct H as [[= <-] | [H | []]];
          [ right; split; [ reflexivity | exact Hpos ] | discriminate H ].
    + rewrite in_app_iff. intros [H | [H | []]]; [ left; exact H | discriminate H ].
Qed.

(** C10: whatever the recorder hands to [ondataavailable], every chunk
    that goes on to [sendChunkToServer] is one of the chunks handed over
    and is not empty. *)
Theorem forwarded_chunks_nonempty (chunks : list Blob) (chunk : list Byte.byte) :
  In (SendChunkToServer chunk) (deliver screenAppSendData chunks) ->
  (0 < List.length chunk)%nat /\
  exists data, In data chunks /\ chunk = bytes data /\ 0 < size data.
Proof.
  unfold deliver.
  assert (H : forall notes,
             In (SendChunkToServer chunk)
                (fold_left (fun notes data =>
                              ondataavailable screenAppSendData data notes)
                           chunks notes) ->
             In (SendChunkToServer chunk) notes \/
             exists data, In data chunks /\ chunk = bytes data /\ 0 < size data).
  { induction chunks as [ | data chunks IH]; intros notes Hin.
    - left. exact Hin.
    - cbn in Hin. destruct (IH _ Hin) as [Hold | (d & Hd & Hc & Hs)].
      + destruct (ondataavailable_sent _ _ _ Hold) as [H | [Hc Hs]].
        * left. exact H.
        * right. exists data. split; [ left; reflexivity | auto ].
      + right. exists d. split; [ right; exact Hd | auto ]. }
  intros Hin. destruct (H [] Hin) as [[] | (d & Hd & Hc & Hs)].
  split; [ | exists d; auto ].
  subst chunk. unfold size in Hs. lia.
Qed.

End ChunkFacts.

Section ChunkExamples.
Import RecordingTask ChunkExamples.

(** Of an empty, a non-empty and another empty chunk, the one forwarded
    is the non-empty one. *)
Lemma forwarded_chunks_nonempty_witness :
  (0 < List.length (bytes mediaBlob))%nat /\
  exists data,
    In data [emptyBlob; mediaBlob; emptyBlob] /\
    bytes mediaBlob = bytes data /\ 0 < size data.
Proof.
  apply (forwarded_chunks_nonempty bridgeUp [emptyBlob; mediaBlob; emptyBlob]
           (bytes mediaBlob)).
  cbn. right. left. reflexivity.
Defined.

Example deliver_skips_empty_chunks :
  deliver bridgeUp [emptyBlob; mediaBlob; emptyBlob] =
  [ReceivedEmptyChunk; SendChunkToServer (bytes mediaBlob); ReceivedEmptyChunk].
Proof. reflexivity. Qed.

End ChunkExamples.

Section TimerQueueFacts.
Import RecordingTask.

Lemma timerDelay_nonneg ms : 0 <= timerDelay ms.
Proof. unfold timerDelay. lia. Qed.

Lemma timerDelay_le ms : 0 <= ms -> timerDelay ms <= ms.
Proof. intros H. unfold timerDelay. Z.div_mod_to_equations. lia. Qed.

Lemma timerDelay_small ms : 0 <= ms < 2147483648 -> timerDelay ms = ms.
Proof. intros H. unfold timerDelay. Z.div_mod_to_equations. lia. Qed.

(** [next] takes one timer out of the queue, and none is due before it. *)
Lemma next_spec l t rest :
  next l = Some (t, rest) ->
  (forall u, In u l <-> u = t \/ In u rest) /\
  Forall (fun u => deadline t <= deadline u) rest.
Proof.
  revert t rest. induction l as [ | x l IH]; intros t rest H; [ discriminate H | ].
  cbn in H. destruct (next l) as [[u r] | ] eqn:Hn.
  - destruct (IH u r eq_refl) as [Hin Hmin].
    destruct (Z.leb_spec (deadline x) (deadline u)) as [Hle | Hgt];
      injection H as <- <-.
    + split; [ intros v; cbn; intuition congruence | ].
      rewrite Forall_forall in *. intros v Hv.
      apply Hin in Hv. destruct Hv as [-> | Hv]; [ exact Hle | ].
      specialize (Hmin v Hv). lia.
    + split.
      * intros v. cbn. rewrite Hin. intuition congruence.
      * constructor; [ lia | exact Hmin ].
  - injection H as <- <-. destruct l as [ | y l].
    + split; [ intros v; cbn; intuition congruence | constructor ].
    + cbn in Hn. destruct (next l) as [[u r] | ];
        [ destruct (deadline y <=? deadline u) | ]; discriminate Hn.
Qed.

Lemma next_some l x : In x l -> exists t rest, next l = Some (t, rest).
Proof.
  destruct l as [ | y l]; [ intros [] | intros _ ].
  cbn. destruct (next l) as [[u r] | ];
    [ destruct (deadline y <=? deadline u) | ]; eauto.
Qed.

End TimerQueueFacts.

Section PageFacts.
Import RecordingTask.

Variables duration inactivityLimit activateInactivityDetectionAfter : Z.
Variable dom : Z -> DomSnapshot.
Variable silent : Z -> bool.
Variable stopThrowsWhenInactive : bool.

Local Abbreviation D := (timerDelay duration).
Local Abbreviation ceiling := (mkTimer D StopAfterDuration).
Local Abbreviation stop := (stopTheRecording stopThrowsWhenInactive).
Local Abbreviation step1 := (step inactivityLimit dom silent stopThrowsWhenInactive).
Local Abbreviation run := (steps inactivityLimit dom silent stopThrowsWhenInactive).
Local Abbreviation fire1 := (fire inactivityLimit dom silent stopThrowsWhenInactive).
Local Abbreviation uses := (RecordingTask.uses D).
Local Abbreviation weight := (RecordingTask.weight D).
Local Abbreviation load := (RecordingTask.load D).
Local Abbreviation calm := (RecordingTask.calm D).
Local Abbreviation Inv := (RecordingTask.Inv D).
Local Abbreviation quiet := (RecordingTask.quiet dom silent).

Lemma uses_nonneg period d : 0 < period -> 0 <= uses period d.
Proof.
  intros Hp. unfold RecordingTask.uses. destruct (Z.leb_spec d D); [ | lia ].
  assert (0 <= (D - d) / period) by (apply Z.div_pos; lia). lia.
Qed.

Lemma uses_again_2000 d : d <= D -> uses 2000 (d + 2000) = uses 2000 d - 1.
Proof.
  intros H. unfold RecordingTask.uses.
  destruct (Z.leb_spec d D); [ | lia ].
  destruct (Z.leb_spec (d + 2000) D); Z.div_mod_to_equations; lia.
Qed.

Lemma uses_again_100 d : d <= D -> uses 100 (d + 100) = uses 100 d - 1.
Proof.
  intros H. unfold RecordingTask.uses.
  destruct (Z.leb_spec d D); [ | lia ].
  destruct (Z.leb_spec (d + 100) D); Z.div_mod_to_equations; lia.
Qed.

Lemma weight_nonneg t : 0 <= weight t.
Proof.
  unfold RecordingTask.weight.
  pose proof (uses_nonneg 2000 (deadline t)).
  pose proof (uses_nonneg 100 (deadline t)).
  pose proof (uses_nonneg 2000 (deadline t + 2000)).
  pose proof (uses_nonneg 100 (deadline t + 100)).
  destruct (callback t); destruct (deadline t <=? D); lia.
Qed.

Lemma load_nonneg l : 0 <= load l.
Proof.
  induction l as [ | t l IH]; cbn; [ lia | ].
  pose proof (weight_nonneg t). lia.
Qed.

Lemma load_app l k : load (l ++ k) = load l + load k.
Proof. induction l as [ | t l IH]; cbn; [ reflexivity | rewrite IH; lia ]. Qed.

Lemma load_filter f l : load (filter f l) <= load l.
Proof.
  induction l as [ | t l IH]; cbn; [ lia | ].
  pose proof (weight_nonneg t). destruct (f t); cbn; lia.
Qed.

Lemma load_in t l : In t l -> weight t <= load l.
Proof.
  induction l as [ | u l IH]; intros Hin; [ destruct Hin | ].
  cbn. pose proof (load_nonneg l). pose proof (weight_nonneg u).
  destruct Hin as [-> | Hin]; [ lia | specialize (IH Hin); lia ].
Qed.

Lemma load_next l t rest :
  next l = Some (t, rest) -> load l = weight t + load rest.
Proof.
  revert t rest. induction l as [ | x l IH]; intros t rest H; [ discriminate H | ].
  cbn in H. destruct (next l) as [[u r] | ] eqn:Hn.
  - specialize (IH u r eq_refl).
    destruct (deadline x <=? deadline u); injection H as <- <-; cbn; lia.
  - injection H as <- <-. destruct l as [ | y l]; [ reflexivity | ].
    cbn in Hn. destruct (next l) as [[u r] | ];
      [ destruct (deadline y <=? deadline u) | ]; discriminate Hn.
Qed.

Lemma calm_same p q :
  now q = now p -> state q = state p -> timers q = timers p -> calm 0 p q.
Proof.
  intros Hn Hs Ht. unfold RecordingTask.calm, later. rewrite Hn, Hs, Ht.
  split; [ split; [ reflexivity | auto ] | ].
  right. split; [ reflexivity | ]. split; [ auto | lia ].
Qed.

Lemma calm_refl p : calm 0 p p.
Proof. apply calm_same; reflexivity. Qed.

Lemma calm_trans k1 k2 p0 p1 p2 :
  calm k1 p0 p1 -> calm k2 p1 p2 -> calm (k1 + k2) p0 p2.
Proof.
  intros [[Hn1 Ht1] Hs1] [[Hn2 Ht2] Hs2]. split.
  - split; [ congruence | ].
    intros t Hin. destruct (Ht2 t Hin) as [H | H].
    + apply Ht1. exact H.
    + right. rewrite <- Hn1. exact H.
  - destruct Hs2 as [H2 | (H2 & Hc2 & Hl2)]; [ left; exact H2 | ].
    destruct Hs1 as [H1 | (H1 & Hc1 & Hl1)].
    + left. congruence.
    + right. split; [ congruence | ]. split; [ auto | lia ].
Qed.

Lemma calm_weaken k k' p0 p1 : calm k p0 p1 -> k <= k' -> calm k' p0 p1.
Proof.
  intros [Hl Hs] Hk. split; [ exact Hl | ].
  destruct Hs as [H | (H & Hc & Hw)]; [ left; exact H | right ].
  split; [ exact H | ]. split; [ exact Hc | lia ].
Qed.

Lemma calm_note n p : calm 0 p (note n p).
Proof. apply calm_same; reflexivity. Qed.

Lemma calm_setMonitor b p : calm 0 p (setMonitor b p).
Proof. apply calm_same; reflexivity. Qed.

Lemma calm_setSilenceDuration d p : calm 0 p (setSilenceDuration d p).
Proof. apply calm_same; reflexivity. Qed.

Lemma calm_clearTimer cb p :
  cb <> StopAfterDuration -> calm 0 p (clearTimer cb p).
Proof.
  intros Hcb. split.
  - split; [ reflexivity | ].
    intros t Hin. left. cbn in Hin. apply filter_In in Hin. apply Hin.
  - right. split; [ reflexivity | ]. split.
    + intros Hin. cbn. apply filter_In. split; [ exact Hin | ].
      destruct cb; try reflexivity. congruence.
    + cbn. pose proof (load_filter
                         (fun t => negb (Callback_eqb (callback t) cb))
                         (timers p)). lia.
Qed.

Lemma calm_setTimeout cb ms p :
  cb <> StopAfterDuration ->
  calm (weight (mkTimer (now p + timerDelay ms) cb)) p (setTimeout cb ms p).
Proof.
  intros Hcb. pose proof (timerDelay_nonneg ms). split.
  - split; [ reflexivity | ].
    intros t Hin. cbn in Hin. apply in_app_iff in Hin.
    destruct Hin as [Hin | [<- | []]]; [ left; exact Hin | right ].
    cbn. split; [ lia | exact Hcb ].
  - right. split; [ reflexivity | ]. split.
    + intros Hin. cbn. apply in_app_iff. left. exact Hin.
    + cbn. rewrite load_app. cbn. lia.
Qed.

Lemma stop_inactive p : state (stop p) = inactive.
Proof.
  unfold stopTheRecording. cbn.
  destruct (state p) eqn:Hs; [ destruct stopThrowsWhenInactive | ];
    cbn; auto.
Qed.

Lemma calm_stop p : calm 0 p (stop p).
Proof.
  split.
  - split.
    + unfold stopTheRecording. cbn.
      destruct (state p); [ destruct stopThrowsWhenInactive | ]; reflexivity.
    + intros t Hin. left. unfold stopTheRecording in Hin. cbn in Hin.
      destruct (state p); [ destruct stopThrowsWhenInactive | ]; cbn in Hin;
        try exact Hin;
        apply filter_In in Hin; destruct Hin as [Hin _];
        apply filter_In in Hin; apply Hin.
  - left. apply stop_inactive.
Qed.

Lemma calm_loneTestBody p :
  calm 0 p (loneTestBody dom stopThrowsWhenInactive p).
Proof.
  unfold loneTestBody.
  assert (Hstop : forall q, calm 0 p q ->
            calm 0 p (stop (setMonitor false (clearTimer LoneTest q)))).
  { intros q Hq.
    change 0 with (0 + (0 + (0 + 0))).
    eapply calm_trans; [ exact Hq | ].
    eapply calm_trans; [ apply (calm_clearTimer LoneTest); discriminate | ].
    eapply calm_trans; [ apply (calm_setMonitor false) | apply calm_stop ]. }
  destruct (broken (dom (now p))); [ apply calm_note | ].
  set (p1 := if okButton (dom (now p)) then _ else p).
  assert (H1 : calm 0 p p1).
  { subst p1. destruct (okButton (dom (now p))); [ | apply calm_refl ].
    destruct (meetingEnded (dom (now p))); [ | apply calm_note ].
    apply Hstop. apply calm_note. }
  destruct (participants (dom (now p))) as [n | ].
  - destruct (n >? 1); [ exact H1 | apply Hstop; exact H1 ].
  - change 0 with (0 + 0). eapply calm_trans; [ exact H1 | apply calm_note ].
Qed.

Lemma calm_monitorSilence p :
  calm (uses 100 (now p + 100)) p
       (monitorSilence inactivityLimit silent stopThrowsWhenInactive p).
Proof.
  unfold monitorSilence.
  set (p1 := if silent (now p) then _ else _).
  assert (H1 : calm 0 p p1).
  { subst p1. destruct (silent (now p)); [ | apply calm_setSilenceDuration ].
    destruct (_ >=? inactivityLimit); [ | apply calm_setSilenceDuration ].
    change 0 with (0 + (0 + (0 + 0))).
    eapply calm_trans; [ apply (calm_setSilenceDuration (silenceDuration p + 100)) | ].
    eapply calm_trans; [ apply (calm_setMonitor false) | ].
    eapply calm_trans;
      [ apply (calm_clearTimer LoneTest); discriminate | apply calm_stop ]. }
  assert (Hnow : now p1 = now p) by apply H1.
  destruct (monitor p1).
  - change (uses 100 (now p + 100)) with (0 + uses 100 (now p + 100)).
    eapply calm_trans; [ exact H1 | ].
    pose proof (calm_setTimeout MonitorSilence 100 p1) as H.
    rewrite Hnow in H. apply H. discriminate.
  - eapply calm_weaken; [ exact H1 | apply uses_nonneg; lia ].
Qed.

Lemma weight_LoneTest_armed p :
  weight (mkTimer (now p + timerDelay 2000) LoneTest) = uses 2000 (now p + 2000).
Proof. reflexivity. Qed.

Lemma calm_arm_LoneTest p :
  calm (uses 2000 (now p + 2000)) p (setTimeout LoneTest 2000 p).
Proof.
  rewrite <- weight_LoneTest_armed. apply calm_setTimeout. discriminate.
Qed.

Lemma calm_activate p :
  calm (uses 2000 (now p + 2000) + uses 100 (now p + 100)) p
       (monitorSilence inactivityLimit silent stopThrowsWhenInactive
          (setTimeout LoneTest 2000 p)).
Proof.
  apply (calm_trans _ _ p (setTimeout LoneTest 2000 p));
    [ apply calm_arm_LoneTest | ].
  apply (calm_monitorSilence (setTimeout LoneTest 2000 p)).
Qed.

Lemma calm_loneTest p :
  calm (uses 2000 (now p + 2000)) p
       (loneTestBody dom stopThrowsWhenInactive (setTimeout LoneTest 2000 p)).
Proof.
  replace (uses 2000 (now p + 2000)) with (uses 2000 (now p + 2000) + 0) by lia.
  apply (calm_trans _ _ p (setTimeout LoneTest 2000 p));
    [ apply calm_arm_LoneTest | apply calm_loneTestBody ].
Qed.

(** What a callback other than the ceiling's does to the page. *)
Lemma calm_fire cb p :
  cb <> StopAfterDuration ->
  now p <= D ->
  calm (weight (mkTimer (now p) cb) - 1) p
       (fire inactivityLimit dom silent stopThrowsWhenInactive cb p).
Proof.
  intros Hcb Hnow. unfold RecordingTask.weight. cbn [callback deadline].
  destruct cb; [ congruence | | | ]; cbn [fire].
  - destruct (Z.leb_spec (now p) D); [ | lia ].
    replace (1 + uses 2000 (now p + 2000) + uses 100 (now p + 100) - 1)
      with (uses 2000 (now p + 2000) + uses 100 (now p + 100)) by lia.
    apply calm_activate.
  - rewrite <- uses_again_2000 by exact Hnow. apply calm_loneTest.
  - rewrite <- uses_again_100 by exact Hnow. apply calm_monitorSilence.
Qed.

(** Any callback leaves the clock alone and arms no earlier timer. *)
Lemma later_fire cb p :
  later p (fire inactivityLimit dom silent stopThrowsWhenInactive cb p).
Proof.
  destruct cb; cbn [fire].
  - apply calm_stop.
  - apply calm_activate.
  - apply calm_loneTest.
  - apply calm_monitorSilence.
Qed.

(** A callback never starts the recorder. *)
Lemma fire_inactive cb p :
  state p = inactive ->
  state (fire inactivityLimit dom silent stopThrowsWhenInactive cb p) = inactive.
Proof.
  intros Hs.
  assert (H : forall k q, calm k p q -> state q = inactive).
  { intros k q [_ [H | [H _]]]; congruence. }
  destruct cb; cbn [fire].
  - apply stop_inactive.
  - eapply H. apply calm_activate.
  - eapply H. apply calm_loneTest.
  - eapply H. apply calm_monitorSilence.
Qed.

Lemma step_due p :
  step1 p =
  match next (timers p) with
  | None => None
  | Some (t, rest) => Some (fire1 (callback t) (due t rest p))
  end.
Proof. reflexivity. Qed.

Lemma Inv_started : Inv (started duration activateInactivityDetectionAfter).
Proof.
  pose proof (timerDelay_nonneg duration).
  pose proof (timerDelay_nonneg activateInactivityDetectionAfter).
  unfold RecordingTask.Inv, started. cbn. split; [ | split ].
  - constructor; [ cbn; lia | ]. constructor; [ cbn; lia | constructor ].
  - constructor; [ cbn; discriminate | ].
    constructor; [ intros _; reflexivity | constructor ].
  - intros _. right. left. reflexivity.
Qed.

Lemma quiet_fire cb p :
  quiet -> cb <> StopAfterDuration -> state (fire1 cb p) = state p.
Proof.
  intros [Hsilent Hdom] Hcb.
  assert (Hmon : forall q,
             state (monitorSilence inactivityLimit silent
                      stopThrowsWhenInactive q) = state q).
  { intros q. unfold monitorSilence. rewrite Hsilent. cbn.
    destruct (monitor q); reflexivity. }
  destruct cb; [ congruence | | | ]; cbn [fire].
  - rewrite Hmon. reflexivity.
  - unfold loneTestBody. cbn [now setTimeout withTimers].
    destruct (Hdom (now p)) as [Hb | [Hok Hn]].
    + rewrite Hb. reflexivity.
    + destruct (broken (dom (now p))); [ reflexivity | ].
      assert (H1 : state (if okButton (dom (now p))
                          then
                            let p' := note ClickedOk (setTimeout LoneTest 2000 p) in
                            if meetingEnded (dom (now p))
                            then stopTheRecording stopThrowsWhenInactive
                                   (setMonitor false (clearTimer LoneTest p'))
                            else p'
                          else setTimeout LoneTest 2000 p) = state p).
      { destruct Hok as [-> | Hend]; [ reflexivity | ].
        rewrite Hend. destruct (okButton (dom (now p))); reflexivity. }
      destruct (participants (dom (now p))) as [n | ].
      * destruct (Z.gtb_spec n 1); [ exact H1 | lia ].
      * cbn. exact H1.
  - apply Hmon.
Qed.

(** One turn of the event loop keeps the invariant, and the clock does
    not go back. *)
Lemma step_Inv p p' :
  Inv p -> step1 p = Some p' ->
  Inv p' /\ now p <= now p' /\ (state p = inactive -> state p' = inactive).
Proof.
  intros (Hfut & Hceil & Hpend) Hstep. rewrite step_due in Hstep.
  destruct (next (timers p)) as [[t rest] | ] eqn:Hnext; [ | discriminate Hstep ].
  injection Hstep as <-.
  destruct (next_spec _ _ _ Hnext) as [Hin Hmin].
  rewrite Forall_forall in Hfut, Hceil, Hmin.
  destruct (later_fire (callback t) (due t rest p)) as [Hnow Hlater].
  cbn in Hnow, Hlater.
  assert (Ht : now p <= deadline t) by (apply Hfut, Hin; left; reflexivity).
  split; [ | split ].
  - unfold RecordingTask.Inv. rewrite !Forall_forall. split; [ | split ].
    + intros u Hu. rewrite Hnow. destruct (Hlater u Hu) as [Hr | [Hr _]];
        [ apply Hmin; exact Hr | exact Hr ].
    + intros u Hu Hcb. destruct (Hlater u Hu) as [Hr | [_ Hr]];
        [ | congruence ].
      apply Hceil; [ apply Hin; right; exact Hr | exact Hcb ].
    + intros Hrec.
      destruct (state p) eqn:Hs.
      { pose proof (fire_inactive (callback t) (due t rest p) Hs) as Hi.
        congruence. }
      specialize (Hpend eq_refl). apply Hin in Hpend.
      destruct (callback t) eqn:Hcb.
      * cbn [fire] in Hrec.
        pose proof (stop_inactive (due t rest p)) as Hi.
        congruence.
      * destruct Hpend as [He | Hr];
          [ subst t; discriminate Hcb | ].
        assert (Hd : now (due t rest p) <= D) by (apply (Hmin _ Hr)).
        destruct (calm_fire ActivateInactivityDetection (due t rest p)
                    ltac:(discriminate) Hd) as [_ [Hi | (_ & Hc & _)]];
          [ congruence | apply Hc; exact Hr ].
      * destruct Hpend as [He | Hr];
          [ subst t; discriminate Hcb | ].
        assert (Hd : now (due t rest p) <= D) by (apply (Hmin _ Hr)).
        destruct (calm_fire LoneTest (due t rest p)
                    ltac:(discriminate) Hd) as [_ [Hi | (_ & Hc & _)]];
          [ congruence | apply Hc; exact Hr ].
      * destruct Hpend as [He | Hr];
          [ subst t; discriminate Hcb | ].
        assert (Hd : now (due t rest p) <= D) by (apply (Hmin _ Hr)).
        destruct (calm_fire MonitorSilence (due t rest p)
                    ltac:(discriminate) Hd) as [_ [Hi | (_ & Hc & _)]];
          [ congruence | apply Hc; exact Hr ].
  - rewrite Hnow. exact Ht.
  - intros Hs. apply fire_inactive. exact Hs.
Qed.

Lemma run_Inv n : forall p p', Inv p -> run n p = Some p' -> Inv p'.
Proof.
  induction n as [ | n IH]; intros p p' Hinv Hrun.
  - injection Hrun as <-. exact Hinv.
  - cbn in Hrun.
    destruct (step1 p) as [p1 | ] eqn:Hstep; [ | discriminate Hrun ].
    apply (IH p1); [ apply (step_Inv p p1 Hinv Hstep) | exact Hrun ].
Qed.

(** While the recorder runs the ceiling is pending, so that the clock
    has not passed it. *)
Lemma Inv_recording p :
  Inv p -> state p = recording -> now p <= D /\ In ceiling (timers p).
Proof.
  intros (Hfut & _ & Hpend) Hrec. specialize (Hpend Hrec).
  split; [ | exact Hpend ].
  rewrite Forall_forall in Hfut. apply (Hfut ceiling Hpend).
Qed.

(** While the recorder runs, the event loop has a next turn; the turn
    stops the recorder, no later than the ceiling, or takes one callback
    off the load. *)
Lemma step_progress p :
  Inv p -> state p = recording ->
  exists p',
    step1 p = Some p' /\
    ((state p' = inactive /\ now p' <= D /\ (quiet -> now p' = D)) \/
     (state p' = recording /\ load (timers p') + 1 <= load (timers p))).
Proof.
  intros Hinv Hrec.
  destruct (Inv_recording p Hinv Hrec) as [_ Hpend].
  destruct Hinv as (Hfut & Hceil & _).
  destruct (next_some _ _ Hpend) as (t & rest & Hnext).
  destruct (next_spec _ _ _ Hnext) as [Hin Hmin].
  rewrite Forall_forall in Hfut, Hceil, Hmin.
  exists (fire1 (callback t) (due t rest p)).
  split; [ rewrite step_due, Hnext; reflexivity | ].
  pose proof (load_next _ _ _ Hnext) as Hload.
  destruct (later_fire (callback t) (due t rest p)) as [Hnow _].
  cbn in Hnow.
  assert (Hd : deadline t <= D).
  { apply Hin in Hpend. destruct Hpend as [<- | Hr];
      [ cbn; lia | apply (Hmin _ Hr) ]. }
  destruct (callback t) eqn:Hcb.
  - left. split; [ apply stop_inactive | ].
    assert (deadline t = D).
    { apply Hceil; [ apply Hin; left; reflexivity | exact Hcb ]. }
    rewrite Hnow. split; [ lia | auto ].
  - destruct (calm_fire ActivateInactivityDetection (due t rest p)
                ltac:(discriminate) Hd) as [_ [Hi | (Hs & _ & Hl)]].
    + left. split; [ exact Hi | ]. rewrite Hnow. split; [ exact Hd | ].
      intros Hq. pose proof (quiet_fire ActivateInactivityDetection (due t rest p) Hq) as Hqf.
      rewrite Hqf in Hi by discriminate.
      unfold due in Hi. cbn in Hi. rewrite Hrec in Hi. discriminate Hi.
    + right. split; [ rewrite Hs; exact Hrec | ].
      change (now (due t rest p)) with (deadline t) in Hl.
      change (timers (due t rest p)) with rest in Hl.
      replace (mkTimer (deadline t) ActivateInactivityDetection) with t in Hl
        by (destruct t; cbn in *; congruence).
      lia.
  - destruct (calm_fire LoneTest (due t rest p)
                ltac:(discriminate) Hd) as [_ [Hi | (Hs & _ & Hl)]].
    + left. split; [ exact Hi | ]. rewrite Hnow. split; [ exact Hd | ].
      intros Hq. pose proof (quiet_fire LoneTest (due t rest p) Hq) as Hqf.
      rewrite Hqf in Hi by discriminate.
      unfold due in Hi. cbn in Hi. rewrite Hrec in Hi. discriminate Hi.
    + right. split; [ rewrite Hs; exact Hrec | ].
      change (now (due t rest p)) with (deadline t) in Hl.
      change (timers (due t rest p)) with rest in Hl.
      replace (mkTimer (deadline t) LoneTest) with t in Hl
        by (destruct t; cbn in *; congruence).
      lia.
  - destruct (calm_fire MonitorSilence (due t rest p)
                ltac:(discriminate) Hd) as [_ [Hi | (Hs & _ & Hl)]].
    + left. split; [ exact Hi | ]. rewrite Hnow. split; [ exact Hd | ].
      intros Hq. pose proof (quiet_fire MonitorSilence (due t rest p) Hq) as Hqf.
      rewrite Hqf in Hi by discriminate.
      unfold due in Hi. cbn in Hi. rewrite Hrec in Hi. discriminate Hi.
    + right. split; [ rewrite Hs; exact Hrec | ].
      change (now (due t rest p)) with (deadline t) in Hl.
      change (timers (due t rest p)) with rest in Hl.
      replace (mkTimer (deadline t) MonitorSilence) with t in Hl
        by (destruct t; cbn in *; congruence).
      lia.
Qed.

(** The event loop gets to a turn that stops the recorder. *)
Lemma run_stops n :
  forall p,
    Inv p -> state p = recording -> load (timers p) <= Z.of_nat n ->
    exists k p',
      run k p = Some p' /\ state p' = inactive /\ now p' <= D /\
      (quiet -> now p' = D).
Proof.
  induction n as [ | n IH]; intros p Hinv Hrec Hload.
  - destruct (Inv_recording p Hinv Hrec) as [_ Hpend].
    pose proof (load_in _ _ Hpend) as Hw.
    unfold RecordingTask.weight in Hw. cbn in Hw.
    destruct (Z.leb_spec D D); lia.
  - destruct (step_progress p Hinv Hrec)
      as (p1 & Hstep & [(Hi & Hle & Hq) | (Hr & Hl)]).
    + exists 1%nat, p1. cbn. rewrite Hstep. auto.
    + destruct (IH p1) as (k & p' & Hrun & Hrest);
        [ apply (step_Inv p p1 Hinv Hstep) | exact Hr | lia | ].
      exists (S k), p'. split; [ | exact Hrest ].
      cbn. rewrite Hstep. exact Hrun.
Qed.

(** The hard ceiling on the page, for any [duration]. *)
Lemma ceiling_on_page :
  let start := started duration activateInactivityDetectionAfter in
  (forall n p,
      run n start = Some p -> state p = recording ->
      now p <= D /\ In ceiling (timers p)) /\
  (exists n p,
      run n start = Some p /\ state p = inactive /\ now p <= D /\
      (quiet -> now p = D)).
Proof.
  intros start. split.
  - intros n p Hrun Hrec.
    apply Inv_recording; [ | exact Hrec ].
    apply (run_Inv n start p Inv_started Hrun).
  - apply (run_stops (Z.to_nat (load (timers start))) start).
    + apply Inv_started.
    + reflexivity.
    + pose proof (load_nonneg (timers start)). lia.
Qed.

End PageFacts.

Section HardCeiling.
Import RecordingTask.

(** C3: the recorder in the page is bounded by the hard ceiling.  When
    [startRecording] returns, the recorder runs and a timer that calls
    [stopTheRecording] is armed with [duration], which is
    [maxRecordingDuration] minutes (180 unless configured) in ms, that is
    [maxRecordingDuration * 60 * 1000] (10 800 000 by default).  While
    the recorder still runs that timer is pending and the clock has not
    passed its deadline, so the recording never lasts longer than
    [maxRecordingDuration * 60 * 1000] ms; and whatever the page shows
    and the audio does, the event loop comes to a turn that stops the
    recorder.  When no end of the meeting is ever detected, that turn is
    the one of the ceiling itself, at [maxRecordingDuration * 60 * 1000]
    ms sharp for a duration that fits the 32 bits of a timer's delay. *)
Theorem hard_ceiling_stops_recording
    (env : option Z) (inactivityLimit activateInactivityDetectionAfter : Z)
    (dom : Z -> DomSnapshot) (silent : Z -> bool)
    (stopThrowsWhenInactive : bool) :
  let minutes := Config.maxRecordingDuration env in
  let duration := durationOf minutes in
  let start := started duration activateInactivityDetectionAfter in
  let run := steps inactivityLimit dom silent stopThrowsWhenInactive in
  Config.maxRecordingDuration None = 180 /\
  duration = minutes * 60 * 1000 /\
  durationOf 180 = 10800000 /\
  state start = recording /\
  timers start =
    [mkTimer (timerDelay activateInactivityDetectionAfter)
             ActivateInactivityDetection;
     mkTimer (timerDelay (minutes * 60 * 1000)) StopAfterDuration] /\
  (0 <= minutes * 60 * 1000 < 2147483648 ->
   timerDelay (minutes * 60 * 1000) = minutes * 60 * 1000) /\
  (0 <= minutes -> timerDelay (minutes * 60 * 1000) <= minutes * 60 * 1000) /\
  (forall n p,
      run n start = Some p -> state p = recording ->
      now p <= timerDelay (minutes * 60 * 1000) /\
      In (mkTimer (timerDelay (minutes * 60 * 1000)) StopAfterDuration)
         (timers p)) /\
  (exists n p,
      run n start = Some p /\ state p = inactive /\
      now p <= timerDelay (minutes * 60 * 1000) /\
      (quiet dom silent -> now p = timerDelay (minutes * 60 * 1000))) /\
  (0 <= minutes ->
   forall n p,
     run n start = Some p -> state p = recording ->
     now p <= minutes * 60 * 1000) /\
  (0 <= minutes * 60 * 1000 < 2147483648 ->
   quiet dom silent ->
   exists n p,
     run n start = Some p /\ state p = inactive /\
     now p = minutes * 60 * 1000).
Proof.
  intros minutes duration start run.
  assert (Hd : duration = minutes * 60 * 1000) by reflexivity.
  pose proof (ceiling_on_page duration inactivityLimit
                activateInactivityDetectionAfter dom silent
                stopThrowsWhenInactive) as [Hsafe Hlive].
  fold start in Hsafe, Hlive. fold run in Hsafe, Hlive.
  rewrite Hd in Hsafe, Hlive.
  pose proof (timerDelay_small (minutes * 60 * 1000)) as Hsmall.
  pose proof (timerDelay_le (minutes * 60 * 1000)) as Hle.
  split; [ reflexivity | ]. split; [ exact Hd | ].
  split; [ reflexivity | ]. split; [ reflexivity | ].
  split; [ reflexivity | ].
  split; [ exact Hsmall | ].
  split; [ intros Hm; apply Hle; lia | ].
  split; [ exact Hsafe | ]. split; [ exact Hlive | ].
  split.
  - intros Hm n p Hrun Hrec.
    destruct (Hsafe n p Hrun Hrec) as [Hnow _].
    assert (timerDelay (minutes * 60 * 1000) <= minutes * 60 * 1000)
      by (apply Hle; lia).
    lia.
  - intros Hfit Hquiet.
    destruct Hlive as (n & p & Hrun & Hstate & _ & Hq).
    exists n, p. split; [ exact Hrun | ]. split; [ exact Hstate | ].
    rewrite (Hq Hquiet). apply Hsmall. exact Hfit.
Qed.

End HardCeiling.


Section PageExampleFacts.
Import RecordingTask PageExamples.

(** In [busyMeeting] with [talking] no end of the meeting is detected. *)
Lemma busyMeeting_quiet : quiet busyMeeting talking.
Proof.
  split; [ reflexivity | ].
  intros t. right. split; [ left; reflexivity | cbn; lia ].
Qed.

(** A one-minute ceiling in a meeting that never ends by itself. *)
Lemma hard_ceiling_stops_recording_witness :
  exists n p,
    steps 60000 busyMeeting talking true n (started 60000 60000) = Some p /\
    state p = inactive /\ now p = 60000.
Proof.
  destruct (hard_ceiling_stops_recording (Some 1) 60000 60000
              busyMeeting talking true)
    as (_ & _ & _ & _ & _ & _ & _ & _ & _ & _ & Hsharp).
  apply Hsharp; [ cbn; lia | apply busyMeeting_quiet ].
Defined.

(** With [maxRecordingDuration = 1] the ceiling stops the recorder at
    60 s: the inactivity detection, armed first, is due at the same time
    and runs first, then the ceiling. *)
Example one_minute_ceiling :
  match steps 60000 busyMeeting talking true 2 (started 60000 60000) with
  | Some p =>
      state p = inactive /\ now p = 60000 /\
      notes p = [(60000, TriggerStop); (60000, ScreenAppMeetEnd)]
  | None => False
  end.
Proof. vm_compute. repeat split; reflexivity. Qed.

(** A bot left alone is stopped by the first look at the participants,
    two seconds after the detection starts, well before a three-hour
    ceiling. *)
Example lone_participant_stops_early :
  match steps 60000 emptyMeeting talking true 22
              (started (durationOf 180) 60000) with
  | Some p => state p = inactive /\ now p = 62000
  | None => False
  end.
Proof. vm_compute. repeat split; reflexivity. Qed.

End PageExampleFacts.

(* --------------------------------------------------------------------- *)
(** ** The retry law in general *)
(* --------------------------------------------------------------------- *)

Section RetryLaw.
Import JoinMeeting.

Variable Env : Type.
Variable processor : MeetingJoinParams -> Env -> Completion unit * Env.
Variable config_retryCount : Z.

Lemma invocations_app t1 t2 :
  invocations (t1 ++ t2) = (invocations t1 + invocations t2)%nat.
Proof.
  induction t1 as [ | ev t1 IH]; [ reflexivity | ].
  destruct ev; cbn; rewrite IH; reflexivity.
Qed.

Lemma sleeps_app t1 t2 : sleeps (t1 ++ t2) = sleeps t1 ++ sleeps t2.
Proof.
  induction t1 as [ | ev t1 IH]; [ reflexivity | ].
  destruct ev; cbn; rewrite IH; reflexivity.
Qed.

Lemma backoff_cons retryCount k :
  backoff retryCount (S k) =
  (retryCount + 1) * 30000 :: backoff (retryCount + 1) k.
Proof.
  unfold backoff. cbn [seq map]. f_equal.
  rewrite <- seq_shift, map_map. apply map_ext. intros i. f_equal. lia.
Qed.

Lemma backoff_snoc retryCount k :
  backoff retryCount (S k) =
  backoff retryCount k ++ [(retryCount + Z.of_nat k + 1) * 30000].
Proof.
  unfold backoff. rewrite seq_S, map_app. cbn [map]. do 3 f_equal. lia.
Qed.

Lemma retried_projections params n :
  invocations (retried params config_retryCount n) = 1%nat /\
  sleeps (retried params config_retryCount n) = [n * 30000].
Proof. unfold retried. destruct (n =? 0); split; reflexivity. Qed.

(** [k] attempts that are tried again are [k] runs of the processor and
    the first [k] delays of the backoff. *)
Lemma retries_projections params k :
  forall retryCount,
    invocations (retries params config_retryCount retryCount k) = k /\
    sleeps (retries params config_retryCount retryCount k)
    = backoff retryCount k.
Proof.
  induction k as [ | k IH]; intros retryCount; [ split; reflexivity | ].
  cbn [retries]. rewrite invocations_app, sleeps_app, backoff_cons.
  destruct (retried_projections params (retryCount + 1)) as [-> ->].
  destruct (IH (retryCount + 1)) as [-> ->]. split; reflexivity.
Qed.

Lemma retries_snoc params k :
  forall retryCount,
    retries params config_retryCount retryCount (S k) =
    retries params config_retryCount retryCount k
    ++ retried params config_retryCount (retryCount + Z.of_nat k + 1).
Proof.
  induction k as [ | k IH]; intros retryCount.
  - cbn [retries]. rewrite app_nil_r. cbn [app Z.of_nat].
    rewrite Z.add_0_r. reflexivity.
  - change (retries params config_retryCount retryCount (S (S k)))
      with (retried params config_retryCount (retryCount + 1)
            ++ retries params config_retryCount (retryCount + 1) (S k)).
    rewrite IH. cbn [retries]. rewrite <- app_assoc.
    do 3 f_equal. lia.
Qed.

(** The world in which the attempt after one that is tried again
    starts. *)
Lemma retried_world params retryCount (w : World Env) (env' : Env) :
  retryCount + 1 <= config_retryCount ->
  trace (if retryCount + 1 =? 0
         then sleep ((retryCount + 1) * 30000)
                (mkWorld env' (trace w ++ [Invoke params]))
         else emit (Log (RetryAttempt (retryCount + 1) config_retryCount))
                (sleep ((retryCount + 1) * 30000)
                   (mkWorld env' (trace w ++ [Invoke params]))))
  = trace w ++ retried params config_retryCount (retryCount + 1) /\
  env (if retryCount + 1 =? 0
       then sleep ((retryCount + 1) * 30000)
              (mkWorld env' (trace w ++ [Invoke params]))
       else emit (Log (RetryAttempt (retryCount + 1) config_retryCount))
              (sleep ((retryCount + 1) * 30000)
                 (mkWorld env' (trace w ++ [Invoke params]))))
  = env'.
Proof.
  intros _. unfold retried.
  destruct (retryCount + 1 =? 0); cbn; rewrite <- ?app_assoc;
    split; reflexivity.
Qed.

(** The course of one call of [joinMeetWithRetry]: [k] attempts that
    throw and are tried again, and a last attempt, made in the state
    the [k] attempts have left, that decides how the call ends. *)
Lemma retry_course n :
  forall retryCount params w,
    Z.to_nat (config_retryCount - retryCount) = n ->
    exists k ending,
      trace (snd (joinMeetWithRetry processor config_retryCount params
                    retryCount w))
      = trace w ++ retries params config_retryCount retryCount k
        ++ Invoke params :: ending /\
      Z.of_nat k <= Z.max 0 (config_retryCount - retryCount) /\
      match fst (joinMeetWithRetry processor config_retryCount params
                   retryCount w) with
      | Returned _ => ending = []
      | Thrown error =>
          (exists line, ending = [Log line] /\ notRetriedLine error line) \/
          (ending = [Sleep ((retryCount + Z.of_nat k + 1) * 30000)] /\
           config_retryCount < retryCount + Z.of_nat k + 1)
      end /\
      (forall i, (i < k)%nat ->
                 exists error,
                   fst (processor params (envAfter processor params i (env w)))
                   = Thrown error) /\
      processor params (envAfter processor params k (env w)) =
      (fst (joinMeetWithRetry processor config_retryCount params retryCount w),
       env (snd (joinMeetWithRetry processor config_retryCount params
                   retryCount w))).
Proof.
  induction n as [n IH] using lt_wf_ind. intros retryCount params w Hn.
  destruct (processor params (env w)) as [[[] | error] env'] eqn:Hp.
  - rewrite (joinMeetWithRetry_returned _ processor config_retryCount
               params retryCount w tt env' Hp).
    exists 0%nat, []. cbn.
    split; [ reflexivity | ]. split; [ lia | ]. split; [ reflexivity | ].
    split; [ intros i Hi; lia | exact Hp ].
  - rewrite (joinMeetWithRetry_thrown _ processor config_retryCount
               params retryCount w error env' Hp).
    unfold catchBlock.
    assert (Hstop : forall line,
               notRetriedLine error line ->
               exists k ending,
                 trace (snd (Thrown (A:=unit) error,
                             emit (Log line)
                               (mkWorld env' (trace w ++ [Invoke params]))))
                 = trace w ++ retries params config_retryCount retryCount k
                   ++ Invoke params :: ending /\
                 Z.of_nat k <= Z.max 0 (config_retryCount - retryCount) /\
                 ((exists line0,
                      ending = [Log line0] /\ notRetriedLine error line0) \/
                  (ending = [Sleep ((retryCount + Z.of_nat k + 1) * 30000)] /\
                   config_retryCount < retryCount + Z.of_nat k + 1)) /\
                 (forall i, (i < k)%nat ->
                            exists error0,
                              fst (processor params
                                     (envAfter processor params i (env w)))
                              = Thrown error0) /\
                 processor params (envAfter processor params k (env w)) =
                 (Thrown error, env')).
    { intros line Hline. exists 0%nat, [Log line]. cbn.
      rewrite <- app_assoc. split; [ reflexivity | ]. split; [ lia | ].
      split; [ left; eauto | ].
      split; [ intros i Hi; lia | exact Hp ]. }
    destruct (instanceofWaitingAtLobbyRetryError error);
      [ apply Hstop; left; reflexivity | ].
    destruct (instanceofKnownError error && negb (retryable error));
      [ apply Hstop; right; left; reflexivity | ].
    destruct (instanceofKnownError error && retryable error
              && (maxRetries error <=? retryCount + 1));
      [ apply Hstop; right; right; reflexivity | ].
    clear Hstop. cbn zeta.
    destruct (Z.leb_spec (retryCount + 1) config_retryCount) as [Hle | Hgt].
    + destruct (retried_world params retryCount w env' Hle) as [Htr3 Henv3].
      match goal with
      | |- context [joinMeetWithRetry _ _ _ _ ?w3] =>
          set (w3' := w3) in *;
          destruct (IH (Z.to_nat (config_retryCount - (retryCount + 1)))
                      ltac:(lia) (retryCount + 1) params w3' eq_refl)
            as (k & ending & Htr & Hk & Hend & Hfail & Hlast)
      end.
      exists (S k), ending.
      split.
      { rewrite Htr, Htr3. cbn [retries]. rewrite <- !app_assoc.
        reflexivity. }
      split; [ lia | ].
      split.
      { destruct (fst (joinMeetWithRetry processor config_retryCount params
                         (retryCount + 1) w3')); [ exact Hend | ].
        replace (retryCount + Z.of_nat (S k) + 1)
          with (retryCount + 1 + Z.of_nat k + 1) by lia.
        exact Hend. }
      rewrite Henv3 in Hfail, Hlast.
      split.
      { intros [ | i] Hi; cbn [envAfter]; rewrite ?Hp; cbn [fst snd].
        - eauto.
        - apply Hfail. lia. }
      cbn [envAfter]. rewrite Hp. cbn [snd]. exact Hlast.
    + exists 0%nat, [Sleep ((retryCount + 1) * 30000)]. cbn.
      rewrite <- app_assoc. split; [ reflexivity | ]. split; [ lia | ].
      split; [ right; split; [ do 2 f_equal; lia | lia ] | ].
      split; [ intros i Hi; lia | exact Hp ].
Qed.

(** X1: the course of one call of [joinMeetWithRetry], for every
    processor.  The trace grows by [k] attempts that are tried again,
    each of them a run of the processor followed at once by its delay
    of [(retryCount + i) * 30000] ms (and the announcement of the next
    attempt), and by one last run of the processor, after which the call
    ends: returning when that run returned; rethrowing, behind the line
    that says why the error is not retried; or rethrowing behind one
    more delay, slept before the ceiling is looked at and found passed.
    At most [config.retryCount - retryCount] attempts are tried
    again. *)
Theorem retry_backoff_linear_and_bounded params retryCount w :
  exists k ending,
    trace (snd (joinMeetWithRetry processor config_retryCount params
                  retryCount w))
    = trace w ++ retries params config_retryCount retryCount k
      ++ Invoke params :: ending /\
    Z.of_nat k <= Z.max 0 (config_retryCount - retryCount) /\
    match fst (joinMeetWithRetry processor config_retryCount params
                 retryCount w) with
    | Returned _ => ending = []
    | Thrown error =>
        (exists line, ending = [Log line] /\ notRetriedLine error line) \/
        (ending = [Sleep ((retryCount + Z.of_nat k + 1) * 30000)] /\
         config_retryCount < retryCount + Z.of_nat k + 1)
    end.
Proof.
  destruct (retry_course _ retryCount params w eq_refl)
    as (k & ending & Htr & Hk & Hend & _).
  exists k, ending. auto.
Qed.

Lemma alwaysFails_step params error e :
  (forall e0, fst (processor params e0) = Thrown error) ->
  exists e', processor params e = (Thrown error, e').
Proof.
  intros Hall. specialize (Hall e).
  destruct (processor params e) as [r e']. cbn in Hall. subst r. eauto.
Qed.

Lemma unclassified_run n :
  forall params error retryCount w,
    (forall e, fst (processor params e) = Thrown error) ->
    errClass error = UnclassifiedError ->
    0 <= retryCount ->
    config_retryCount - retryCount = Z.of_nat n ->
    fst (joinMeetWithRetry processor config_retryCount params retryCount w)
    = Thrown error /\
    trace (snd (joinMeetWithRetry processor config_retryCount params
                  retryCount w))
    = trace w ++ retries params config_retryCount retryCount n
      ++ [Invoke params; Sleep ((config_retryCount + 1) * 30000)].
Proof.
  induction n as [ | n IH]; intros params error retryCount w Hall Hcls Hr Hn;
    destruct (alwaysFails_step params error (env w) Hall) as [env' Hp];
    rewrite (joinMeetWithRetry_thrown _ processor config_retryCount
               params retryCount w error env' Hp);
    unfold catchBlock, instanceofWaitingAtLobbyRetryError, instanceofKnownError;
    rewrite Hcls; cbn.
  - destruct (Z.leb_spec (retryCount + 1) config_retryCount); [ lia | ].
    cbn. rewrite <- app_assoc. split; [ reflexivity | ].
    replace (config_retryCount + 1) with (retryCount + 1) by lia.
    reflexivity.
  - destruct (Z.leb_spec (retryCount + 1) config_retryCount) as [Hle | ];
      [ | lia ].
    destruct (retried_world params retryCount w env' Hle) as [Htr3 _].
    match goal with
    | |- context [joinMeetWithRetry _ _ _ _ ?w3] =>
        set (w3' := w3) in *;
        destruct (IH params error (retryCount + 1) w3' Hall Hcls
                    ltac:(lia) ltac:(lia)) as (Hf & Htr)
    end.
    split; [ exact Hf | ].
    rewrite Htr, Htr3. rewrite <- !app_assoc. reflexivity.
Qed.

(** X2: an unclassified failure thrown by every attempt is retried up to
    the configured ceiling.  Started with [retryCount = 0] under a
    ceiling of [c >= 0] retries, the call leaves on the trace [c]
    attempts that are tried again, each followed by its delay (30 s,
    60 s, ...) and the announcement of the next attempt, then one more
    attempt and, behind it, one more delay of [(c + 1) * 30] s, which
    is slept before the ceiling is looked at; then the failure is
    rethrown.  In all the processor runs [c + 1] times and [c + 1]
    delays are slept. *)
Theorem unclassified_failure_exhausts_ceiling params error w :
  (forall e, fst (processor params e) = Thrown error) ->
  errClass error = UnclassifiedError ->
  0 <= config_retryCount ->
  exists added,
    fst (joinMeetWithRetry processor config_retryCount params 0 w)
    = Thrown error /\
    trace (snd (joinMeetWithRetry processor config_retryCount params 0 w))
    = trace w ++ added /\
    added = retries params config_retryCount 0 (Z.to_nat config_retryCount)
            ++ [Invoke params; Sleep ((config_retryCount + 1) * 30000)] /\
    invocations added = S (Z.to_nat config_retryCount) /\
    sleeps added = backoff 0 (S (Z.to_nat config_retryCount)).
Proof.
  intros Hall Hcls Hc.
  destruct (unclassified_run (Z.to_nat config_retryCount) params error 0 w
              Hall Hcls ltac:(lia) ltac:(lia)) as [Hf Htr].
  eexists. split; [ exact Hf | ]. split; [ exact Htr | ].
  split; [ reflexivity | ].
  rewrite invocations_app, sleeps_app, backoff_snoc.
  destruct (retries_projections params (Z.to_nat config_retryCount) 0)
    as [-> ->].
  cbn [invocations sleeps]. split; [ lia | ].
  do 3 f_equal. lia.
Qed.

Lemma known_run n :
  forall params error retryCount w,
    (forall e, fst (processor params e) = Thrown error) ->
    errClass error = KnownError ->
    retryable error = true ->
    0 <= retryCount ->
    maxRetries error - (retryCount + 1) = Z.of_nat n ->
    maxRetries error - 1 <= config_retryCount ->
    fst (joinMeetWithRetry processor config_retryCount params retryCount w)
    = Thrown error /\
    trace (snd (joinMeetWithRetry processor config_retryCount params
                  retryCount w))
    = trace w ++ retries params config_retryCount retryCount n
      ++ [Invoke params; Log (TriesConsumed (maxRetries error) error)].
Proof.
  induction n as [ | n IH];
    intros params error retryCount w Hall Hcls Hret Hr Hn Hc;
    destruct (alwaysFails_step params error (env w) Hall) as [env' Hp];
    rewrite (joinMeetWithRetry_thrown _ processor config_retryCount
               params retryCount w error env' Hp);
    unfold catchBlock, instanceofWaitingAtLobbyRetryError, instanceofKnownError;
    rewrite Hcls, Hret; cbn.
  - destruct (Z.leb_spec (maxRetries error) (retryCount + 1)); [ | lia ].
    cbn. rewrite <- app_assoc. split; reflexivity.
  - destruct (Z.leb_spec (maxRetries error) (retryCount + 1)); [ lia | ].
    destruct (Z.leb_spec (retryCount + 1) config_retryCount) as [Hle | ];
      [ | lia ].
    destruct (retried_world params retryCount w env' Hle) as [Htr3 _].
    match goal with
    | |- context [joinMeetWithRetry _ _ _ _ ?w3] =>
        set (w3' := w3) in *;
        destruct (IH params error (retryCount + 1) w3' Hall Hcls Hret
                    ltac:(lia) ltac:(lia) Hc) as (Hf & Htr)
    end.
    split; [ exact Hf | ].
    rewrite Htr, Htr3. rewrite <- !app_assoc. reflexivity.
Qed.

(** X3: [maxRetries] bounds the tries of a retryable [KnownError].  When
    every attempt throws such an error with [maxRetries = m >= 1] and the
    configured ceiling allows [m - 1] retries, a call started with
    [retryCount = 0] leaves on the trace [m - 1] attempts that are tried
    again, each followed by its delay (30 s, 60 s, ...) and the
    announcement of the next attempt, then the last attempt and the line
    that [m] tries are consumed; then the error is rethrown.  In all the
    processor runs exactly [m] times, with the [m - 1] delays between
    the runs. *)
Theorem known_error_maxRetries_counts_tries params error w :
  (forall e, fst (processor params e) = Thrown error) ->
  errClass error = KnownError ->
  retryable error = true ->
  1 <= maxRetries error ->
  maxRetries error - 1 <= config_retryCount ->
  exists added,
    fst (joinMeetWithRetry processor config_retryCount params 0 w)
    = Thrown error /\
    trace (snd (joinMeetWithRetry processor config_retryCount params 0 w))
    = trace w ++ added /\
    added = retries params config_retryCount 0
              (Z.to_nat (maxRetries error) - 1)
            ++ [Invoke params;
                Log (TriesConsumed (maxRetries error) error)] /\
    invocations added = Z.to_nat (maxRetries error) /\
    sleeps added = backoff 0 (Z.to_nat (maxRetries error) - 1).
Proof.
  intros Hall Hcls Hret Hm Hc.
  destruct (known_run (Z.to_nat (maxRetries error) - 1) params error 0 w
              Hall Hcls Hret ltac:(lia) ltac:(lia) Hc) as [Hf Htr].
  eexists. split; [ exact Hf | ]. split; [ exact Htr | ].
  split; [ reflexivity | ].
  rewrite invocations_app, sleeps_app.
  destruct (retries_projections params (Z.to_nat (maxRetries error) - 1) 0)
    as [-> ->].
  cbn [invocations sleeps]. rewrite app_nil_r. split; [ lia | reflexivity ].
Qed.

(** X7: the retry loop ends the way its last attempt ended.  The call
    runs the processor [k + 1] times, each run starting in the state the
    run before has left behind, the first one in the state at the call.
    The first [k] runs throw; the completion of the last run is the
    completion of [joinMeetWithRetry], and the state it leaves behind is
    the state after the call: the loop returns only when its last
    attempt returned, and the error it throws is the one its last
    attempt threw. *)
Theorem retry_ends_as_its_last_attempt params retryCount w :
  exists k added,
    trace (snd (joinMeetWithRetry processor config_retryCount params
                  retryCount w)) = trace w ++ added /\
    invocations added = S k /\
    Z.of_nat k <= Z.max 0 (config_retryCount - retryCount) /\
    (forall i, (i < k)%nat ->
               exists error,
                 fst (processor params (envAfter processor params i (env w)))
                 = Thrown error) /\
    processor params (envAfter processor params k (env w)) =
    (fst (joinMeetWithRetry processor config_retryCount params retryCount w),
     env (snd (joinMeetWithRetry processor config_retryCount params
                 retryCount w))).
Proof.
  destruct (retry_course _ retryCount params w eq_refl)
    as (k & ending & Htr & Hk & Hend & Hfail & Hlast).
  exists k, (retries params config_retryCount retryCount k
             ++ Invoke params :: ending).
  split; [ exact Htr | ]. split; [ | auto ].
  rewrite invocations_app.
  destruct (retries_projections params k retryCount) as [-> _].
  cbn [invocations].
  assert (Hnone : invocations ending = 0%nat).
  { destruct (fst (joinMeetWithRetry processor config_retryCount params
                     retryCount w));
      [ subst ending; reflexivity | ].
    destruct Hend as [(line & -> & _) | (-> & _)]; reflexivity. }
  rewrite Hnone. lia.
Qed.

End RetryLaw.

Section RetryLawExamples.
Import JoinMeeting JoinMeetingExamples.

(** An unclassified failure under a ceiling of five retries. *)
Lemma unclassified_failure_exhausts_ceiling_witness :
  exists added,
    fst (joinMeetWithRetry
           (alwaysThrows (mkJsError UnclassifiedError "Error" "boom" false 0))
           5 params0 0 w0)
    = Thrown (mkJsError UnclassifiedError "Error" "boom" false 0) /\
    trace (snd (joinMeetWithRetry
                  (alwaysThrows
                     (mkJsError UnclassifiedError "Error" "boom" false 0))
                  5 params0 0 w0))
    = trace w0 ++ added /\
    added = retries params0 5 0 (Z.to_nat 5)
            ++ [Invoke params0; Sleep ((5 + 1) * 30000)] /\
    invocations added = S (Z.to_nat 5) /\
    sleeps added = backoff 0 (S (Z.to_nat 5)).
Proof.
  apply (unclassified_failure_exhausts_ceiling unit
           (alwaysThrows (mkJsError UnclassifiedError "Error" "boom" false 0))
           5 params0 (mkJsError UnclassifiedError "Error" "boom" false 0) w0).
  - intros e. reflexivity.
  - reflexivity.
  - lia.
Defined.

(** A retryable [KnownError] that allows four tries, under a ceiling of
    five retries. *)
Lemma known_error_maxRetries_counts_tries_witness :
  exists added,
    fst (joinMeetWithRetry
           (alwaysThrows (mkJsError KnownError "KnownError" "flaky" true 4))
           5 params0 0 w0)
    = Thrown (mkJsError KnownError "KnownError" "flaky" true 4) /\
    trace (snd (joinMeetWithRetry
                  (alwaysThrows
                     (mkJsError KnownError "KnownError" "flaky" true 4))
                  5 params0 0 w0))
    = trace w0 ++ added /\
    added = retries params0 5 0 (Z.to_nat 4 - 1)
            ++ [Invoke params0;
                Log (TriesConsumed 4
                       (mkJsError KnownError "KnownError" "flaky" true 4))] /\
    invocations added = Z.to_nat 4 /\
    sleeps added = backoff 0 (Z.to_nat 4 - 1).
Proof.
  apply (known_error_maxRetries_counts_tries unit
           (alwaysThrows (mkJsError KnownError "KnownError" "flaky" true 4))
           5 params0 (mkJsError KnownError "KnownError" "flaky" true 4) w0).
  - intros e. reflexivity.
  - reflexivity.
  - reflexivity.
  - cbn. lia.
  - cbn. lia.
Defined.

Example backoff_of_three : backoff 0 3 = [30000; 60000; 90000].
Proof. reflexivity. Qed.

(** Two attempts that are tried again under a ceiling of two retries. *)
Example retries_of_two :
  retries params0 2 0 2 =
  [Invoke params0; Sleep 30000; Log (RetryAttempt 1 2);
   Invoke params0; Sleep 60000; Log (RetryAttempt 2 2)].
Proof. reflexivity. Qed.

End RetryLawExamples.

(* --------------------------------------------------------------------- *)
(** ** What [ZoomBot.join] reports and how it ends *)
(* --------------------------------------------------------------------- *)

Section ZoomBotJoinFacts.
Import ZoomBot.

Ltac join_unfold :=
  unfold history, join, tryCatch, joinTry, joinCatch, joinMeeting,
    handleUpload, callPatchBotStatus, pushState, await, bind, ret, throw,
    initial.

Ltac join_cases :=
  repeat match goal with
    | |- context [match ?x with Returned _ => _ | Thrown _ => _ end] =>
        let H := fresh "Hcall" in
        destruct x as [[] | ?] eqn:H; cbn
    | |- context [if instanceofWaitingAtLobbyRetryError ?e then _ else _] =>
        let H := fresh "Hlobby" in
        destruct (instanceofWaitingAtLobbyRetryError e) eqn:H; cbn
    end.

(** X4: whatever the collaborators do, the status service is told the
    final history: [patchBotStatus] is called once or twice, and the
    snapshot of its last call is the history the session ends with. *)
Theorem join_reports_final_history (c : Collaborators) :
  reported (snd (join c)) <> [] /\
  last (reported (snd (join c))) [] = history c /\
  (List.length (reported (snd (join c))) <= 2)%nat.
Proof.
  join_unfold. destruct c as [enter record patch upload lobby]. cbn.
  join_cases; repeat split; solve [ discriminate | cbn; lia ].
Qed.

(** X5: [join] is fulfilled exactly when entering the meeting, the
    recording, the status report of [processing; joined; finished] and
    the upload have all returned. *)
Theorem join_fulfils_iff_every_step_returned (c : Collaborators) :
  fst (join c) = Returned tt <->
  enterMeeting c = Returned tt /\
  recordMeetingPage c = Returned tt /\
  patchBotStatus c [processing; joined; finished] = Returned tt /\
  uploadRecordingToRemoteStorage c = Returned tt.
Proof.
  join_unfold. destruct c as [enter record patch upload lobby]. cbn.
  destruct enter as [[] | e1]; cbn;
    [ destruct record as [[] | e2]; cbn;
      [ destruct (patch [processing; joined; finished]) as [[] | e3] eqn:Hp;
        cbn; rewrite ?Hp; cbn;
        [ destruct upload as [[] | e4]; cbn; rewrite ?Hp; cbn | ]
      | ]
    | ].
  all: join_cases.
  all: split; [ try discriminate; auto | intros (H1 & H2 & H3 & H4) ];
    solve [ reflexivity | discriminate ].
Qed.



End ZoomBotJoinFacts.

Section ZoomBotJoinExamples.
Import ZoomBot.


End ZoomBotJoinExamples.

(* --------------------------------------------------------------------- *)
(** ** The page after a stop *)
(* --------------------------------------------------------------------- *)

Section PageStopFacts.
Import RecordingTask.

Variables duration inactivityLimit activateInactivityDetectionAfter : Z.
Variable dom : Z -> DomSnapshot.
Variable silent : Z -> bool.
Variable stopThrowsWhenInactive : bool.

Local Abbreviation stop := (stopTheRecording stopThrowsWhenInactive).
Local Abbreviation step1 :=
  (step inactivityLimit dom silent stopThrowsWhenInactive).
Local Abbreviation run :=
  (steps inactivityLimit dom silent stopThrowsWhenInactive).
Local Abbreviation fire1 :=
  (fire inactivityLimit dom silent stopThrowsWhenInactive).

Lemma settled_note n p :
  n <> ScreenAppMeetEnd -> settled p -> settled (note n p).
Proof.
  unfold settled, note. cbn. intros Hn.
  destruct (state p); rewrite map_app, in_app_iff; cbn; intuition congruence.
Qed.

Lemma settled_setMonitor b p : settled p -> settled (setMonitor b p).
Proof. exact (fun H => H). Qed.

Lemma settled_setSilenceDuration d p :
  settled p -> settled (setSilenceDuration d p).
Proof. exact (fun H => H). Qed.

Lemma settled_clearTimer cb p : settled p -> settled (clearTimer cb p).
Proof.
  unfold settled, clearTimer, withTimers. cbn.
  destruct (state p); [ | exact (fun H => H) ].
  intros (Ht & Hn & Hl). split; [ exact Ht | ]. split; [ exact Hn | ].
  rewrite Forall_forall in *. intros t Hin. apply filter_In in Hin.
  apply Hl, Hin.
Qed.

Lemma settled_setTimeout cb ms p :
  cb = LoneTest \/ cb = MonitorSilence ->
  settled p -> settled (setTimeout cb ms p).
Proof.
  unfold settled, setTimeout, withTimers. cbn. intros Hcb.
  destruct (state p); [ | exact (fun H => H) ].
  intros (Ht & Hn & Hl). split; [ exact Ht | ]. split; [ exact Hn | ].
  apply Forall_app. split; [ exact Hl | ]. constructor; [ exact Hcb | constructor ].
Qed.

Lemma settled_stop p : settled p -> settled (stop p).
Proof.
  intros H. unfold stopTheRecording.
  assert (H1 : settled (note TriggerStop p))
    by (apply settled_note; [ discriminate | exact H ]).
  cbn zeta.
  assert (Hdone :
            settled
              (note ScreenAppMeetEnd
                 (clearTimer ActivateInactivityDetection
                    (clearTimer StopAfterDuration
                       (stopRecorderAndTracks (note TriggerStop p)))))).
  { unfold settled. cbn. split; [ reflexivity | ]. split.
    - rewrite !map_app, !in_app_iff. cbn. auto.
    - rewrite Forall_forall. intros t Hin.
      apply filter_In in Hin. destruct Hin as [Hin Ha].
      apply filter_In in Hin. destruct Hin as [_ Hs].
      destruct (callback t); cbn in Ha, Hs; try discriminate; auto. }
  destruct (state (note TriggerStop p)), stopThrowsWhenInactive;
    [ exact H1 | exact Hdone | exact Hdone | exact Hdone ].
Qed.

Lemma settled_loneTestBody p :
  settled p -> settled (loneTestBody dom stopThrowsWhenInactive p).
Proof.
  intros H. unfold loneTestBody. cbn zeta.
  destruct (broken (dom (now p)));
    [ apply settled_note; [ discriminate | exact H ] | ].
  match goal with
  | |- settled (match _ with Some _ => _ | None => _ end) => idtac
  end.
  assert (H1 : settled
                 (if okButton (dom (now p))
                  then
                    if meetingEnded (dom (now p))
                    then stop (setMonitor false
                                 (clearTimer LoneTest (note ClickedOk p)))
                    else note ClickedOk p
                  else p)).
  { destruct (okButton (dom (now p))); [ | exact H ].
    assert (Hc : settled (note ClickedOk p))
      by (apply settled_note; [ discriminate | exact H ]).
    destruct (meetingEnded (dom (now p))); [ | exact Hc ].
    apply settled_stop, settled_setMonitor, settled_clearTimer, Hc. }
  destruct (participants (dom (now p))) as [k | ].
  - destruct (k >? 1); [ exact H1 | ].
    apply settled_stop, settled_setMonitor, settled_clearTimer, H1.
  - apply settled_note; [ discriminate | exact H1 ].
Qed.

Lemma settled_monitorSilence p :
  settled p ->
  settled (monitorSilence inactivityLimit silent stopThrowsWhenInactive p).
Proof.
  intros H. unfold monitorSilence. cbn zeta.
  match goal with
  | |- settled (if monitor ?q then _ else _) =>
      assert (H1 : settled q); [ | destruct (monitor q);
        [ apply settled_setTimeout; [ right; reflexivity | exact H1 ]
        | exact H1 ] ]
  end.
  destruct (silent (now p)); [ | apply settled_setSilenceDuration, H ].
  match goal with
  | |- settled (if ?b then _ else _) => destruct b
  end.
  - apply settled_stop, settled_clearTimer, settled_setMonitor,
      settled_setSilenceDuration, H.
  - apply settled_setSilenceDuration, H.
Qed.

Lemma settled_fire cb p : settled p -> settled (fire1 cb p).
Proof.
  intros H. destruct cb; cbn [fire].
  - apply settled_stop, H.
  - apply settled_monitorSilence, settled_setTimeout;
      [ left; reflexivity | exact H ].
  - apply settled_loneTestBody, settled_setTimeout;
      [ left; reflexivity | exact H ].
  - apply settled_monitorSilence, H.
Qed.

Lemma settled_step p p' : settled p -> step1 p = Some p' -> settled p'.
Proof.
  intros H Hstep. unfold step in Hstep.
  destruct (next (timers p)) as [[t rest] | ] eqn:Hnext;
    [ | discriminate Hstep ].
  injection Hstep as <-. apply settled_fire.
  destruct (next_spec _ _ _ Hnext) as [Hin _].
  unfold settled, due in *. cbn.
  destruct (state p); [ | exact H ].
  destruct H as (Ht & Hn & Hl). split; [ exact Ht | ]. split; [ exact Hn | ].
  rewrite Forall_forall in *. intros u Hu. apply Hl, Hin. right. exact Hu.
Qed.

Lemma settled_run n : forall p p', settled p -> run n p = Some p' -> settled p'.
Proof.
  induction n as [ | n IH]; intros p p' H Hrun; cbn in Hrun.
  - injection Hrun as <-. exact H.
  - destruct (step1 p) as [q | ] eqn:Hstep; [ | discriminate Hrun ].
    exact (IH q p' (settled_step p q H Hstep) Hrun).
Qed.

(** X8: the recorder and the end-of-meeting signal agree.  In every state
    the page reaches after [startRecording], whatever the meeting and the
    audio do: as long as the recorder runs its tracks are live and
    [screenAppMeetEnd] has not been called; once the recorder is inactive
    the tracks are stopped, [screenAppMeetEnd] has been called, and neither
    the timer of the hard ceiling nor the timer that activates the
    inactivity detection is pending any more. *)
Theorem stopped_page_is_cleaned_up n p :
  run n (started duration activateInactivityDetectionAfter) = Some p ->
  (state p = recording ->
   tracksStopped p = false /\ ~ In ScreenAppMeetEnd (map snd (notes p))) /\
  (state p = inactive ->
   tracksStopped p = true /\
   In ScreenAppMeetEnd (map snd (notes p)) /\
   forall t, In t (timers p) ->
             callback t <> StopAfterDuration /\
             callback t <> ActivateInactivityDetection).
Proof.
  intros Hrun.
  assert (H : settled p).
  { apply (settled_run n (started duration activateInactivityDetectionAfter));
      [ | exact Hrun ].
    unfold settled. cbn. split; [ reflexivity | intros [] ]. }
  unfold settled in H. destruct (state p).
  - split; [ discriminate | ]. intros _.
    destruct H as (Ht & Hn & Hl). split; [ exact Ht | ]. split; [ exact Hn | ].
    rewrite Forall_forall in Hl. intros t Hin.
    destruct (Hl t Hin) as [Hc | Hc]; rewrite Hc; split; discriminate.
  - split; [ intros _; exact H | discriminate ].
Qed.

End PageStopFacts.

Section PageStopExamples.
Import RecordingTask PageExamples.

(** A one-minute ceiling in a busy meeting, after the ceiling has run. *)
Lemma stopped_page_is_cleaned_up_witness :
  exists p,
    steps 60000 busyMeeting talking false 700 (started 60000 30000) = Some p /\
    state p = inactive /\
    tracksStopped p = true /\
    In ScreenAppMeetEnd (map snd (notes p)).
Proof.
  destruct (steps 60000 busyMeeting talking false 700 (started 60000 30000))
    as [p | ] eqn:Hrun; [ | vm_compute in Hrun; discriminate Hrun ].
  exists p. split; [ reflexivity | ].
  assert (Hs : state p = inactive).
  { vm_compute in Hrun. injection Hrun as <-. reflexivity. }
  split; [ exact Hs | ].
  destruct (stopped_page_is_cleaned_up 60000 60000 30000 busyMeeting talking
              false 700 p Hrun) as [_ H].
  destruct (H Hs) as (Ht & Hn & _). split; [ exact Ht | exact Hn ].
Defined.

End PageStopExamples.

(* --------------------------------------------------------------------- *)
(** ** No stop before the detection is active *)
(* --------------------------------------------------------------------- *)

Section PageEarliestStop.
Import RecordingTask.

Variables duration inactivityLimit activateInactivityDetectionAfter : Z.
Variable dom : Z -> DomSnapshot.
Variable silent : Z -> bool.
Variable stopThrowsWhenInactive : bool.

Local Abbreviation step1 :=
  (step inactivityLimit dom silent stopThrowsWhenInactive).
Local Abbreviation run :=
  (steps inactivityLimit dom silent stopThrowsWhenInactive).
Local Abbreviation fire1 :=
  (fire inactivityLimit dom silent stopThrowsWhenInactive).

Lemma step_not_before m p p' :
  Forall (fun t => m <= deadline t) (timers p) ->
  step1 p = Some p' ->
  Forall (fun t => m <= deadline t) (timers p') /\ m <= now p'.
Proof.
  intros Hm Hstep. unfold step in Hstep.
  destruct (next (timers p)) as [[t rest] | ] eqn:Hnext;
    [ | discriminate Hstep ].
  injection Hstep as <-.
  destruct (next_spec _ _ _ Hnext) as [Hin _].
  rewrite Forall_forall in Hm.
  assert (Ht : m <= deadline t) by (apply Hm, Hin; left; reflexivity).
  destruct (later_fire duration inactivityLimit dom silent
              stopThrowsWhenInactive (callback t) (due t rest p))
    as [Hnow Hlater].
  cbn in Hnow, Hlater. split; [ | lia ].
  rewrite Forall_forall. intros u Hu.
  destruct (Hlater u Hu) as [Hold | [Hnew _]]; [ | lia ].
  apply Hm, Hin. right. exact Hold.
Qed.

Lemma run_not_before m n :
  forall p p',
    Forall (fun t => m <= deadline t) (timers p) ->
    (state p = inactive -> m <= now p) ->
    run n p = Some p' ->
    state p' = inactive -> m <= now p'.
Proof.
  induction n as [ | n IH]; intros p p' Hm Hs Hrun; cbn in Hrun.
  - injection Hrun as <-. exact Hs.
  - destruct (step1 p) as [q | ] eqn:Hstep; [ | discriminate Hrun ].
    destruct (step_not_before m p q Hm Hstep) as [Hm' Hnow].
    apply (IH q p' Hm'); [ intros _; exact Hnow | exact Hrun ].
Qed.

(** X9: the recording is not stopped before the inactivity detection is
    activated or the hard ceiling is due, whichever comes first: in every
    state the page reaches after [startRecording] with an inactive
    recorder, the clock shows at least the smaller of the two delays (as
    the page's timers take them). *)
Theorem no_stop_before_detection_or_ceiling n p :
  run n (started duration activateInactivityDetectionAfter) = Some p ->
  state p = inactive ->
  Z.min (timerDelay activateInactivityDetectionAfter) (timerDelay duration)
  <= now p.
Proof.
  apply run_not_before.
  - unfold started. cbn.
    constructor; [ cbn; lia | ]. constructor; [ cbn; lia | constructor ].
  - discriminate.
Qed.

End PageEarliestStop.

Section PageEarliestStopExamples.
Import RecordingTask PageExamples.

(** A meeting the bot is alone in: the detection starts after 30 s and
    the first look at the participants, 2 s later, stops the recorder. *)
Lemma no_stop_before_detection_or_ceiling_witness :
  exists p,
    steps 60000 emptyMeeting talking false 22 (started 3600000 30000) = Some p /\
    state p = inactive /\
    Z.min (timerDelay 30000) (timerDelay 3600000) <= now p.
Proof.
  destruct (steps 60000 emptyMeeting talking false 22 (started 3600000 30000))
    as [p | ] eqn:Hrun; [ | vm_compute in Hrun; discriminate Hrun ].
  exists p. split; [ reflexivity | ].
  assert (Hs : state p = inactive).
  { vm_compute in Hrun. injection Hrun as <-. reflexivity. }
  split; [ exact Hs | ].
  exact (no_stop_before_detection_or_ceiling 3600000 60000 30000 emptyMeeting
           talking false 22 p Hrun Hs).
Defined.

End PageEarliestStopExamples.

(* --------------------------------------------------------------------- *)
(** ** The way into the web client *)
(* --------------------------------------------------------------------- *)

Section JoinFromBrowserFacts.
Import JoinFromBrowser.

Variable page : nat -> Look.

Lemma find_done retry looks :
  retry >= attempts ->
  findAndEnableJoinFromBrowserButton page retry looks = (Returned false, looks).
Proof.
  intros H. rewrite findAndEnableJoinFromBrowserButton_equation_1.
  destruct (Z_ge_lt_dec retry attempts); [ reflexivity | lia ].
Qed.

Lemma find_look retry looks :
  retry < attempts ->
  findAndEnableJoinFromBrowserButton page retry looks =
  match page looks with
  | Clicked => (Returned true, S looks)
  | Absent =>
      match findAndEnableJoinFromBrowserButton page (retry + 1) (S looks) with
      | (Returned found, looks') => (Returned found, looks')
      | (Thrown _, looks') =>
          if retry >=? attempts then (Returned false, looks')
          else findAndEnableJoinFromBrowserButton page (retry + 1) looks'
      end
  | LookThrew _ =>
      if retry >=? attempts then (Returned false, S looks)
      else findAndEnableJoinFromBrowserButton page (retry + 1) (S looks)
  end.
Proof.
  intros H. rewrite findAndEnableJoinFromBrowserButton_equation_1.
  destruct (Z_ge_lt_dec retry attempts); [ lia | ].
  cbn. destruct (page looks); reflexivity.
Qed.

Lemma find_spec n :
  forall retry looks,
    Z.to_nat (attempts - retry) = n ->
    exists found looks',
      findAndEnableJoinFromBrowserButton page retry looks
      = (Returned found, looks') /\
      (looks <= looks')%nat /\
      (Z.of_nat (looks' - looks) <= Z.max 0 (attempts - retry)) /\
      (forall i, (looks <= i)%nat ->
                 (i < looks' - (if found then 1 else 0))%nat ->
                 page i <> Clicked) /\
      (found = true -> (looks < looks')%nat /\ page (looks' - 1)%nat = Clicked) /\
      (found = false ->
       Z.of_nat (looks' - looks) = Z.max 0 (attempts - retry)).
Proof.
  induction n as [n IH] using lt_wf_ind. intros retry looks Hn.
  destruct (Z_ge_lt_dec retry attempts) as [Hge | Hlt].
  - rewrite (find_done retry looks Hge).
    exists false, looks. split; [ reflexivity | ].
    split; [ lia | ]. split; [ lia | ]. split; [ intros i; lia | ].
    split; [ discriminate | intros _; lia ].
  - rewrite (find_look retry looks Hlt).
    destruct (IH (Z.to_nat (attempts - (retry + 1))) ltac:(lia) (retry + 1)
                (S looks) eq_refl)
      as (found & looks' & Hrec & Hle & Hbound & Hnot & Htrue & Hfalse).
    assert (Hgo :
              page looks <> Clicked ->
              exists found0 looks0,
                findAndEnableJoinFromBrowserButton page (retry + 1) (S looks)
                = (Returned found0, looks0) /\
                (looks <= looks0)%nat /\
                Z.of_nat (looks0 - looks) <= Z.max 0 (attempts - retry) /\
                (forall i, (looks <= i)%nat ->
                           (i < looks0 - (if found0 then 1 else 0))%nat ->
                           page i <> Clicked) /\
                (found0 = true ->
                 (looks < looks0)%nat /\ page (looks0 - 1)%nat = Clicked) /\
                (found0 = false ->
                 Z.of_nat (looks0 - looks) = Z.max 0 (attempts - retry))).
    { intros Hpage. exists found, looks'. split; [ exact Hrec | ].
      split; [ lia | ]. split; [ lia | ]. split; [ | split ].
      - intros i Hi Hi'. destruct (Nat.eq_dec i looks) as [-> | Hne];
          [ exact Hpage | apply Hnot; lia ].
      - intros Hf. destruct (Htrue Hf). split; [ lia | assumption ].
      - intros Hf. specialize (Hfalse Hf). lia. }
    destruct (page looks) as [ | | error] eqn:Hpage.
    + exists true, (S looks). split; [ reflexivity | ].
      split; [ lia | ]. split; [ lia | ]. split; [ | split ].
      * intros i Hi Hi'. lia.
      * intros _. split; [ lia | ].
        replace (S looks - 1)%nat with looks by lia. exact Hpage.
      * discriminate.
    + destruct (Hgo ltac:(discriminate)) as (f0 & l0 & Hr0 & Hrest).
      rewrite Hr0. exists f0, l0. split; [ reflexivity | exact Hrest ].
    + destruct (Z.geb_spec retry attempts); [ lia | ].
      destruct (Hgo ltac:(discriminate)) as (f0 & l0 & Hr0 & Hrest).
      exists f0, l0. split; [ exact Hr0 | exact Hrest ].
Qed.

(** X10: [findAndEnableJoinFromBrowserButton(0)] never rejects and takes
    at most three looks at the page (5 s of waiting before each).  It
    answers [true] exactly when one of these looks found the link and
    clicked it, and that look is its last one; it answers [false] only
    after three looks that did not. *)
Theorem find_join_from_browser_three_looks :
  exists found looks,
    findAndEnableJoinFromBrowserButton page 0 0 = (Returned found, looks) /\
    (looks <= 3)%nat /\
    (forall i, (i < looks - (if found then 1 else 0))%nat ->
               page i <> Clicked) /\
    (found = true -> (0 < looks)%nat /\ page (looks - 1)%nat = Clicked) /\
    (found = false -> looks = 3%nat).
Proof.
  destruct (find_spec _ 0 0%nat eq_refl)
    as (found & looks & Hrun & _ & Hbound & Hnot & Htrue & Hfalse).
  unfold attempts in Hbound, Hfalse.
  exists found, looks. split; [ exact Hrun | ]. split; [ lia | ].
  split; [ intros i Hi; apply Hnot; lia | ]. split; [ exact Htrue | ].
  intros Hf. specialize (Hfalse Hf). lia.
Qed.

End JoinFromBrowserFacts.

Section NavFacts.
Import JoinFromBrowser.

Variable page : nat -> NavLook.

(** X11: the wait for the navigation away from the landing page comes to
    an end within four ticks of its 6 s interval, whatever the page
    shows: the promise is resolved once and the interval is cleared.  It
    is resolved with [true] at the first of the first three ticks at which
    the link is gone (or the wait for it timed out), and with [false] at
    the fourth tick when the link was still there at all three. *)
Theorem nav_wait_resolves_within_four_ticks n :
  exists found,
    answer (interval page (4 + n) waiting) = Some found /\
    cleared (interval page (4 + n) waiting) = true /\
    (ticks (interval page (4 + n) waiting) <= 4)%nat /\
    found = existsb isGone (map page (seq 0 3)) /\
    (found = true ->
     isGone (page (ticks (interval page (4 + n) waiting) - 1)%nat) = true /\
     forall i, (i < ticks (interval page (4 + n) waiting) - 1)%nat ->
               isGone (page i) = false) /\
    (found = false -> ticks (interval page (4 + n) waiting) = 4%nat).
Proof.
  change (4 + n)%nat with (S (S (S (S n)))).
  cbn [interval waiting cleared ticks]. unfold tick. cbn.
  destruct (page 0%nat) eqn:H0; cbn;
    try (destruct (page 1%nat) eqn:H1; cbn);
    try (destruct (page 2%nat) eqn:H2; cbn);
    try (destruct (page 3%nat) eqn:H3; cbn);
    destruct n; cbn.
  all: eexists; split; [ reflexivity | ]; split; [ reflexivity | ];
    split; [ lia | ]; split; [ reflexivity | ];
    (split;
     [ intros Hf;
       first
         [ discriminate Hf
         | split; [ rewrite ?H0, ?H1, ?H2, ?H3; reflexivity | ];
           intros i Hi; destruct i as [ | [ | [ | i]]]; try lia;
           rewrite ?H0, ?H1, ?H2, ?H3; reflexivity ]
     | intros Hf; first [ discriminate Hf | reflexivity ] ]).
Qed.

End NavFacts.

(* --------------------------------------------------------------------- *)
(** ** The container of the web client *)
(* --------------------------------------------------------------------- *)

Section AppContainerFacts.
Import AppContainer.

Variable page : nat -> Kind -> Lookup.
Variable uploadDebugImage : nat -> Completion unit.

Ltac detect_cases :=
  repeat match goal with
    | |- context [match page ?i ?k with _ => _ end] =>
        let H := fresh "Hlook" in destruct (page i k) eqn:H; cbn
    | |- context [match uploadDebugImage ?i with _ => _ end] =>
        let H := fresh "Hupload" in
        destruct (uploadDebugImage i) as [[] | ?] eqn:H; cbn
    end.

(** X12: [detectAppContainer] comes to an end and looks for each kind of
    container at most once, the requested kind first.  It answers [true]
    exactly when its last look found the container, and [iframe] then
    refers to that container; it is rejected only with an error of
    [uploadDebugImage], and at most two debug images are uploaded. *)
Theorem detectAppContainer_looks_once_per_kind (startWith : Kind) n :
  exists r s,
    detectAppContainer page uploadDebugImage (3 + n) startWith initial
    = Some (r, s) /\
    (lookups s = [startWith] \/ lookups s = [startWith; other startWith]) /\
    (r = Returned true <->
     isPresent (page (List.length (lookups s) - 1)%nat
                     (last (lookups s) startWith)) = true) /\
    (r = Returned true -> frame s = frameOf (last (lookups s) startWith)) /\
    (forall error, r = Thrown error ->
                   exists i, uploadDebugImage i = Thrown error) /\
    (uploads s <= 2)%nat.
Proof.
  change (3 + n)%nat with (S (S (S n))).
  destruct startWith; cbn; detect_cases;
    try (destruct n; cbn; detect_cases).
  all: eexists; eexists; split; [ reflexivity | ]; cbn.
  all: split; [ first [ left; reflexivity | right; reflexivity ] | ].
  all: split;
    [ split; intros Hr; first [ discriminate Hr | reflexivity | idtac ];
      cbn in *; rewrite ?Hlook, ?Hlook0 in *;
      first [ discriminate | reflexivity ]
    | ].
  all: split; [ intros Hr; first [ discriminate Hr | reflexivity ] | ].
  all: split; [ | lia ].
  all: intros err Hr; first [ discriminate Hr | idtac ];
    injection Hr as <-; eauto.
Qed.

(** X13: when no upload of a debug image fails, [detectAppContainer]
    answers [true] exactly when the container of the requested kind is
    there at the first look or, failing that, the container of the other
    kind is there at the second look. *)
Theorem detectAppContainer_answer (startWith : Kind) n :
  (forall i, uploadDebugImage i = Returned tt) ->
  exists s,
    detectAppContainer page uploadDebugImage (3 + n) startWith initial
    = Some (Returned (isPresent (page 0%nat startWith)
                      || isPresent (page 1%nat (other startWith))), s).
Proof.
  intros Hup. change (3 + n)%nat with (S (S (S n))).
  destruct startWith; cbn; rewrite ?Hup; cbn;
    repeat match goal with
      | |- context [match page ?i ?k with _ => _ end] =>
          destruct (page i k); cbn; rewrite ?Hup; cbn
      end;
    try (destruct n; cbn; rewrite ?Hup; cbn);
    eexists; reflexivity.
Qed.

End AppContainerFacts.

Section AppContainerExamples.
Import AppContainer.

(** The web client sits in the iframe and the page itself has no name
    field: the look for ['app'] times out, the look for ['iframe']
    succeeds. *)
Lemma detectAppContainer_answer_witness :
  exists s,
    detectAppContainer
      (fun _ kind =>
         match kind with
         | app => LookupThrew
                    (mkJsError UnclassifiedError "TimeoutError" "waitForSelector"
                               false 0)
         | iframe => Present
         end)
      (fun _ => Returned tt) (3 + 0) app initial
    = Some (Returned true, s).
Proof.
  exact (detectAppContainer_answer
           (fun _ kind =>
              match kind with
              | app => LookupThrew
                         (mkJsError UnclassifiedError "TimeoutError"
                                    "waitForSelector" false 0)
              | iframe => Present
              end)
           (fun _ => Returned tt) app 0 (fun _ => eq_refl)).
Defined.

End AppContainerExamples.

(* --------------------------------------------------------------------- *)
(** ** The registration form of a webinar *)
(* --------------------------------------------------------------------- *)

Section NameTokens.
Import WebinarRegistration.

Lemma append_empty (s : string) : String.append s EmptyString = s.
Proof. induction s as [ | c s IH]; cbn; [ | rewrite IH ]; reflexivity. Qed.

Lemma append_assoc (a b c : string) :
  String.append (String.append a b) c = String.append a (String.append b c).
Proof. induction a as [ | x a IH]; cbn; [ | rewrite IH ]; reflexivity. Qed.

Lemma trimStart_word w s :
  isWord w = true -> trimStart (String.append w s) = String.append w s.
Proof.
  destruct w as [ | c w]; [ discriminate | ]. unfold isWord. cbn.
  destruct (isWhiteSpace c); [ discriminate | reflexivity ].
Qed.

Lemma trimEnd_noWhiteSpace w : noWhiteSpace w = true -> trimEnd w = w.
Proof.
  induction w as [ | c w IH]; [ reflexivity | ]. cbn.
  destruct (isWhiteSpace c) eqn:Hc; [ discriminate | ]. cbn. intros Hw.
  rewrite (IH Hw). destruct w; reflexivity.
Qed.

Lemma trimEnd_word s w :
  isWord w = true -> trimEnd (String.append s w) = String.append s w.
Proof.
  intros Hw. induction s as [ | c s IH]; cbn.
  - apply trimEnd_noWhiteSpace. unfold isWord in Hw.
    apply andb_true_iff in Hw. apply Hw.
  - rewrite IH. destruct (String.append s w) eqn:Hsw; [ | reflexivity ].
    destruct s; [ | discriminate Hsw ].
    cbn in Hsw. subst w. discriminate Hw.
Qed.

Lemma split_not_nil s : split s <> [].
Proof.
  induction s as [ | c s IH]; cbn; [ discriminate | ].
  destruct (isWhiteSpace c).
  - destruct (startsWithWhiteSpace s); [ exact IH | discriminate ].
  - destruct (split s); discriminate.
Qed.

Lemma split_noWhiteSpace w s :
  noWhiteSpace w = true ->
  split (String.append w s) =
  match split s with
  | piece :: pieces => String.append w piece :: pieces
  | [] => [w]
  end.
Proof.
  induction w as [ | c w IH]; cbn.
  - intros _. destruct (split s) eqn:Hs; [ | reflexivity ].
    destruct (split_not_nil s Hs).
  - destruct (isWhiteSpace c); [ discriminate | ]. cbn. intros Hw.
    rewrite (IH Hw). destruct (split s); reflexivity.
Qed.

Lemma split_space_word w s :
  isWord w = true ->
  split (String " " (String.append w s)) =
  EmptyString :: split (String.append w s).
Proof.
  intros Hw. destruct w as [ | c w]; [ discriminate Hw | ].
  unfold isWord in Hw. cbn in Hw.
  cbn [split String.append startsWithWhiteSpace].
  change (isWhiteSpace " ") with true. cbn iota.
  destruct (isWhiteSpace c); [ discriminate Hw | reflexivity ].
Qed.

(** The words written with single spaces between them. *)
Lemma concat_words w l :
  String.concat " " (w :: l) =
  String.append w
    (match l with
     | [] => EmptyString
     | _ :: _ => String " " (String.concat " " l)
     end).
Proof. destruct l; cbn; [ rewrite append_empty | ]; reflexivity. Qed.

Lemma concat_ends_with_word l :
  Forall (fun w => isWord w = true) l -> l <> [] ->
  exists s w, isWord w = true /\ String.concat " " l = String.append s w.
Proof.
  induction 1 as [ | w l Hw Hl IH]; [ congruence | intros _ ].
  destruct l as [ | w' l].
  - exists EmptyString, w. split; [ exact Hw | reflexivity ].
  - destruct (IH ltac:(discriminate)) as (s & u & Hu & Hs).
    exists (String.append w (String " " s)), u. split; [ exact Hu | ].
    rewrite concat_words, Hs, append_assoc. reflexivity.
Qed.

Lemma concat_starts_with_word l :
  Forall (fun w => isWord w = true) l -> l <> [] ->
  exists w s, isWord w = true /\ String.concat " " l = String.append w s.
Proof.
  intros Hl Hne. destruct l as [ | w l]; [ congruence | ].
  inversion Hl; subst. eexists w, _. split; [ assumption | ].
  apply concat_words.
Qed.

Lemma split_words l :
  Forall (fun w => isWord w = true) l -> l <> [] ->
  split (String.concat " " l) = l.
Proof.
  induction 1 as [ | w l Hw Hl IH]; [ congruence | intros _ ].
  assert (Hn : noWhiteSpace w = true)
    by (unfold isWord in Hw; apply andb_true_iff in Hw; apply Hw).
  rewrite concat_words, (split_noWhiteSpace w _ Hn).
  destruct l as [ | w' l].
  - cbn. rewrite append_empty. reflexivity.
  - destruct (concat_starts_with_word (w' :: l) Hl ltac:(discriminate))
      as (u & s & Hu & Hs).
    rewrite Hs, (split_space_word u s Hu), <- Hs, append_empty.
    rewrite IH by discriminate. reflexivity.
Qed.

Lemma filter_words l :
  Forall (fun w => isWord w = true) l -> filter nonEmpty l = l.
Proof.
  induction 1 as [ | w l Hw Hl IH]; [ reflexivity | ]. cbn.
  unfold isWord in Hw. apply andb_true_iff in Hw. destruct Hw as [-> _].
  rewrite IH. reflexivity.
Qed.

(** The tokens of a name written as words with single spaces between
    them are these words. *)
Lemma tokensOf_words l :
  Forall (fun w => isWord w = true) l ->
  tokensOf (Some (String.concat " " l)) = l.
Proof.
  intros Hl. unfold tokensOf, trim.
  destruct l as [ | w l]; [ reflexivity | ].
  destruct (concat_starts_with_word (w :: l) Hl ltac:(discriminate))
    as (u & s & Hu & Hs).
  destruct (concat_ends_with_word (w :: l) Hl ltac:(discriminate))
    as (s' & u' & Hu' & Hs').
  rewrite Hs, (trimStart_word u s Hu), <- Hs.
  rewrite Hs', (trimEnd_word s' u' Hu'), <- Hs'.
  rewrite (split_words (w :: l) Hl) by discriminate.
  apply filter_words, Hl.
Qed.

Lemma truthy_word w : isWord w = true -> truthy (Some w) = true.
Proof. unfold isWord. intros H. apply andb_true_iff in H. apply H. Qed.

(** X14: the names taken from the display name.  For a display name
    written as words with single spaces between them, a first name the
    registration does not give is the first word, and a last name it
    does not give is the rest of the words, when there is a rest; names
    the registration gives are kept, and so are e-mail and phone. *)
Theorem registration_names_from_display_name registration (l : list string) :
  Forall (fun w => isWord w = true) l ->
  buildWebinarRegistrationDetails (Some registration)
    (Some (String.concat " " l)) =
  mkDetails
    (if truthy (firstName registration) then firstName registration
     else match l with
          | w :: _ => Some w
          | [] => firstName registration
          end)
    (if truthy (lastName registration) then lastName registration
     else match l with
          | _ :: w :: rest => Some (String.concat " " (w :: rest))
          | _ => lastName registration
          end)
    (email registration) (phone registration).
Proof.
  intros Hl. unfold buildWebinarRegistrationDetails.
  rewrite (tokensOf_words l Hl).
  destruct registration as [fn ln em ph]. cbn [firstName lastName email phone].
  destruct (truthy fn), (truthy ln); cbn [negb orb andb];
    try reflexivity;
    destruct l as [ | w [ | w' rest]]; cbn [List.length skipn nth];
    repeat match goal with
      | |- context [?a <? ?b] => destruct (Z.ltb_spec a b); try lia
      end;
    reflexivity.
Qed.

End NameTokens.

Section NameTokenExamples.
Import WebinarRegistration.

(** The default name of the bot, with an e-mail address given. *)
Lemma registration_names_from_display_name_witness :
  buildWebinarRegistrationDetails
    (Some (mkDetails None None (Some "bot@example.com"%string) None))
    (Some (String.concat " " ["ScreenApp"%string; "Notetaker"%string])) =
  mkDetails (Some "ScreenApp"%string) (Some "Notetaker"%string)
            (Some "bot@example.com"%string) None.
Proof.
  apply (registration_names_from_display_name
           (mkDetails None None (Some "bot@example.com"%string) None)
           ["ScreenApp"%string; "Notetaker"%string]).
  repeat constructor.
Defined.

End NameTokenExamples.

Section RegistrationFormFacts.
Import WebinarRegistration.

Variable page : Page.
Variable webinarRegistration : option Details.
Variable name : option string.

Local Abbreviation details :=
  (buildWebinarRegistrationDetails webinarRegistration name).
Local Abbreviation input :=
  (fun field => findVisibleInput (inputs page field)).
Local Abbreviation outcome :=
  (tryCompleteWebinarRegistration page webinarRegistration name []).

Lemma fillIf_bind {B : Type} field i v (k : unit -> M B) log :
  (found i && truthy v = false /\
   bind (fillIf page field i v) k log = k tt log) \/
  (exists s,
      v = Some s /\ nonEmpty s = true /\ found i = true /\
      ((fill page field = Returned tt /\
        bind (fillIf page field i v) k log = k tt (log ++ [Fill field s])) \/
       (exists error,
           fill page field = Thrown error /\
           bind (fillIf page field i v) k log
           = (Thrown error, log ++ [Fill field s])))).
Proof.
  unfold bind, fillIf, act, ret.
  destruct i as [i | ]; [ | left; split; reflexivity ].
  destruct v as [[ | c s] | ];
    [ left; split; reflexivity | | left; split; reflexivity ].
  right. exists (String c s). repeat split.
  destruct (fill page field) as [[] | error]; [ left | right; exists error ];
    split; reflexivity.
Qed.

(** The end of the function, from the look for a reCAPTCHA on. *)
Lemma submit_paths log :
  exists r rest,
    (if hasVisibleRecaptchaValidator page then throw visibleRecaptcha
     else
       bind (clickWebinarRegisterButton page)
         (fun submitted =>
            if negb submitted then ret false
            else bind (act WaitForLoadState (Returned tt))
                      (fun _ => ret true))) log
    = (r, log ++ rest) /\
    ((rest = [] /\ r = Thrown visibleRecaptcha /\
      hasVisibleRecaptchaValidator page = true) \/
     (hasVisibleRecaptchaValidator page = false /\
      ((rest = [] /\ r = Returned false /\
        forall button, isVisible (buttonVisible page button) = false) \/
       (exists button,
           isVisible (buttonVisible page button) = true /\
           ((rest = [Click button] /\
             exists error, click page button = Thrown error /\
                           r = Thrown error) \/
            (rest = [Click button; WaitForLoadState] /\
             click page button = Returned tt /\
             r = Returned true)))))).
Proof.
  unfold bind, clickWebinarRegisterButton, act, ret, throw.
  destruct (hasVisibleRecaptchaValidator page) eqn:Hcap.
  { exists (Thrown visibleRecaptcha), []. rewrite app_nil_r.
    split; [ reflexivity | left; repeat split ]. }
  destruct (isVisible (buttonVisible page RegisterButton)) eqn:Hb1.
  { unfold bind. destruct (click page RegisterButton) as [[] | e1] eqn:Hc1; cbn.
    - exists (Returned true), [Click RegisterButton; WaitForLoadState].
      rewrite <- app_assoc. split; [ reflexivity | ].
      right. split; [ reflexivity | ]. right. exists RegisterButton.
      split; [ exact Hb1 | ]. right. repeat split. exact Hc1.
    - exists (Thrown e1), [Click RegisterButton].
      split; [ reflexivity | ].
      right. split; [ reflexivity | ]. right. exists RegisterButton.
      split; [ exact Hb1 | ]. left. split; [ reflexivity | ].
      exists e1. split; [ exact Hc1 | reflexivity ]. }
  destruct (isVisible (buttonVisible page SubmitInput)) eqn:Hb2.
  { unfold bind. destruct (click page SubmitInput) as [[] | e2] eqn:Hc2; cbn.
    - exists (Returned true), [Click SubmitInput; WaitForLoadState].
      rewrite <- app_assoc. split; [ reflexivity | ].
      right. split; [ reflexivity | ]. right. exists SubmitInput.
      split; [ exact Hb2 | ]. right. repeat split. exact Hc2.
    - exists (Thrown e2), [Click SubmitInput].
      split; [ reflexivity | ].
      right. split; [ reflexivity | ]. right. exists SubmitInput.
      split; [ exact Hb2 | ]. left. split; [ reflexivity | ].
      exists e2. split; [ exact Hc2 | reflexivity ]. }
  exists (Returned false), []. rewrite app_nil_r. split; [ reflexivity | ].
  right. split; [ reflexivity | ]. left. repeat split.
  intros []; assumption.
Qed.

Ltac fills_ok :=
  repeat (apply Forall_cons;
          [ eexists; eexists; split; [ reflexivity | ];
            cbn [valueOf]; auto | ]);
  apply Forall_nil.

(** What the function has done when it ends, whichever way: the fields
    typed into, whether the form was submitted, and the answer. *)
Lemma tryComplete_paths :
  (fst outcome = Returned false /\ snd outcome = [] /\
   found (input FirstName) || found (input LastName) || found (input Email)
   = false) \/
  ((exists missing, fst outcome = Thrown (missingDetails missing)) /\
   snd outcome = [] /\
   exists field,
     found (input field) = true /\ truthy (valueOf details field) = false) \/
  ((forall field,
       found (input field) = true -> truthy (valueOf details field) = true) /\
   exists fills rest,
     snd outcome = fills ++ rest /\
     Forall (fun a => exists field s,
                 a = Fill field s /\ found (input field) = true /\
                 valueOf details field = Some s /\ nonEmpty s = true) fills /\
     ((rest = [] /\ (exists error, fst outcome = Thrown error) /\
       fills <> []) \/
      ((forall field,
           found (input field) = true -> exists s, In (Fill field s) fills) /\
       ((rest = [] /\ fst outcome = Thrown visibleRecaptcha /\
         hasVisibleRecaptchaValidator page = true) \/
        (hasVisibleRecaptchaValidator page = false /\
         ((rest = [] /\ fst outcome = Returned false /\
           forall button, isVisible (buttonVisible page button) = false) \/
          (exists button,
              isVisible (buttonVisible page button) = true /\
              ((rest = [Click button] /\
                exists error, click page button = Thrown error /\
                              fst outcome = Thrown error) \/
               (rest = [Click button; WaitForLoadState] /\
                click page button = Returned tt /\
                fst outcome = Returned true))))))))).
Proof.
  unfold tryCompleteWebinarRegistration. cbn zeta.
  destruct (found (input FirstName) || found (input LastName)
            || found (input Email)) eqn:Hform; cbn [negb];
    [ | left; repeat split ].
  right.
  destruct (found (input FirstName) && negb (truthy (firstName details)))
    eqn:H1;
    [ left; cbn; split; [ eexists; reflexivity | ]; split; [ reflexivity | ];
      exists FirstName; apply andb_true_iff in H1; destruct H1 as [-> H1];
      apply negb_true_iff in H1; auto | ].
  destruct (found (input LastName) && negb (truthy (lastName details)))
    eqn:H2;
    [ left; cbn; split; [ eexists; reflexivity | ]; split; [ reflexivity | ];
      exists LastName; apply andb_true_iff in H2; destruct H2 as [-> H2];
      apply negb_true_iff in H2; auto | ].
  destruct (found (input Email) && negb (truthy (email details))) eqn:H3;
    [ left; cbn; split; [ eexists; reflexivity | ]; split; [ reflexivity | ];
      exists Email; apply andb_true_iff in H3; destruct H3 as [-> H3];
      apply negb_true_iff in H3; auto | ].
  destruct (found (input Phone) && negb (truthy (phone details))) eqn:H4;
    [ left; cbn; split; [ eexists; reflexivity | ]; split; [ reflexivity | ];
      exists Phone; apply andb_true_iff in H4; destruct H4 as [-> H4];
      apply negb_true_iff in H4; auto | ].
  right. cbn [app List.length Z.of_nat Z.ltb Z.compare].
  assert (Hall : forall field,
             found (input field) = true ->
             truthy (valueOf details field) = true).
  { intros [ | | | ] Hf; cbn [valueOf];
      [ rewrite Hf in H1 | rewrite Hf in H2
      | rewrite Hf in H3 | rewrite Hf in H4 ];
      cbn in *;
      match goal with
      | H : negb ?b = false |- _ => apply negb_false_iff in H; exact H
      end. }
  split; [ exact Hall | ].
  clear H1 H2 H3 H4 Hform.
  repeat match goal with
    | |- context [bind (fillIf page ?f ?i ?v) ?k ?log] =>
        let Hskip := fresh "Hskip" in
        let Hval := fresh "Hval" in
        let Hne := fresh "Hne" in
        let Hfound := fresh "Hfound" in
        let Hfill := fresh "Hfill" in
        let Heq := fresh "Heq" in
        let s := fresh "s" in
        let error := fresh "error" in
        destruct (fillIf_bind f i v k log)
          as [[Hskip Heq]
             | (s & Hval & Hne & Hfound
                & [[Hfill Heq] | (error & Hfill & Heq)])];
        rewrite Heq; clear Heq; cbn [app]
    end.
  all: match goal with
       | |- context [(Thrown ?e, ?log)] =>
           exists log, []; rewrite app_nil_r;
           split; [ reflexivity | ];
           split; [ fills_ok | ];
           left; split; [ reflexivity | ];
           split; [ eexists; reflexivity | discriminate ]
       | |- context [(if hasVisibleRecaptchaValidator page then _ else _) ?log] =>
           destruct (submit_paths log) as (r & rest & Heq & Hrest);
           rewrite Heq; clear Heq;
           exists log, rest;
           split; [ reflexivity | ];
           split; [ fills_ok | ];
           right; split; [ | exact Hrest ]
       end.
  all: intros field Hf; pose proof (Hall field Hf) as Ht;
    destruct field; cbn [valueOf] in Ht;
    try match goal with
      | H : found _ && truthy _ = false |- _ =>
          rewrite Hf, Ht in H; discriminate H
      end;
    eexists; cbn; eauto 6.
Qed.

Lemma in_fills field s fills rest :
  Forall (fun a => exists field s,
              a = Fill field s /\ found (input field) = true /\
              valueOf details field = Some s /\ nonEmpty s = true) fills ->
  (rest = [] \/ (exists button, rest = [Click button]) \/
   (exists button, rest = [Click button; WaitForLoadState])) ->
  In (Fill field s) (fills ++ rest) ->
  found (input field) = true /\
  valueOf details field = Some s /\ nonEmpty s = true.
Proof.
  intros Hfills Hrest Hin. apply in_app_iff in Hin.
  destruct Hin as [Hin | Hin].
  - rewrite Forall_forall in Hfills.
    destruct (Hfills _ Hin) as (f & v & [= <- <-] & H). exact H.
  - destruct Hrest as [-> | [[b ->] | [b ->]]]; cbn in Hin;
      intuition discriminate.
Qed.

Lemma in_click button fills rest :
  Forall (fun a => exists field s,
              a = Fill field s /\ found (input field) = true /\
              valueOf details field = Some s /\ nonEmpty s = true) fills ->
  In (Click button) (fills ++ rest) -> In (Click button) rest.
Proof.
  intros Hfills Hin. apply in_app_iff in Hin.
  destruct Hin as [Hin | Hin]; [ | exact Hin ].
  rewrite Forall_forall in Hfills.
  destruct (Hfills _ Hin) as (f & v & Heq & _). discriminate Heq.
Qed.

Lemma clicks_of_fills fills rest :
  Forall (fun a => exists field s,
              a = Fill field s /\ found (input field) = true /\
              valueOf details field = Some s /\ nonEmpty s = true) fills ->
  filter isClick (fills ++ rest) = filter isClick rest.
Proof.
  induction 1 as [ | a fills (f & v & -> & _) _ IH]; [ reflexivity | ].
  cbn. exact IH.
Qed.

(** X15: the form is typed into all or nothing.  Whatever the page
    shows and whichever calls fail: every value typed into a field is
    the non-empty value the details hold for it, and the field has a
    visible input; nothing at all is typed unless the details hold a
    value for every field with a visible input; and when no input for a
    first name, a last name or an e-mail address is visible, the answer
    is [false] and the page is left alone, a visible phone input
    notwithstanding. *)
Theorem registration_types_all_or_nothing :
  (forall field s,
      In (Fill field s) (snd outcome) ->
      found (input field) = true /\
      valueOf details field = Some s /\ nonEmpty s = true) /\
  (snd outcome <> [] ->
   forall field,
     found (input field) = true -> truthy (valueOf details field) = true) /\
  (found (input FirstName) || found (input LastName) || found (input Email)
   = false ->
   outcome = (Returned false, [])).
Proof.
  destruct tryComplete_paths
    as [(Hr & Hlog & Hform)
       | [(_ & Hlog & _)
         | (Hall & fills & rest & Hlog & Hfills & Hrest)]].
  - rewrite Hlog. split; [ intros ? ? [] | ].
    split; [ congruence | ]. intros _.
    rewrite (surjective_pairing outcome), Hr, Hlog. reflexivity.
  - rewrite Hlog. split; [ intros ? ? [] | ].
    split; [ congruence | ].
    unfold tryCompleteWebinarRegistration. cbn zeta.
    intros ->. reflexivity.
  - split; [ | split ].
    + intros field s. rewrite Hlog. apply in_fills; [ exact Hfills | ].
      destruct Hrest as [(-> & _) | (_ & [(-> & _) | (_ & [(-> & _) | H])])];
        [ auto | auto | auto | ].
      destruct H as (b & _ & [(-> & _) | (-> & _)]); eauto.
    + intros _. exact Hall.
    + unfold tryCompleteWebinarRegistration. cbn zeta.
      intros ->. reflexivity.
Qed.

(** X16: the form is submitted only when it is filled in and shows no
    reCAPTCHA.  A button is clicked at most once.  When one is clicked it
    was visible and no reCAPTCHA was visible, and the click comes after
    the typing: what was done to the page before the click is the
    typing alone, into every field with a visible input, and nothing is
    typed after it.  The answer is [true] only after a click that went
    through, which is then followed by the wait for the page to load
    and by nothing else. *)
Theorem registration_submit_guard :
  (forall button,
      In (Click button) (snd outcome) ->
      hasVisibleRecaptchaValidator page = false /\
      isVisible (buttonVisible page button) = true /\
      (forall field,
          found (input field) = true ->
          exists s, In (Fill field s) (snd outcome)) /\
      exists fills rest,
        snd outcome = fills ++ Click button :: rest /\
        forallb isFill fills = true /\
        (forall field,
            found (input field) = true ->
            exists s, In (Fill field s) fills) /\
        (rest = [] \/ rest = [WaitForLoadState])) /\
  (fst outcome = Returned true ->
   exists button,
     In (Click button) (snd outcome) /\ click page button = Returned tt) /\
  (fst outcome = Returned true ->
   exists fills button,
     snd outcome = fills ++ [Click button; WaitForLoadState] /\
     forallb isFill fills = true) /\
  (List.length (filter isClick (snd outcome)) <= 1)%nat.
Proof.
  destruct tryComplete_paths
    as [(Hr & Hlog & Hform)
       | [((missing & Hr) & Hlog & _)
         | (Hall & fills & rest & Hlog & Hfills & Hrest)]].
  - rewrite Hlog, Hr. split; [ intros ? [] | ].
    split; [ discriminate | ]. split; [ discriminate | cbn; lia ].
  - rewrite Hlog, Hr. split; [ intros ? [] | ].
    split; [ discriminate | ]. split; [ discriminate | cbn; lia ].
  - assert (Hff : forallb isFill fills = true).
    { apply forallb_forall. intros a Ha. rewrite Forall_forall in Hfills.
      destruct (Hfills a Ha) as (f & v & -> & _). reflexivity. }
    rewrite Hlog, (clicks_of_fills fills rest Hfills).
    destruct Hrest
      as [(-> & (error & Hr) & _)
         | (Hfilled
            & [(-> & Hr & _)
              | (Hcap
                 & [(-> & Hr & _)
                   | (b & Hb
                      & [(-> & error & Hc & Hr) | (-> & Hc & Hr)])])])];
      rewrite Hr.
    1,2,3: split;
      [ intros button Hin; apply (in_click button fills [] Hfills) in Hin;
        destruct Hin
      | split; [ discriminate | ]; split; [ discriminate | cbn; lia ] ].
    + split; [ | split; [ discriminate | ];
                 split; [ discriminate | cbn; lia ] ].
      intros button Hin. apply (in_click button fills _ Hfills) in Hin.
      destruct Hin as [[= <-] | []].
      split; [ exact Hcap | ]. split; [ exact Hb | ].
      split.
      * intros field Hf. destruct (Hfilled field Hf) as [s Hs].
        exists s. apply in_app_iff. left. exact Hs.
      * exists fills, []. auto.
    + split; [ | split; [ | split; [ | cbn; lia ] ] ].
      * intros button Hin. apply (in_click button fills _ Hfills) in Hin.
        destruct Hin as [[= <-] | [Hin | []]]; [ | discriminate Hin ].
        split; [ exact Hcap | ]. split; [ exact Hb | ].
        split.
        -- intros field Hf. destruct (Hfilled field Hf) as [s Hs].
           exists s. apply in_app_iff. left. exact Hs.
        -- exists fills, [WaitForLoadState]. auto.
      * intros _. exists b. split; [ | exact Hc ].
        apply in_app_iff. right. left. reflexivity.
      * intros _. exists fills, b. auto.
Qed.

End RegistrationFormFacts.

Section SingleWordName.
Import WebinarRegistration.

Lemma tokensOf_noWhiteSpace n :
  noWhiteSpace n = true -> (List.length (tokensOf (Some n)) <= 1)%nat.
Proof.
  intros Hn. destruct n as [ | c n]; [ cbn; lia | ].
  assert (Hw : isWord (String c n) = true) by exact Hn.
  pose proof (tokensOf_words [String c n]
                (Forall_cons _ Hw (Forall_nil _))) as Ht.
  cbn [String.concat] in Ht. rewrite Ht. cbn. lia.
Qed.

(** X17: a display name of one word leaves the last name open.  When
    the display name holds no white space and the registration gives no
    last name, a form that shows an input for the last name is not
    touched: the function is rejected with the error that lists the
    missing details, [lastName] among them. *)
Theorem single_word_name_misses_last_name page registration n :
  noWhiteSpace n = true ->
  truthy (lastName registration) = false ->
  found (findVisibleInput (inputs page LastName)) = true ->
  exists missing,
    tryCompleteWebinarRegistration page (Some registration) (Some n) []
    = (Thrown (missingDetails missing), []) /\
    In "lastName"%string missing.
Proof.
  intros Hn Hlast Hinput.
  assert (Hd : lastName (buildWebinarRegistrationDetails (Some registration)
                           (Some n)) = lastName registration).
  { unfold buildWebinarRegistrationDetails. rewrite Hlast.
    rewrite orb_true_r. cbn [lastName negb andb].
    pose proof (tokensOf_noWhiteSpace n Hn) as Hlen.
    destruct (Z.ltb_spec 1 (Z.of_nat (List.length (tokensOf (Some n)))));
      [ lia | reflexivity ]. }
  unfold tryCompleteWebinarRegistration. cbn zeta.
  rewrite Hinput, Hd, Hlast. rewrite orb_true_r. cbn [negb orb andb].
  match goal with
  | |- context [0 <? Z.of_nat (List.length ?m)] =>
      exists m; assert (Hm : (0 <? Z.of_nat (List.length m)) = true)
  end.
  { apply Z.ltb_lt. rewrite !length_app. cbn [List.length]. lia. }
  rewrite Hm. split; [ reflexivity | ].
  apply in_app_iff. right. left. reflexivity.
Qed.

End SingleWordName.

Section RegistrationExamples.
Import WebinarRegistration.

(** A form with inputs for both names and a bot called by one word. *)
Lemma single_word_name_misses_last_name_witness :
  exists missing,
    tryCompleteWebinarRegistration
      (mkPage (fun field =>
                 match field with
                 | FirstName | LastName => [Returned true]
                 | _ => []
                 end)
              [] (fun _ => Returned true) (fun _ => Returned tt)
              (fun _ => Returned tt))
      (Some (mkDetails None None None None)) (Some "Notetaker"%string) []
    = (Thrown (missingDetails missing), []) /\
    In "lastName"%string missing.
Proof.
  apply (single_word_name_misses_last_name
           (mkPage (fun field =>
                      match field with
                      | FirstName | LastName => [Returned true]
                      | _ => []
                      end)
                   [] (fun _ => Returned true) (fun _ => Returned tt)
                   (fun _ => Returned tt))
           (mkDetails None None None None) "Notetaker"%string);
    reflexivity.
Defined.

End RegistrationExamples.

(* --------------------------------------------------------------------- *)
(** ** The notices about camera and microphone *)
(* --------------------------------------------------------------------- *)

Section DeviceNotificationFacts.
Import DeviceNotifications.

Lemma run_snoc_event events ev s :
  run (events ++ [ev]) s = step (run events s) ev.
Proof. unfold run. rewrite fold_left_app. reflexivity. Qed.

Lemma seenThenGone_snoc look events ev :
  seenThenGone look events -> seenThenGone look (events ++ [ev]).
Proof.
  intros (b & m & a & ->). exists b, m, (a ++ [ev]).
  rewrite <- app_assoc. cbn. rewrite <- app_assoc. reflexivity.
Qed.

Lemma seen_snoc_gone look events :
  In (look true) events -> seenThenGone look (events ++ [look false]).
Proof.
  intros Hin. apply in_split in Hin. destruct Hin as (b & m & ->).
  exists b, m, []. rewrite <- app_assoc. reflexivity.
Qed.

(** What an array tells about the looks so far. *)
Lemma observe_history look events visible notifications :
  (includes found notifications = true -> In (look true) events) ->
  (2 <= Z.of_nat (List.length notifications) -> seenThenGone look events) ->
  (notifications <> [] -> includes found notifications = true) ->
  (includes found (observe visible notifications) = true ->
   In (look true) (events ++ [look visible])) /\
  (2 <= Z.of_nat (List.length (observe visible notifications)) ->
   seenThenGone look (events ++ [look visible])) /\
  (observe visible notifications <> [] ->
   includes found (observe visible notifications) = true).
Proof.
  unfold observe.
  destruct visible; destruct (includes found notifications) eqn:Hinc;
    cbn [negb]; intros Hseen Hgone Hfirst.
  - rewrite Hinc. split; [ | split ].
    + intros _. apply in_app_iff. left. auto.
    + intros H. apply seenThenGone_snoc. auto.
    + intros _. reflexivity.
  - assert (Hnil : notifications = []).
    { destruct notifications; [ reflexivity | ].
      discriminate Hfirst. discriminate. }
    subst notifications. cbn. split; [ | split ].
    + intros _. apply in_app_iff. right. left. reflexivity.
    + lia.
    + intros _. reflexivity.
  - assert (Hinc' : includes found (notifications ++ [dismissed]) = true).
    { unfold includes in *. rewrite existsb_app, Hinc. reflexivity. }
    rewrite Hinc'. split; [ | split ].
    + intros _. apply in_app_iff. left. auto.
    + intros _. apply seen_snoc_gone. auto.
    + intros _. reflexivity.
  - rewrite Hinc. split; [ | split ].
    + discriminate.
    + intros H. apply seenThenGone_snoc. auto.
    + exact Hfirst.
Qed.

Lemma run_history events :
  let s := run events initial in
  ((includes found (cameraNotifications s) = true ->
    In (CameraLooked true) events) /\
   (2 <= Z.of_nat (List.length (cameraNotifications s)) ->
    seenThenGone CameraLooked events) /\
   (cameraNotifications s <> [] ->
    includes found (cameraNotifications s) = true)) /\
  ((includes found (micNotifications s) = true ->
    In (MicLooked true) events) /\
   (2 <= Z.of_nat (List.length (micNotifications s)) ->
    seenThenGone MicLooked events) /\
   (micNotifications s <> [] ->
    includes found (micNotifications s) = true)) /\
  (answer s = Some true ->
   seenThenGone CameraLooked events /\ seenThenGone MicLooked events).
Proof.
  induction events as [ | ev events IH] using rev_ind.
  - cbn. repeat split; try discriminate; try lia; congruence.
  - rewrite run_snoc_event. cbn zeta in *.
    destruct IH as ((Hc1 & Hc2 & Hc3) & (Hm1 & Hm2 & Hm3) & Hans).
    assert (Hkeep :
              forall e,
                (includes found (cameraNotifications (run events initial))
                 = true -> In (CameraLooked true) (events ++ [e])) /\
                (2 <= Z.of_nat (List.length
                                  (cameraNotifications (run events initial)))
                 -> seenThenGone CameraLooked (events ++ [e])) /\
                (includes found (micNotifications (run events initial))
                 = true -> In (MicLooked true) (events ++ [e])) /\
                (2 <= Z.of_nat (List.length
                                  (micNotifications (run events initial)))
                 -> seenThenGone MicLooked (events ++ [e])) /\
                (answer (run events initial) = Some true ->
                 seenThenGone CameraLooked (events ++ [e]) /\
                 seenThenGone MicLooked (events ++ [e]))).
    { intros e.
      split; [ intros K; apply in_app_iff; left; auto | ].
      split; [ intros K; apply seenThenGone_snoc; auto | ].
      split; [ intros K; apply in_app_iff; left; auto | ].
      split; [ intros K; apply seenThenGone_snoc; auto | ].
      intros K. destruct (Hans K).
      split; apply seenThenGone_snoc; assumption. }
    destruct ev as [visible | visible | | | ]; cbn [step].
    + destruct (Hkeep (CameraLooked visible)) as (_ & _ & K3 & K4 & K5).
      cbn [cameraNotifications micNotifications answer].
      split; [ | split; [ repeat split; assumption | exact K5 ] ].
      apply observe_history; assumption.
    + destruct (Hkeep (MicLooked visible)) as (K1 & K2 & _ & _ & K5).
      cbn [cameraNotifications micNotifications answer].
      split; [ repeat split; assumption | split; [ | exact K5 ] ].
      apply observe_history; assumption.
    + destruct (Hkeep Checked) as (K1 & K2 & K3 & K4 & K5).
      destruct (Z.leb_spec 2 (Z.of_nat (List.length
                  (micNotifications (run events initial)))));
        destruct (Z.leb_spec 2 (Z.of_nat (List.length
                    (cameraNotifications (run events initial)))));
        cbn [andb res cameraNotifications micNotifications answer];
        repeat split; try assumption; auto;
        try (intros H1; apply K5; exact H1).
      all: destruct (answer (run events initial)) as [[ | ] | ];
        intros; auto; try discriminate; apply K5; reflexivity.
    + destruct (Hkeep Threw) as (K1 & K2 & K3 & K4 & K5).
      cbn [res cameraNotifications micNotifications answer].
      repeat split; try assumption;
        destruct (answer (run events initial)) as [[ | ] | ];
        intros; try discriminate; apply K5; reflexivity.
    + destruct (Hkeep TimedOut) as (K1 & K2 & K3 & K4 & K5).
      cbn [res cameraNotifications micNotifications answer].
      repeat split; try assumption;
        destruct (answer (run events initial)) as [[ | ] | ];
        intros; try discriminate; apply K5; reflexivity.
Qed.

(** X18: the wait for the device notices answers [true] only when both
    notices came and went.  However the callbacks of the interval
    interleave and whenever the time-out comes: if the promise is
    resolved with [true], the notice about the camera was seen visible
    and at a later look not visible, and so was the notice about the
    microphone. *)
Theorem notices_dismissed_before_true events :
  answer (run events initial) = Some true ->
  seenThenGone CameraLooked events /\ seenThenGone MicLooked events.
Proof. apply (run_history events). Qed.

End DeviceNotificationFacts.

Section DeviceNotificationExamples.
Import DeviceNotifications.

(** Both notices are up at the first tick and gone at the second. *)
Lemma notices_dismissed_before_true_witness :
  seenThenGone CameraLooked
    (eventsOf (Looked true true) ++ eventsOf (Looked false false)) /\
  seenThenGone MicLooked
    (eventsOf (Looked true true) ++ eventsOf (Looked false false)).
Proof.
  apply (notices_dismissed_before_true
           (eventsOf (Looked true true) ++ eventsOf (Looked false false))).
  reflexivity.
Defined.

End DeviceNotificationExamples.

(* --------------------------------------------------------------------- *)
(** ** The two ffmpeg sinks: [start] *)
(* --------------------------------------------------------------------- *)

Section YouTubeLiveStartFacts.
Import YouTubeLiveStart.

Lemma yt_run_snoc events ev s : run (events ++ [ev]) s = step (run events s) ev.
Proof. unfold run. rewrite fold_left_app. reflexivity. Qed.

(** Before the timer.  As long as there was no 'exit' and no 'error',
    nothing is settled and [this.process] is the running child; after
    one of them the promise is rejected, or [this.process] is null. *)
Lemma yt_before_timer proc events :
  killed proc = false -> exitStatus proc = None ->
  existsb isStartTimer events = false ->
  (existsb isExitEvent events || existsb isErrorEvent events = false ->
   settled (run events (spawned proc)) = false /\
   attached (run events (spawned proc)) = true /\
   killed (child (run events (spawned proc))) = false /\
   exitStatus (child (run events (spawned proc))) = None /\
   promise (run events (spawned proc)) = Pending) /\
  (existsb isExitEvent events || existsb isErrorEvent events = true ->
   (settled (run events (spawned proc)) = true /\
    exists error,
      promise (run events (spawned proc)) = Rejected error)
   \/
   (settled (run events (spawned proc)) = false /\
    attached (run events (spawned proc)) = false /\
    promise (run events (spawned proc)) = Pending)).
Proof.
  intros Hk He. induction events as [ | ev events IH] using rev_ind.
  - intros _. cbn. split; [ auto | discriminate ].
  - rewrite !existsb_app, yt_run_snoc. cbn [existsb].
    intros Hno. apply orb_false_iff in Hno. destruct Hno as [Hno Hev].
    destruct (IH Hno) as [Hquiet Hloud]. clear IH.
    set (s := run events (spawned proc)) in *.
    destruct (existsb isExitEvent events || existsb isErrorEvent events)
      eqn:Hsofar.
    + (* something has happened already *)
      assert (Hnow : (existsb isExitEvent events || (isExitEvent ev || false))
                     || (existsb isErrorEvent events
                         || (isErrorEvent ev || false)) = true).
      { apply orb_true_iff in Hsofar. destruct Hsofar as [-> | ->];
          rewrite ?orb_true_r; reflexivity. }
      rewrite Hnow. split; [ discriminate | intros _ ].
      destruct (Hloud eq_refl) as [(Hs & error & Hp) | (Hs & Ha & Hp)].
      * left. destruct ev as [[code | sig] | error' | | output | ]; cbn [step];
          try discriminate Hev; rewrite ?Hs; cbn [negb];
          try destruct (exitStatus (child s));
          try destruct (code =? 0); cbn; eauto.
      * destruct ev as [[code | sig] | error' | | output | ]; cbn [step];
          try discriminate Hev; rewrite ?Hs; cbn [negb];
          try destruct (exitStatus (child s));
          try destruct (code =? 0); cbn [negb];
          cbn [settled attached promise];
          rewrite ?Hp; cbn [reject]; eauto.
    + destruct (Hquiet eq_refl) as (Hs & Ha & Hkc & Hec & Hp).
      destruct ev as [[code | sig] | error' | | output | ]; cbn [step];
        try discriminate Hev; rewrite ?Hs, ?Hec; cbn [negb];
        cbn [isExitEvent isErrorEvent];
        rewrite ?orb_false_r, ?orb_true_r; cbn [orb].
      * split; [ discriminate | intros _ ].
        destruct (code =? 0); cbn [negb settled attached promise];
          rewrite ?Hp; cbn [reject]; eauto.
      * split; [ discriminate | intros _ ].
        cbn [settled attached promise]. right. auto.
      * split; [ discriminate | intros _ ].
        cbn [settled attached promise]. rewrite Hp. cbn. eauto.
      * rewrite Hsofar. split; [ intros _; auto | discriminate ].
      * rewrite Hsofar. split; [ intros _; auto | discriminate ].
Qed.

Lemma yt_settled_stays events :
  forall s, settled s = true ->
            promise (run events s) = promise s.
Proof.
  induction events as [ | ev events IH]; intros s Hs; [ reflexivity | ].
  change (run (ev :: events) s) with (run events (step s ev)).
  assert (Hstep : promise (step s ev) = promise s /\ settled (step s ev) = true).
  { destruct ev as [[code | sig] | error | | output | ]; cbn [step];
      rewrite ?Hs; cbn [negb];
      try destruct (exitStatus (child s));
      try destruct (code =? 0); cbn; auto. }
  destruct Hstep as [Hp' Hs']. rewrite (IH _ Hs'). exact Hp'.
Qed.

(** X19: when [start] of the live-restream sink is fulfilled.  For a
    child that [start] has just spawned and that nothing else touches:
    once the timer of 2 s has run the promise is settled for good, and
    it is fulfilled exactly when neither an 'exit' nor an 'error' event
    of the child came before the timer. *)
Theorem youtube_start_fulfilled_iff_quiet proc before after :
  killed proc = false -> exitStatus proc = None ->
  existsb isStartTimer before = false ->
  promise (run (before ++ StartTimer :: after) (spawned proc))
  <> Pending /\
  (promise (run (before ++ StartTimer :: after)
              (spawned proc)) = Fulfilled <->
   existsb isExitEvent before || existsb isErrorEvent before = false).
Proof.
  intros Hk He Hno.
  destruct (yt_before_timer proc before Hk He Hno) as [Hquiet Hloud].
  assert (Hsplit : run (before ++ StartTimer :: after)
                       (spawned proc)
                   = run after
                       (step (run before (spawned proc))
                             StartTimer)).
  { unfold run. rewrite fold_left_app. reflexivity. }
  rewrite Hsplit. clear Hsplit.
  set (s := run before (spawned proc)) in *.
  destruct (existsb isExitEvent before || existsb isErrorEvent before).
  - assert (Hrej : settled (step s StartTimer) = true /\
                   exists error, promise (step s StartTimer) = Rejected error).
    { destruct (Hloud eq_refl) as [(Hs & error & Hp) | (Hs & Ha & Hp)];
        cbn [step]; rewrite Hs; [ eauto | ].
      rewrite Ha, Hp. cbn. eauto. }
    destruct Hrej as (Hs & error & Hp).
    rewrite (yt_settled_stays after _ Hs), Hp.
    split; [ discriminate | split; discriminate ].
  - destruct (Hquiet eq_refl) as (Hs & Ha & Hkc & Hec & Hp).
    assert (Hok : settled (step s StartTimer) = true /\
                  promise (step s StartTimer) = Fulfilled).
    { cbn [step]. unfold exitCode. rewrite Hs, Ha, Hkc, Hec, Hp. cbn. auto. }
    destruct Hok as [Hs' Hp'].
    rewrite (yt_settled_stays after _ Hs'), Hp'.
    split; [ discriminate | split; reflexivity ].
Qed.

End YouTubeLiveStartFacts.

Section FFmpegStartFacts.
Import FFmpegStart.

Lemma ff_run_snoc events ev s : run (events ++ [ev]) s = step (run events s) ev.
Proof. unfold run. rewrite fold_left_app. reflexivity. Qed.

(** Before the timer.  As long as there was no 'error' and no 'exit'
    with an exit code, nothing is settled and no exit code is there;
    after one of them the promise is rejected, or the child has an
    exit code. *)
Lemma ff_before_timer proc events :
  killed proc = false -> exitStatus proc = None ->
  existsb isStartTimer events = false ->
  (List.length (filter isExitEvent events) <= 1)%nat ->
  (existsb isExitEvent events = false ->
   exitStatus (child (run events (spawned proc))) = None) /\
  (existsb isExitWithCode events || existsb isErrorEvent events = false ->
   settled (run events (spawned proc)) = false /\
   killed (child (run events (spawned proc))) = false /\
   exitCode (child (run events (spawned proc))) = None /\
   promise (run events (spawned proc)) = Pending) /\
  (existsb isExitWithCode events || existsb isErrorEvent events = true ->
   (settled (run events (spawned proc)) = true /\
    exists error,
      promise (run events (spawned proc)) = Rejected error)
   \/
   (settled (run events (spawned proc)) = false /\
    exitCode (child (run events (spawned proc))) <> None /\
    promise (run events (spawned proc)) = Pending)).
Proof.
  intros Hk He. induction events as [ | ev events IH] using rev_ind.
  - intros _ _. cbn. unfold exitCode. rewrite He.
    split; [ auto | ]. split; [ auto | discriminate ].
  - rewrite !existsb_app, filter_app, length_app, ff_run_snoc. cbn [existsb].
    intros Hno Hone. apply orb_false_iff in Hno. destruct Hno as [Hno Hev].
    assert (Hfirst : isExitEvent ev = true ->
                     existsb isExitEvent events = false).
    { intros Hx. cbn [filter] in Hone. rewrite Hx in Hone. cbn in Hone.
      destruct (existsb isExitEvent events) eqn:Hex; [ | reflexivity ].
      apply existsb_exists in Hex. destruct Hex as (x & Hin & Hx').
      assert (Hf : In x (filter isExitEvent events))
        by (apply filter_In; auto).
      destruct (filter isExitEvent events); [ destruct Hf | cbn in Hone; lia ]. }
    assert (Hone' : (List.length (filter isExitEvent events) <= 1)%nat) by lia.
    destruct (IH Hno Hone') as (Hnone & Hquiet & Hloud). clear IH Hone Hone'.
    set (s := run events (spawned proc)) in *.
    split.
    { intros Hx. apply orb_false_iff in Hx. destruct Hx as [Hx Hx'].
      specialize (Hnone Hx).
      destruct ev as [status | error' | | output | ]; cbn [step];
        try discriminate Hev; try discriminate Hx';
        try exact Hnone.
      destruct (settled s); exact Hnone. }
    destruct (existsb isExitWithCode events || existsb isErrorEvent events)
      eqn:Hsofar.
    + assert (Hnow : (existsb isExitWithCode events
                      || (isExitWithCode ev || false))
                     || (existsb isErrorEvent events
                         || (isErrorEvent ev || false)) = true).
      { apply orb_true_iff in Hsofar. destruct Hsofar as [-> | ->];
          rewrite ?orb_true_r; reflexivity. }
      rewrite Hnow. split; [ discriminate | intros _ ].
      destruct (Hloud eq_refl) as [(Hs & error & Hp) | (Hs & Hc & Hp)].
      * left. destruct ev as [[code | sig] | error' | | output | ]; cbn [step];
          try discriminate Hev; rewrite ?Hs; cbn [negb];
          try destruct (exitStatus (child s));
          try destruct (code =? 0); cbn; eauto.
      * assert (Hx : exists status, exitStatus (child s) = Some status).
        { unfold exitCode in Hc. destruct (exitStatus (child s)); eauto.
          congruence. }
        destruct Hx as [status Hx].
        destruct ev as [[code | sig] | error' | | output | ]; cbn [step];
          try discriminate Hev; rewrite ?Hs, ?Hx; cbn [negb];
          cbn [settled child promise];
          rewrite ?Hp; cbn [reject]; eauto.
    + destruct (Hquiet eq_refl) as (Hs & Hkc & Hec & Hp).
      destruct ev as [[code | sig] | error' | | output | ]; cbn [step];
        try discriminate Hev; rewrite ?Hs; cbn [negb];
        cbn [isExitWithCode isErrorEvent];
        rewrite ?orb_false_r, ?orb_true_r; cbn [orb].
      * rewrite (Hnone (Hfirst eq_refl)).
        split; [ discriminate | intros _ ].
        destruct (code =? 0); cbn [negb settled child promise];
          rewrite ?Hp; cbn [reject]; eauto.
        right. split; [ reflexivity | ]. split; [ | reflexivity ].
        unfold exitCode, exited. cbn. discriminate.
      * rewrite Hsofar. split; [ intros _ | discriminate ].
        rewrite (Hnone (Hfirst eq_refl)).
        cbn [settled child promise exited killed]. unfold exitCode. cbn.
        auto.
      * split; [ discriminate | intros _ ].
        cbn [settled child promise]. rewrite Hp. cbn. eauto.
      * rewrite Hsofar. split; [ intros _; auto | discriminate ].
      * rewrite Hsofar. split; [ intros _; auto | discriminate ].
Qed.

Lemma ff_settled_stays events :
  forall s, settled s = true ->
            promise (run events s) = promise s.
Proof.
  induction events as [ | ev events IH]; intros s Hs; [ reflexivity | ].
  change (run (ev :: events) s) with (run events (step s ev)).
  assert (Hstep : promise (step s ev) = promise s /\ settled (step s ev) = true).
  { destruct ev as [[code | sig] | error | | output | ]; cbn [step];
      rewrite ?Hs; cbn [negb];
      try destruct (exitStatus (child s));
      try destruct (code =? 0); cbn; auto. }
  destruct Hstep as [Hp' Hs']. rewrite (IH _ Hs'). exact Hp'.
Qed.

(** X20: when [start] of the durable recorder is fulfilled.  For a
    child that [start] has just spawned and that nothing else touches:
    once the timer of 2 s has run the promise is settled for good, and
    it is fulfilled exactly when before the timer no 'error' event came
    and the child did not exit with an exit code.  A child that a signal
    ended in that time leaves [start] fulfilled. *)
Theorem recorder_start_fulfilled_iff proc before after :
  killed proc = false -> exitStatus proc = None ->
  existsb isStartTimer before = false ->
  (List.length (filter isExitEvent before) <= 1)%nat ->
  promise (run (before ++ StartTimer :: after) (spawned proc))
  <> Pending /\
  (promise (run (before ++ StartTimer :: after)
              (spawned proc)) = Fulfilled <->
   existsb isExitWithCode before || existsb isErrorEvent before = false).
Proof.
  intros Hk He Hno Hone.
  destruct (ff_before_timer proc before Hk He Hno Hone) as (_ & Hquiet & Hloud).
  assert (Hsplit : run (before ++ StartTimer :: after)
                       (spawned proc)
                   = run after
                       (step (run before (spawned proc))
                             StartTimer)).
  { unfold run. rewrite fold_left_app. reflexivity. }
  rewrite Hsplit. clear Hsplit.
  set (s := run before (spawned proc)) in *.
  destruct (existsb isExitWithCode before || existsb isErrorEvent before).
  - assert (Hrej : settled (step s StartTimer) = true /\
                   exists error, promise (step s StartTimer) = Rejected error).
    { destruct (Hloud eq_refl) as [(Hs & error & Hp) | (Hs & Hc & Hp)];
        cbn [step]; rewrite Hs; [ eauto | ].
      destruct (exitCode (child s)); [ | congruence ].
      rewrite andb_false_r, Hp. cbn. eauto. }
    destruct Hrej as (Hs & error & Hp).
    rewrite (ff_settled_stays after _ Hs), Hp.
    split; [ discriminate | split; discriminate ].
  - destruct (Hquiet eq_refl) as (Hs & Hkc & Hec & Hp).
    assert (Hok : settled (step s StartTimer) = true /\
                  promise (step s StartTimer) = Fulfilled).
    { cbn [step]. rewrite Hs, Hkc, Hec, Hp. cbn. auto. }
    destruct Hok as [Hs' Hp'].
    rewrite (ff_settled_stays after _ Hs'), Hp'.
    split; [ discriminate | split; reflexivity ].
Qed.

End FFmpegStartFacts.

Section SinkStartExamples.

(** A child that prints and keeps running: [start] of the live-restream
    sink is fulfilled at the timer. *)
Lemma youtube_start_fulfilled_iff_quiet_witness :
  YouTubeLiveStart.promise
    (YouTubeLiveStart.run ([OutputData; OutputData] ++ StartTimer :: [])
       (YouTubeLiveStart.spawned (SinkExamples.spawned SinkExamples.openPipe)))
  <> Pending /\
  (YouTubeLiveStart.promise
     (YouTubeLiveStart.run ([OutputData; OutputData] ++ StartTimer :: [])
        (YouTubeLiveStart.spawned (SinkExamples.spawned SinkExamples.openPipe)))
   = Fulfilled <->
   existsb isExitEvent [OutputData; OutputData]
   || existsb isErrorEvent [OutputData; OutputData] = false).
Proof.
  apply (youtube_start_fulfilled_iff_quiet (SinkExamples.spawned SinkExamples.openPipe)
           [OutputData; OutputData] []); reflexivity.
Defined.

(** A child that a signal ends after one second: [start] of the durable
    recorder is fulfilled at the timer all the same. *)
Lemma recorder_start_fulfilled_iff_witness :
  FFmpegStart.promise
    (FFmpegStart.run ([ExitEvent (ExitSignal SIGKILL)] ++ StartTimer :: [])
       (FFmpegStart.spawned (SinkExamples.spawned SinkExamples.openPipe)))
  <> Pending /\
  (FFmpegStart.promise
     (FFmpegStart.run ([ExitEvent (ExitSignal SIGKILL)] ++ StartTimer :: [])
        (FFmpegStart.spawned (SinkExamples.spawned SinkExamples.openPipe)))
   = Fulfilled <->
   existsb isExitWithCode [ExitEvent (ExitSignal SIGKILL)]
   || existsb isErrorEvent [ExitEvent (ExitSignal SIGKILL)] = false).
Proof.
  apply (recorder_start_fulfilled_iff (SinkExamples.spawned SinkExamples.openPipe)
           [ExitEvent (ExitSignal SIGKILL)] []);
    [ reflexivity | reflexivity | reflexivity | cbn; lia ].
Defined.

(** What [start] is rejected with when the child exits with a code
    before the timer: the live-restream sink names the code, the durable
    recorder the code and what the child has printed on stderr. *)
Example youtube_start_rejected_with_code :
  YouTubeLiveStart.promise
    (YouTubeLiveStart.run
       [StderrData "rtmp: connection refused"; ExitEvent (ExitCode 1);
        StartTimer]
       (YouTubeLiveStart.spawned (SinkExamples.spawned SinkExamples.openPipe)))
  = Rejected (mkJsError UnclassifiedError "Error"
                "ffmpeg live exited with code 1" false 0).
Proof. reflexivity. Qed.

Example recorder_start_rejected_with_code :
  FFmpegStart.promise
    (FFmpegStart.run
       [StderrData " Cannot open display :99"; StderrData (String "010" " ");
        ExitEvent (ExitCode 1); StartTimer]
       (FFmpegStart.spawned (SinkExamples.spawned SinkExamples.openPipe)))
  = Rejected (mkJsError UnclassifiedError "Error"
                "FFmpeg exited with code 1: Cannot open display :99" false 0).
Proof. reflexivity. Qed.

Example recorder_start_rejected_without_details :
  FFmpegStart.promise
    (FFmpegStart.run [ExitEvent (ExitCode 234); StartTimer]
       (FFmpegStart.spawned (SinkExamples.spawned SinkExamples.openPipe)))
  = Rejected (mkJsError UnclassifiedError "Error"
                "FFmpeg exited with code 234: no error details" false 0).
Proof. reflexivity. Qed.

End SinkStartExamples.

(* --------------------------------------------------------------------- *)
(** ** The durable recorder: what [stop] sends to the child *)
(* --------------------------------------------------------------------- *)

Section RecorderSignals.
Import FFmpegRecorder FFmpegRecorderUse.

Lemma update_Forall (P : StopCall -> Prop) i f l :
  Forall P l -> (forall c, P c -> P (f c)) -> Forall P (update i f l).
Proof.
  intros Hl Hf. revert i. induction Hl as [ | c l Hc Hl IH]; intros i.
  - destruct i; constructor.
  - destruct i; cbn; constructor; auto.
Qed.

Lemma repeat_snoc {A : Type} (x : A) k : repeat x k ++ [x] = repeat x (S k).
Proof. induction k as [ | k IH]; cbn; [ | rewrite IH ]; reflexivity. Qed.

Lemma kill_SIGTERM_sound proc0 proc k :
  signals proc = signals proc0 ++ repeat SIGTERM k ->
  exists k',
    signals (kill SIGTERM proc) = signals proc0 ++ repeat SIGTERM k' /\
    (killed (kill SIGTERM proc) = true \/
     exitStatus (kill SIGTERM proc) <> None) /\
    (killed proc = true \/ exitStatus proc <> None ->
     killed (kill SIGTERM proc) = true \/
     exitStatus (kill SIGTERM proc) <> None).
Proof.
  intros Hs. unfold kill. destruct (exitStatus proc) eqn:He.
  - exists k. rewrite He. split; [ exact Hs | ].
    split; [ right; discriminate | auto ].
  - exists (S k). cbn. rewrite Hs, <- app_assoc, repeat_snoc.
    split; [ reflexivity | ]. split; left; reflexivity.
Qed.

Lemma stop_sound proc0 s : sound proc0 s -> sound proc0 (snd (stop s)).
Proof.
  intros (proc & k & Hc & Hs & Hl). unfold stop, ffmpegProcess.
  destruct (attached s); rewrite ?Hc;
    [ | exists proc, k; cbn; auto ].
  destruct (stdin proc) as [w | ].
  - destruct (faulty w).
    + destruct (kill_SIGTERM_sound proc0 proc k Hs) as (k' & Hs' & Hk & Hmono).
      destruct (killed (kill SIGTERM proc)
                || match exitCode (kill SIGTERM proc) with
                   | Some _ => true
                   | None => false
                   end); cbn;
        exists (kill SIGTERM proc), k';
        (split; [ reflexivity | ]); (split; [ exact Hs' | ]);
        (apply Forall_app; split;
         [ eapply Forall_impl; [ | exact Hl ]; cbn; intros c H Hc'; auto
         | constructor; [ cbn; discriminate | constructor ] ]).
    + destruct (killed (withStdin (end_ (write quitSignal w)) proc)
                || match exitCode (withStdin (end_ (write quitSignal w)) proc)
                   with
                   | Some _ => true
                   | None => false
                   end); cbn;
        exists (withStdin (end_ (write quitSignal w)) proc), k;
        (split; [ reflexivity | ]); (split; [ exact Hs | ]);
        (apply Forall_app; split;
         [ exact Hl | constructor; [ cbn; discriminate | constructor ] ]).
  - destruct (killed proc
              || match exitCode proc with
                 | Some _ => true
                 | None => false
                 end); cbn;
      exists proc, k;
      (split; [ reflexivity | ]); (split; [ exact Hs | ]);
      (apply Forall_app; split;
       [ exact Hl | constructor; [ cbn; discriminate | constructor ] ]).
Qed.

Lemma exitListeners_lastResort (P : Prop) l :
  forall att entries,
    Forall (fun c => lastResort c = true -> P) l ->
    Forall (fun c => lastResort c = true -> P)
           (snd (exitListeners att entries l)).
Proof.
  induction l as [ | c l IH]; intros att entries Hl; [ constructor | ].
  inversion Hl as [ | ? ? Hc Hl']; subst. cbn.
  destruct (resolved c).
  - specialize (IH att entries Hl').
    destruct (exitListeners att entries l) as [[att' entries'] l'']. cbn in *.
    constructor; assumption.
  - match goal with
    | |- context [exitListeners false ?e l] =>
        specialize (IH false e Hl');
        destruct (exitListeners false e l) as [[att' entries'] l'']
    end.
    cbn in *. constructor; [ cbn; exact Hc | assumption ].
Qed.

Lemma step_sound proc0 i s : sound proc0 s -> sound proc0 (step i s).
Proof.
  intros (proc & k & Hc & Hs & Hl). destruct i as [n | n | status]; cbn [step].
  - unfold onTimeout, ffmpegProcess.
    destruct (nth_error (stops s) n) as [c | ];
      [ | exists proc, k; auto ].
    destruct (timeout c); [ | exists proc, k; auto ].
    destruct (attached s); rewrite ?Hc.
    + destruct (negb (killed proc) && negb (resolved c)).
      * destruct (kill_SIGTERM_sound proc0 proc k Hs)
          as (k' & Hs' & Hk & Hmono).
        exists (kill SIGTERM proc), k'. cbn.
        split; [ reflexivity | ]. split; [ exact Hs' | ].
        apply update_Forall.
        -- eapply Forall_impl; [ | exact Hl ]. cbn. intros c0 H H0. auto.
        -- intros c0 _ _. exact Hk.
      * exists proc, k. cbn. split; [ first [ exact Hc | reflexivity ] | ]. split; [ exact Hs | ].
        apply update_Forall; [ exact Hl | ]. intros c0 H. exact H.
    + exists proc, k. cbn. split; [ first [ exact Hc | reflexivity ] | ]. split; [ exact Hs | ].
      apply update_Forall; [ exact Hl | ]. intros c0 H. exact H.
  - unfold onLastResort, ffmpegProcess.
    destruct (nth_error (stops s) n) as [c | ] eqn:Hn;
      [ | exists proc, k; auto ].
    destruct (lastResort c) eqn:Hlr; [ | exists proc, k; auto ].
    assert (Harmed : killed proc = true \/ exitStatus proc <> None).
    { rewrite Forall_forall in Hl.
      apply (Hl c); [ eapply nth_error_In; exact Hn | exact Hlr ]. }
    assert (Hupd : Forall (fun c0 => lastResort c0 = true ->
                                     killed proc = true \/
                                     exitStatus proc <> None)
                     (update n (fun c0 => mkStopCall (resolved c0)
                                            (timeout c0) false) (stops s))).
    { apply update_Forall; [ exact Hl | ]. intros c0 _. cbn. discriminate. }
    destruct (attached s); rewrite ?Hc;
      [ | exists proc, k; cbn; auto ].
    destruct (negb (killed proc) && negb (resolved c)) eqn:Hb;
      [ | exists proc, k; cbn; auto ].
    apply andb_true_iff in Hb. destruct Hb as [Hk _].
    apply negb_true_iff in Hk.
    destruct Harmed as [Hx | Hx]; [ congruence | ].
    assert (Hkill : kill SIGKILL proc = proc).
    { unfold kill. destruct (exitStatus proc); [ reflexivity | congruence ]. }
    rewrite Hkill. exists proc, k. cbn. auto.
  - unfold onExit. rewrite Hc.
    assert (Hcase : (exists e, exitStatus proc = Some e) \/
                    exitStatus proc = None)
      by (destruct (exitStatus proc); eauto).
    destruct Hcase as [[e He] | He]; rewrite He;
      [ exists proc, k; auto | ].
    pose proof (exitListeners_lastResort
                  (killed (exited status proc) = true \/
                   exitStatus (exited status proc) <> None)
                  (stops s) (attached s) (log s ++ [Exited status])) as Hx.
    destruct (exitListeners (attached s) (log s ++ [Exited status]) (stops s))
      as [[att' log'] stops'].
    exists (exited status proc), k.
    split; [ reflexivity | ]. split; [ exact Hs | ].
    apply Hx. eapply Forall_impl; [ | exact Hl ].
    cbn. intros c _ _. right. discriminate.
Qed.

Lemma acts_sound proc0 actions :
  forall s, sound proc0 s -> sound proc0 (acts actions s).
Proof.
  induction actions as [ | a actions IH]; intros s Hs; [ exact Hs | ].
  change (acts (a :: actions) s) with (acts actions (act s a)).
  apply IH. destruct a; cbn [act].
  - apply stop_sound, Hs.
  - apply step_sound, Hs.
Qed.

(** X21: the recorder never gets a SIGKILL through to ffmpeg.  Whatever
    calls of [stop] and whatever timers and exits follow the start of a
    child, in whatever order: the signals the child has received from
    the recorder are SIGTERMs only.  When the last-resort timer runs,
    the child it finds has exited, or carries [killed] from the SIGTERM
    that armed the timer. *)
Theorem recorder_delivers_only_SIGTERM proc actions :
  exists proc' k,
    child (acts actions (recording proc)) = Some proc' /\
    signals proc' = signals proc ++ repeat SIGTERM k.
Proof.
  destruct (acts_sound proc actions (recording proc))
    as (proc' & k & Hc & Hs & _); [ | eauto ].
  exists proc, 0%nat. cbn. rewrite app_nil_r. auto.
Qed.

End RecorderSignals.

(* --------------------------------------------------------------------- *)
(** ** The runner of meeting jobs *)
(* --------------------------------------------------------------------- *)

Section SubmitJobFacts.
Import MeetingJobs.

Variable pollIntervalMs : Z.
Variable post : nat -> PostResult.

Lemma submitJob_conflicts n :
  forall fuel attempt trace,
    (forall i, (i < n)%nat -> post (attempt + i) = Conflict) ->
    submitJob pollIntervalMs post (n + fuel) attempt trace =
    submitJob pollIntervalMs post fuel (attempt + n)
      (trace ++ conflicts pollIntervalMs attempt n).
Proof.
  induction n as [ | n IH]; intros fuel attempt trace Hc.
  - cbn. rewrite Nat.add_0_r, app_nil_r. reflexivity.
  - cbn [Nat.add submitJob].
    pose proof (Hc 0%nat ltac:(lia)) as H0. rewrite Nat.add_0_r in H0.
    rewrite H0, IH.
    + cbn [conflicts]. rewrite <- app_assoc.
      replace (S attempt + n)%nat with (attempt + S n)%nat by lia.
      reflexivity.
    + intros i Hi. replace (S attempt + i)%nat with (attempt + S i)%nat by lia.
      apply Hc. lia.
Qed.

(** X22: [submitJob] posts again for as long as the server answers 409.
    When the first [n] posts are answered 409 and the next one is not,
    [submitJob] takes [n + 1] posts with a sleep of [pollIntervalMs]
    after each of the first [n], and ends as that last post does:
    fulfilled when it was accepted, rejected at once with what it threw
    otherwise. *)
Theorem submitJob_waits_out_conflicts n fuel :
  (forall i, (i < n)%nat -> post i = Conflict) ->
  isConflict (post n) = false ->
  submitJob pollIntervalMs post (n + S fuel) 0 [] =
  Some (completionOf (post n), conflicts pollIntervalMs 0 n ++ [Post n]).
Proof.
  intros Hc Hn. rewrite submitJob_conflicts by exact Hc.
  cbn. destruct (post n); [ reflexivity | discriminate Hn | reflexivity ].
Qed.

(** X23: a server that answers every post with 409 keeps [submitJob]
    in its loop: no number of turns brings it to an end. *)
Theorem submitJob_never_gives_up fuel :
  (forall i, post i = Conflict) ->
  submitJob pollIntervalMs post fuel 0 [] = None.
Proof.
  intros Hc. generalize 0%nat, (@nil Request).
  induction fuel as [ | fuel IH]; intros attempt trace; [ reflexivity | ].
  cbn. rewrite Hc. apply IH.
Qed.

End SubmitJobFacts.

Section RunFacts.
Import MeetingJobs.

Variable startServer : bool.
Variable c : Collaborators.

Lemma jobsLoop_log todo :
  forall index log,
    exists done,
      (done <= todo)%nat /\
      (snd (jobsLoop c index todo log) = log ++ jobCalls index done \/
       snd (jobsLoop c index todo log)
       = log ++ jobCalls index done ++ [SubmitJob (index + done)]) /\
      (fst (jobsLoop c index todo log) = Returned tt ->
       snd (jobsLoop c index todo log) = log ++ jobCalls index todo).
Proof.
  induction todo as [ | todo IH]; intros index log.
  - exists 0%nat. cbn. rewrite app_nil_r. auto.
  - cbn [jobsLoop].
    destruct (submit c index) as [[] | e1].
    + destruct (waitForJobCompletion c index) as [[] | e2].
      * destruct (IH (S index)
                    (log ++ [SubmitJob index; WaitForJobCompletion index]))
          as (done & Hle & Hlog & Hok).
        exists (S done). split; [ lia | ]. cbn [jobCalls].
        rewrite <- !app_assoc in *. cbn [app] in *.
        replace (index + S done)%nat with (S index + done)%nat by lia.
        split; [ exact Hlog | exact Hok ].
      * exists 1%nat. cbn. split; [ lia | ]. split; [ auto | discriminate ].
    + exists 0%nat. cbn. rewrite Nat.add_0_r, app_nil_r.
      split; [ lia | ]. split; [ auto | discriminate ].
Qed.

Lemma filter_jobCalls index n : filter isJobCall (jobCalls index n) = jobCalls index n.
Proof.
  revert index. induction n as [ | n IH]; intros index; [ reflexivity | ].
  cbn. rewrite IH. reflexivity.
Qed.

Lemma jobCalls_not_stop index n : ~ In StopServerProcess (jobCalls index n).
Proof.
  revert index. induction n as [ | n IH]; intros index; [ intros [] | ].
  cbn. intros [H | [H | H]]; try discriminate. exact (IH _ H).
Qed.

(** The calls of [run], whichever way it ends. *)
Lemma run_shape :
  (exists error, loadJobsFile c = Thrown error /\
                 run startServer c = (Thrown error, [LoadJobsFile])) \/
  (exists jobs head r done tail,
      loadJobsFile c = Returned jobs /\
      (head = [] \/ head = [StartServerProcess]
       \/ head = [StartServerProcess; WaitForServerReady]) /\
      (done <= jobs)%nat /\
      (tail = [] \/ tail = [SubmitJob done]) /\
      (r = Returned tt -> done = jobs /\ tail = []) /\
      ((startServer = true /\ startServerProcess c = Returned tt /\
        run startServer c =
        (match stopServerProcess c with
         | Thrown error => Thrown error
         | Returned _ => r
         end,
         LoadJobsFile :: head ++ jobCalls 0 done ++ tail
           ++ [StopServerProcess])) \/
       ((startServer = false \/
         exists error, startServerProcess c = Thrown error) /\
        run startServer c =
        (r, LoadJobsFile :: head ++ jobCalls 0 done ++ tail)))).
Proof.
  unfold run, runTry. cbn [app].
  destruct (loadJobsFile c) as [jobs | e0]; [ right | left; eauto ].
  destruct startServer.
  - destruct (startServerProcess c) as [[] | e1] eqn:Hstart.
    + destruct (waitForServerReady c) as [[] | e2].
      * destruct (jobsLoop_log jobs 0%nat
                    [LoadJobsFile; StartServerProcess; WaitForServerReady])
          as (done & Hle & Hlog & Hok).
        destruct (jobsLoop c 0 jobs
                    [LoadJobsFile; StartServerProcess; WaitForServerReady])
          as [r log] eqn:Hloop.
        cbn [fst snd] in *.
        exists jobs, [StartServerProcess; WaitForServerReady], r.
        destruct Hlog as [-> | ->].
        -- exists done, []. split; [ reflexivity | ]. split; [ auto | ].
           split; [ exact Hle | ]. split; [ auto | ].
           split.
           { intros Hr. specialize (Hok Hr). apply app_inv_head in Hok.
             split; [ | reflexivity ].
             assert (Hlen : List.length (jobCalls 0 done)
                            = List.length (jobCalls 0 jobs)) by congruence.
             clear - Hlen.
             assert (Hl : forall i n, List.length (jobCalls i n) = (2 * n)%nat).
             { intros i n. revert i. induction n as [ | n IH]; intros i;
                 [ reflexivity | ]. cbn. rewrite IH. lia. }
             rewrite !Hl in Hlen. lia. }
           left. split; [ reflexivity | ]. split; [ reflexivity | ].
           destruct (stopServerProcess c); cbn; rewrite <- ?app_assoc;
             cbn; rewrite ?app_nil_r; reflexivity.
        -- exists done, [SubmitJob (0 + done)].
           split; [ reflexivity | ]. split; [ auto | ].
           split; [ exact Hle | ]. split; [ auto | ].
           split.
           { intros Hr. specialize (Hok Hr). apply app_inv_head in Hok.
             exfalso.
             assert (Hlen : List.length (jobCalls 0 done
                                         ++ [SubmitJob (0 + done)])
                            = List.length (jobCalls 0 jobs)) by congruence.
             clear - Hlen.
             assert (Hl : forall i n, List.length (jobCalls i n) = (2 * n)%nat).
             { intros i n. revert i. induction n as [ | n IH]; intros i;
                 [ reflexivity | ]. cbn. rewrite IH. lia. }
             rewrite length_app, !Hl in Hlen. cbn in Hlen. lia. }
           left. split; [ reflexivity | ]. split; [ reflexivity | ].
           destruct (stopServerProcess c); cbn; rewrite <- ?app_assoc;
             cbn; reflexivity.
      * exists jobs, [StartServerProcess; WaitForServerReady], (Thrown e2),
          0%nat, [].
        split; [ reflexivity | ]. split; [ auto | ]. split; [ lia | ].
        split; [ auto | ]. split; [ discriminate | ].
        left. split; [ reflexivity | ]. split; [ reflexivity | ].
        destruct (stopServerProcess c); reflexivity.
    + exists jobs, [StartServerProcess], (Thrown e1), 0%nat, [].
      split; [ reflexivity | ]. split; [ auto | ]. split; [ lia | ].
      split; [ auto | ]. split; [ discriminate | ].
      right. split; [ right; eauto | reflexivity ].
  - destruct (jobsLoop_log jobs 0%nat [LoadJobsFile])
      as (done & Hle & Hlog & Hok).
    destruct (jobsLoop c 0 jobs [LoadJobsFile]) as [r log] eqn:Hloop.
    cbn [fst snd] in *.
    exists jobs, [], r.
    destruct Hlog as [-> | ->].
    + exists done, []. split; [ reflexivity | ]. split; [ auto | ].
      split; [ exact Hle | ]. split; [ auto | ].
      split.
      { intros Hr. specialize (Hok Hr). apply app_inv_head in Hok.
        split; [ | reflexivity ].
        assert (Hlen : List.length (jobCalls 0 done)
                       = List.length (jobCalls 0 jobs)) by congruence.
        clear - Hlen.
        assert (Hl : forall i n, List.length (jobCalls i n) = (2 * n)%nat).
        { intros i n. revert i. induction n as [ | n IH]; intros i;
            [ reflexivity | ]. cbn. rewrite IH. lia. }
        rewrite !Hl in Hlen. lia. }
      right. split; [ auto | ]. cbn. rewrite app_nil_r.
      reflexivity.
    + exists done, [SubmitJob (0 + done)].
      split; [ reflexivity | ]. split; [ auto | ].
      split; [ exact Hle | ]. split; [ auto | ].
      split.
      { intros Hr. specialize (Hok Hr). apply app_inv_head in Hok.
        exfalso.
        assert (Hlen : List.length (jobCalls 0 done ++ [SubmitJob (0 + done)])
                       = List.length (jobCalls 0 jobs)) by congruence.
        clear - Hlen.
        assert (Hl : forall i n, List.length (jobCalls i n) = (2 * n)%nat).
        { intros i n. revert i. induction n as [ | n IH]; intros i;
            [ reflexivity | ]. cbn. rewrite IH. lia. }
        rewrite length_app, !Hl in Hlen. cbn in Hlen. lia. }
      right. split; [ auto | ]. reflexivity.
Qed.

Lemma filter_head head :
  head = [] \/ head = [StartServerProcess]
  \/ head = [StartServerProcess; WaitForServerReady] ->
  filter isJobCall head = [] /\ ~ In StopServerProcess head.
Proof.
  intros [-> | [-> | ->]]; cbn; split; try reflexivity; intuition discriminate.
Qed.

(** X24: the jobs are taken one at a time, in the order of the file.
    Whatever the calls of [run] end in, the calls that submit a job and
    wait for its completion are, in this order and each pair complete
    before the next begins, those of the first jobs of the file, with
    at most one more submission whose job was not waited for; when
    [run] is fulfilled they are those of all the jobs. *)
Theorem run_takes_jobs_in_order :
  (exists done,
      filter isJobCall (snd (run startServer c)) = jobCalls 0 done \/
      filter isJobCall (snd (run startServer c))
      = jobCalls 0 done ++ [SubmitJob done]) /\
  (forall jobs,
      loadJobsFile c = Returned jobs ->
      fst (run startServer c) = Returned tt ->
      filter isJobCall (snd (run startServer c)) = jobCalls 0 jobs).
Proof.
  destruct run_shape
    as [(error & Hload & ->)
       | (jobs & head & r & done & tail & Hload & Hhead & Hle & Htail & Hok
          & Hrun)].
  { split; [ exists 0%nat; left; reflexivity | ].
    intros jobs _ H. discriminate H. }
  destruct (filter_head head Hhead) as [Hf _].
  assert (Hfilter :
            filter isJobCall (snd (run startServer c))
            = jobCalls 0 done ++ tail).
  { destruct Hrun as [(_ & _ & ->) | (_ & ->)]; cbn [snd filter isJobCall];
      rewrite !filter_app, Hf, filter_jobCalls;
      destruct Htail as [-> | ->]; cbn; rewrite ?app_nil_r; reflexivity. }
  rewrite Hfilter. split.
  - exists done. destruct Htail as [-> | ->];
      [ left; apply app_nil_r | right; reflexivity ].
  - intros jobs' Hload' Hr. rewrite Hload in Hload'. injection Hload' as <-.
    assert (Hr' : r = Returned tt).
    { destruct Hrun as [(_ & _ & Heq) | (_ & Heq)]; rewrite Heq in Hr;
        cbn [fst] in Hr; [ | exact Hr ].
      destruct (stopServerProcess c) as [[] | e]; [ exact Hr | discriminate Hr ]. }
    destruct (Hok Hr') as [-> ->]. apply app_nil_r.
Qed.

(** X25: a server that [run] has started is stopped, whatever comes
    after.  [stopServerProcess] is called exactly when the jobs file was
    loaded, the server is to be started and [startServerProcess]
    returned; it is then called once, as the last call of all; and when
    it throws, its error is the one [run] is rejected with. *)
Theorem run_stops_started_server :
  (In StopServerProcess (snd (run startServer c)) <->
   startServer = true /\ (exists jobs, loadJobsFile c = Returned jobs) /\
   startServerProcess c = Returned tt) /\
  (In StopServerProcess (snd (run startServer c)) ->
   exists before,
     snd (run startServer c) = before ++ [StopServerProcess] /\
     ~ In StopServerProcess before) /\
  (forall error,
      In StopServerProcess (snd (run startServer c)) ->
      stopServerProcess c = Thrown error ->
      fst (run startServer c) = Thrown error).
Proof.
  destruct run_shape
    as [(error & Hload & ->)
       | (jobs & head & r & done & tail & Hload & Hhead & Hle & Htail & Hok
          & Hrun)].
  { cbn. split; [ | split ].
    - split; [ intros [H | []]; discriminate H | ].
      intros (_ & (jobs & Hj) & _). congruence.
    - intros [H | []]. discriminate H.
    - intros e [H | []]. discriminate H. }
  destruct (filter_head head Hhead) as [_ Hnh].
  assert (Hbefore :
            ~ In StopServerProcess
                (LoadJobsFile :: head ++ jobCalls 0 done ++ tail)).
  { cbn. intros [H | H]; [ discriminate H | ].
    apply in_app_iff in H. destruct H as [H | H]; [ exact (Hnh H) | ].
    apply in_app_iff in H. destruct H as [H | H];
      [ exact (jobCalls_not_stop _ _ H) | ].
    destruct Htail as [-> | ->]; cbn in H; intuition discriminate. }
  destruct Hrun as [(Hs & Hstart & Heq) | (Hno & Heq)]; rewrite Heq;
    cbn [fst snd].
  - assert (Hlog : LoadJobsFile
                   :: head ++ jobCalls 0 done ++ tail ++ [StopServerProcess]
                   = (LoadJobsFile :: head ++ jobCalls 0 done ++ tail)
                       ++ [StopServerProcess]).
    { cbn. rewrite <- !app_assoc. reflexivity. }
    rewrite Hlog. split; [ | split ].
    + split; [ intros _; eauto | ].
      intros _. apply in_app_iff. right. left. reflexivity.
    + intros _. eexists. split; [ reflexivity | exact Hbefore ].
    + intros e _ ->. reflexivity.
  - split; [ | split ].
    + split; [ intros H; destruct (Hbefore H) | ].
      intros (Hs & _ & Hstart).
      destruct Hno as [Hno | (e & He)]; congruence.
    + intros H. destruct (Hbefore H).
    + intros e H. destruct (Hbefore H).
Qed.

End RunFacts.

Section StopServerFacts.
Import MeetingJobs.

Lemma stopping_step i s :
  (promise s = Fulfilled -> promise (step s i) = Fulfilled) /\
  (killed (child s) = true -> killed (child (step s i)) = true) /\
  (killed (child s) = true -> signals (child (step s i)) = signals (child s)).
Proof.
  destruct i as [ | status]; cbn [step]; unfold onTimer, onServerExit.
  - destruct (timer s); [ | repeat split; auto ].
    destruct (killed (child s)) eqn:Hk; cbn [negb promise child].
    + split; [ intros ->; reflexivity | ]. split; [ auto | reflexivity ].
    + split; [ intros ->; reflexivity | ]. split; discriminate.
  - destruct (exitStatus (child s)); [ repeat split; auto | ].
    destruct (listener s); cbn [promise child exited killed signals];
      (split; [ try (intros ->; reflexivity); auto | split; auto ]).
Qed.

Lemma stopping_run inputs :
  forall s,
    (promise s = Fulfilled -> promise (runStopping inputs s) = Fulfilled) /\
    (killed (child s) = true ->
     signals (child (runStopping inputs s)) = signals (child s)).
Proof.
  induction inputs as [ | i inputs IH]; intros s; [ auto | ].
  change (runStopping (i :: inputs) s) with (runStopping inputs (step s i)).
  destruct (stopping_step i s) as (Hp & Hk & Hs).
  destruct (IH (step s i)) as [IHp IHs].
  split; [ auto | ]. intros H. rewrite (IHs (Hk H)). auto.
Qed.

(** X26: [stopServerProcess] sends SIGTERM and waits no longer than its
    timer.  For a child that has not exited the call sends SIGTERM and
    leaves its promise pending; whatever happens then, the promise is
    fulfilled by the first thing that happens, the 'exit' event or the
    timer of 10 s, and the one signal the child gets is the SIGTERM of
    the call, the SIGKILL of the timer being held back by [killed]. *)
Theorem stopServerProcess_ends proc i inputs :
  killed proc = false -> exitStatus proc = None ->
  promise (stopServer proc) = Pending /\
  promise (runStopping (i :: inputs) (stopServer proc)) = Fulfilled /\
  signals (child (runStopping (i :: inputs) (stopServer proc)))
  = signals proc ++ [SIGTERM].
Proof.
  intros Hk He. unfold stopServer, exitCode. rewrite Hk, He. cbn [orb].
  assert (Hkill : kill SIGTERM proc
                  = mkChild (stdin proc) true None (signals proc ++ [SIGTERM])).
  { unfold kill. rewrite He. reflexivity. }
  rewrite Hkill. split; [ reflexivity | ]. split.
  - change (runStopping (i :: inputs) ?s)
      with (runStopping inputs (step s i)).
    apply stopping_run. destruct i; reflexivity.
  - destruct (stopping_run (i :: inputs)
                (mkStopping
                   (mkChild (stdin proc) true None (signals proc ++ [SIGTERM]))
                   true true Pending [Armed 10000; Sent SIGTERM]))
      as [_ Hs].
    rewrite Hs by reflexivity. reflexivity.
Qed.

End StopServerFacts.

Section MeetingJobsExamples.
Import MeetingJobs.

(** Two posts are answered 409 before the job is accepted. *)
Lemma submitJob_waits_out_conflicts_witness :
  submitJob 5000
    (fun i => match i with 0%nat | 1%nat => Conflict | _ => Accepted end)
    (2 + S 0) 0 [] =
  Some (completionOf Accepted, conflicts 5000 0 2 ++ [Post 2%nat]).
Proof.
  apply (submitJob_waits_out_conflicts 5000
           (fun i => match i with 0%nat | 1%nat => Conflict | _ => Accepted end)
           2 0).
  - intros [ | [ | i]] Hi; [ reflexivity | reflexivity | lia ].
  - reflexivity.
Defined.

Lemma submitJob_never_gives_up_witness :
  submitJob 5000 (fun _ => Conflict) 1000 0 [] = None.
Proof.
  apply (submitJob_never_gives_up 5000 (fun _ => Conflict) 1000).
  intros i. reflexivity.
Defined.

(** A running server that ignores SIGTERM for more than 10 s. *)
Lemma stopServerProcess_ends_witness :
  promise (stopServer (SinkExamples.spawned SinkExamples.openPipe)) = Pending /\
  promise (runStopping (TimerElapsed :: [])
             (stopServer (SinkExamples.spawned SinkExamples.openPipe)))
  = Fulfilled /\
  signals (child (runStopping (TimerElapsed :: [])
                    (stopServer (SinkExamples.spawned SinkExamples.openPipe))))
  = signals (SinkExamples.spawned SinkExamples.openPipe) ++ [SIGTERM].
Proof.
  apply (stopServerProcess_ends
           (SinkExamples.spawned SinkExamples.openPipe) TimerElapsed []);
    reflexivity.
Defined.

End MeetingJobsExamples.

(* --------------------------------------------------------------------- *)
(** ** The detection of the end of a meeting *)
(* --------------------------------------------------------------------- *)

Section LoneTestFacts.
Import RecordingTask.

Variables duration inactivityLimit activateInactivityDetectionAfter : Z.
Variable dom : Z -> DomSnapshot.
Variable silent : Z -> bool.
Variable stopThrowsWhenInactive : bool.

Local Abbreviation stop := (stopTheRecording stopThrowsWhenInactive).
Local Abbreviation step1 :=
  (step inactivityLimit dom silent stopThrowsWhenInactive).
Local Abbreviation run :=
  (steps inactivityLimit dom silent stopThrowsWhenInactive).
Local Abbreviation fire1 :=
  (fire inactivityLimit dom silent stopThrowsWhenInactive).

(** A callback that leaves the recorder running clears no timer. *)
Lemma monitorSilence_keeps q :
  state (monitorSilence inactivityLimit silent stopThrowsWhenInactive q)
  = recording ->
  forall t, In t (timers q) ->
            In t (timers (monitorSilence inactivityLimit silent
                            stopThrowsWhenInactive q)).
Proof.
  unfold monitorSilence. cbn zeta.
  destruct (silent (now q)).
  - destruct (silenceDuration (setSilenceDuration (silenceDuration q + 100) q)
              >=? inactivityLimit).
    + intros Hs. exfalso.
      match type of Hs with
      | state (if monitor ?x then _ else _) = _ =>
          assert (Hi : state x = inactive) by apply stop_inactive;
          destruct (monitor x); cbn in Hs; congruence
      end.
    + intros _ t Hin.
      destruct (monitor (setSilenceDuration (silenceDuration q + 100) q));
        cbn; [ apply in_app_iff; left | ]; exact Hin.
  - intros _ t Hin.
    destruct (monitor (setSilenceDuration 0 q));
      cbn; [ apply in_app_iff; left | ]; exact Hin.
Qed.

Lemma loneTestBody_keeps q :
  state (loneTestBody dom stopThrowsWhenInactive q) = recording ->
  forall t, In t (timers q) ->
            In t (timers (loneTestBody dom stopThrowsWhenInactive q)).
Proof.
  unfold loneTestBody. cbn zeta.
  destruct (broken (dom (now q))); [ intros _ t Hin; exact Hin | ].
  assert (H1 : forall p1,
             p1 = (if okButton (dom (now q))
                   then
                     if meetingEnded (dom (now q))
                     then stop (setMonitor false
                                  (clearTimer LoneTest (note ClickedOk q)))
                     else note ClickedOk q
                   else q) ->
             state p1 = recording ->
             forall t, In t (timers q) -> In t (timers p1)).
  { intros p1 -> Hs t Hin.
    destruct (okButton (dom (now q))); [ | exact Hin ].
    destruct (meetingEnded (dom (now q))); [ | exact Hin ].
    rewrite stop_inactive in Hs. discriminate Hs. }
  destruct (participants (dom (now q))) as [k | ].
  - destruct (k >? 1); [ apply H1; reflexivity | ].
    intros Hs. rewrite stop_inactive in Hs. discriminate Hs.
  - cbn. apply H1. reflexivity.
Qed.

(** A look that finds the meeting over stops the recorder. *)
Lemma loneTestBody_detects q :
  endDetected (dom (now q)) ->
  state (loneTestBody dom stopThrowsWhenInactive q) = inactive.
Proof.
  intros (Hb & Hend). unfold loneTestBody. cbn zeta. rewrite Hb.
  destruct Hend as [[Hok Hme] | (k & Hp & Hk)].
  - rewrite Hok, Hme.
    destruct (participants (dom (now q))) as [k | ].
    + destruct (k >? 1); apply stop_inactive.
    + cbn. apply stop_inactive.
  - rewrite Hp. destruct (Z.gtb_spec k 1); [ lia | ]. apply stop_inactive.
Qed.

Lemma fire_keeps cb q :
  cb <> StopAfterDuration ->
  state (fire1 cb q) = recording ->
  (forall t, In t (timers q) -> In t (timers (fire1 cb q))) /\
  (cb = ActivateInactivityDetection \/ cb = LoneTest ->
   In (mkTimer (now q + 2000) LoneTest) (timers (fire1 cb q))).
Proof.
  intros Hcb Hs.
  assert (Harm : In (mkTimer (now q + 2000) LoneTest)
                    (timers (setTimeout LoneTest 2000 q))).
  { cbn. apply in_app_iff. right. left. reflexivity. }
  assert (Hold : forall t, In t (timers q) ->
                           In t (timers (setTimeout LoneTest 2000 q))).
  { intros t Hin. cbn. apply in_app_iff. left. exact Hin. }
  destruct cb; [ congruence | | | ]; cbn [fire] in *.
  - pose proof (monitorSilence_keeps _ Hs) as Hk.
    split; [ intros t Hin; apply Hk, Hold, Hin | intros _; apply Hk, Harm ].
  - pose proof (loneTestBody_keeps _ Hs) as Hk.
    split; [ intros t Hin; apply Hk, Hold, Hin | intros _; apply Hk, Harm ].
  - split; [ apply monitorSilence_keeps, Hs | intros [H | H]; discriminate H ].
Qed.

Lemma lookDue_progress T p :
  0 <= T < 2147483648 ->
  endDetected (dom T) ->
  lookDue T p -> state p = recording ->
  exists p',
    step1 p = Some p' /\
    ((state p' = inactive /\ now p' <= T) \/
     (state p' = recording /\ lookDue T p' /\
      load T (timers p') + 1 <= load T (timers p))).
Proof.
  intros HT Hend (Hfut & Hdue) Hrec.
  destruct (Hdue Hrec) as (d & Hmod & Hpending).
  assert (Hu : exists u, In u (timers p) /\ deadline u = d /\ d <= T).
  { destruct Hpending as [[Hd Hin] | [Hd Hin]];
      eexists; (split; [ exact Hin | ]); cbn; lia. }
  destruct Hu as (u & Hu & Hud & HdT).
  destruct (next_some _ _ Hu) as (t & rest & Hnext).
  destruct (next_spec _ _ _ Hnext) as [Hin Hmin].
  rewrite Forall_forall in Hfut, Hmin.
  assert (HtT : deadline t <= T).
  { apply Hin in Hu. destruct Hu as [-> | Hr]; [ lia | ].
    specialize (Hmin _ Hr). lia. }
  exists (fire1 (callback t) (due t rest p)).
  split; [ unfold step; rewrite Hnext; reflexivity | ].
  destruct (later_fire duration inactivityLimit dom silent
              stopThrowsWhenInactive (callback t) (due t rest p))
    as [Hnow Hlater].
  cbn [now timers due] in Hnow, Hlater.
  destruct (state (fire1 (callback t) (due t rest p))) eqn:Hs;
    [ left; split; [ reflexivity | rewrite Hnow; exact HtT ] | right ].
  split; [ reflexivity | ].
  assert (Hcb : callback t <> StopAfterDuration).
  { intros Hc. rewrite Hc in Hs. cbn [fire] in Hs.
    rewrite stop_inactive in Hs. discriminate Hs. }
  destruct (fire_keeps (callback t) (due t rest p) Hcb Hs) as [Hkeep Harm].
  cbn [now timers due] in Hkeep, Harm.
  split; [ split | ].
  - rewrite Forall_forall. intros v Hv. rewrite Hnow.
    destruct (Hlater v Hv) as [Hr | [Hr _]]; [ apply Hmin, Hr | exact Hr ].
  - intros _.
    assert (Hcase :
              (exists cb, (cb = ActivateInactivityDetection /\ d < T
                           \/ cb = LoneTest)
                          /\ t = mkTimer d cb) \/
              (exists cb, (cb = ActivateInactivityDetection /\ d < T
                           \/ cb = LoneTest)
                          /\ In (mkTimer d cb) rest)).
    { destruct Hpending as [[Hd Hp] | [Hd Hp]]; apply Hin in Hp;
        destruct Hp as [Hp | Hp]; eauto 8. }
    destruct Hcase as [(cb & Hkind & ->) | (cb & Hkind & Hr)].
    + cbn [callback deadline] in *.
      assert (Hlt : d < T).
      { destruct Hkind as [[_ Hd] | ->]; [ exact Hd | ].
        destruct (Z.eq_dec d T) as [-> | Hne]; [ | lia ].
        cbn [fire] in Hs.
        rewrite loneTestBody_detects in Hs by exact Hend.
        discriminate Hs. }
      exists (d + 2000). split.
      * rewrite <- Hmod. replace (T - (d + 2000)) with (T - d + (-1) * 2000)
          by lia. apply Z.mod_add. lia.
      * right. split.
        -- assert (2000 <= T - d); [ | lia ].
           apply Z.mod_divide in Hmod; [ | lia ].
           destruct Hmod as [k Hk]. nia.
        -- apply Harm. destruct Hkind as [[-> _] | ->]; auto.
    + exists d. split; [ exact Hmod | ].
      destruct Hkind as [[-> Hd] | ->];
        [ left; split; [ exact Hd | ] | right; split; [ exact HdT | ] ];
        apply Hkeep, Hr.
  - pose proof (calm_fire T inactivityLimit dom silent stopThrowsWhenInactive
                  (callback t) (due t rest p) Hcb) as Hcalm.
    pose proof (load_next T _ _ _ Hnext) as Hload.
    rewrite (timerDelay_small T HT) in Hcalm, Hload.
    destruct (Hcalm HtT) as [_ [Hi | (_ & _ & Hl)]]; [ congruence | ].
    cbn [now timers due] in Hl.
    replace (mkTimer (deadline t) (callback t)) with t in Hl
      by (destruct t; reflexivity).
    lia.
Qed.

Lemma lookDue_stops T n :
  0 <= T < 2147483648 ->
  endDetected (dom T) ->
  forall p,
    lookDue T p -> state p = recording -> load T (timers p) <= Z.of_nat n ->
    exists k p',
      run k p = Some p' /\ state p' = inactive /\ now p' <= T.
Proof.
  intros HT Hend. induction n as [ | n IH]; intros p Hinv Hrec Hload.
  - destruct (lookDue_progress T p HT Hend Hinv Hrec)
      as (p1 & Hstep & [(Hi & Hle) | (Hr & Hinv1 & Hl)]).
    + exists 1%nat, p1. cbn. rewrite Hstep. auto.
    + pose proof (load_nonneg T (timers p1)) as Hnn.
      rewrite (timerDelay_small T HT) in Hnn. lia.
  - destruct (lookDue_progress T p HT Hend Hinv Hrec)
      as (p1 & Hstep & [(Hi & Hle) | (Hr & Hinv1 & Hl)]).
    + exists 1%nat, p1. cbn. rewrite Hstep. auto.
    + destruct (IH p1 Hinv1 Hr ltac:(lia)) as (k & p' & Hrun & Hrest).
      exists (S k), p'. split; [ | exact Hrest ].
      cbn. rewrite Hstep. exact Hrun.
Qed.

(** X27: a look that finds the meeting over stops the recording.  The
    page is looked at every 2 s from the activation of the inactivity
    detection on.  When the look number [j + 1] would find that the
    meeting is over (the notice that the host ended it, or at most one
    participant), the recorder is stopped by the time of that look,
    whatever the page and the audio do before. *)
Theorem end_of_meeting_detected_in_time (j : nat) :
  endDetected
    (dom (timerDelay activateInactivityDetectionAfter
          + 2000 * (Z.of_nat j + 1))) ->
  exists n p,
    run n (started duration activateInactivityDetectionAfter) = Some p /\
    state p = inactive /\
    now p <= timerDelay activateInactivityDetectionAfter
             + 2000 * (Z.of_nat j + 1).
Proof.
  intros Hend.
  pose proof (timerDelay_nonneg activateInactivityDetectionAfter) as HA.
  pose proof (timerDelay_nonneg duration) as HD.
  set (T := timerDelay activateInactivityDetectionAfter
            + 2000 * (Z.of_nat j + 1)) in *.
  destruct (Z_lt_ge_dec T 2147483648) as [Hsmall | Hbig].
  - apply (lookDue_stops T
             (Z.to_nat (load T (timers (started duration
                                          activateInactivityDetectionAfter)))));
      [ lia | exact Hend | | reflexivity | ].
    + split.
      * unfold started. cbn.
        constructor; [ cbn; lia | ]. constructor; [ cbn; lia | constructor ].
      * intros _. exists (timerDelay activateInactivityDetectionAfter).
        split.
        -- unfold T.
           replace (timerDelay activateInactivityDetectionAfter
                    + 2000 * (Z.of_nat j + 1)
                    - timerDelay activateInactivityDetectionAfter)
             with ((Z.of_nat j + 1) * 2000) by lia.
           apply Z.mod_mul. lia.
        -- left. split; [ unfold T; lia | ].
           unfold started. cbn. left. reflexivity.
    + pose proof (load_nonneg T
                    (timers (started duration
                               activateInactivityDetectionAfter))) as Hnn.
      rewrite (timerDelay_small T) in Hnn by lia. lia.
  - destruct (ceiling_on_page duration inactivityLimit
                activateInactivityDetectionAfter dom silent
                stopThrowsWhenInactive)
      as [_ (n & p & Hrun & Hs & Hle & _)].
    exists n, p. split; [ exact Hrun | ]. split; [ exact Hs | ].
    assert (timerDelay duration < 2147483648); [ | lia ].
    unfold timerDelay. Z.div_mod_to_equations. lia.
Qed.

End LoneTestFacts.

Section LoneTestExamples.
Import RecordingTask PageExamples.

(** The bot is alone: the first look, 2 s after the detection starts,
    ends the recording. *)
Lemma end_of_meeting_detected_in_time_witness :
  exists n p,
    steps 60000 emptyMeeting talking false n (started 3600000 30000) = Some p /\
    state p = inactive /\
    now p <= timerDelay 30000 + 2000 * (Z.of_nat 0 + 1).
Proof.
  apply (end_of_meeting_detected_in_time 3600000 60000 30000 emptyMeeting
           talking false 0).
  split; [ reflexivity | ]. right. exists 1. split; [ reflexivity | lia ].
Defined.

End LoneTestExamples.
Section SilenceFacts.
Import RecordingTask.

Variables duration inactivityLimit activateInactivityDetectionAfter : Z.
Variable dom : Z -> DomSnapshot.
Variable silent : Z -> bool.
Variable stopThrowsWhenInactive : bool.

Local Abbreviation stop := (stopTheRecording stopThrowsWhenInactive).
Local Abbreviation step1 :=
  (step inactivityLimit dom silent stopThrowsWhenInactive).
Local Abbreviation run :=
  (steps inactivityLimit dom silent stopThrowsWhenInactive).
Local Abbreviation fire1 :=
  (fire inactivityLimit dom silent stopThrowsWhenInactive).

(** Taking the next timer out of the queue leaves the others in their
    order. *)
Lemma next_filter (f : Timer -> bool) l t rest :
  next l = Some (t, rest) ->
  (f t = false -> filter f rest = filter f l) /\
  (f t = true ->
   List.length (filter f l) = S (List.length (filter f rest))).
Proof.
  revert t rest. induction l as [ | x l IH]; intros t rest H;
    [ discriminate H | ].
  cbn in H. destruct (next l) as [[u r] | ] eqn:Hn.
  - destruct (IH u r eq_refl) as [IHf IHt].
    destruct (deadline x <=? deadline u); injection H as <- <-.
    + split; intros Hf; cbn; rewrite Hf; reflexivity.
    + cbn. split; intros Hf.
      * rewrite (IHf Hf). reflexivity.
      * destruct (f x); cbn; rewrite (IHt Hf); reflexivity.
  - injection H as <- <-. destruct l as [ | y l].
    + split; intros Hf; cbn; rewrite Hf; reflexivity.
    + cbn in Hn. destruct (next l) as [[u r] | ];
        [ destruct (deadline y <=? deadline u) | ]; discriminate Hn.
Qed.

(** A look at the page that leaves the recorder running changes
    nothing but the notes. *)
Lemma loneTestBody_recording q :
  state (loneTestBody dom stopThrowsWhenInactive q) = recording ->
  timers (loneTestBody dom stopThrowsWhenInactive q) = timers q /\
  monitor (loneTestBody dom stopThrowsWhenInactive q) = monitor q /\
  silenceDuration (loneTestBody dom stopThrowsWhenInactive q)
  = silenceDuration q.
Proof.
  unfold loneTestBody. cbn zeta.
  destruct (broken (dom (now q))); [ intros _; repeat split | ].
  assert (H1 : forall p1,
             p1 = (if okButton (dom (now q))
                   then
                     if meetingEnded (dom (now q))
                     then stop (setMonitor false
                                  (clearTimer LoneTest (note ClickedOk q)))
                     else note ClickedOk q
                   else q) ->
             state p1 = recording ->
             timers p1 = timers q /\ monitor p1 = monitor q /\
             silenceDuration p1 = silenceDuration q).
  { intros p1 -> Hs.
    destruct (okButton (dom (now q))); [ | repeat split ].
    destruct (meetingEnded (dom (now q))); [ | repeat split ].
    rewrite stop_inactive in Hs. discriminate Hs. }
  destruct (participants (dom (now q))) as [k | ].
  - destruct (k >? 1); [ apply H1; reflexivity | ].
    intros Hs. rewrite stop_inactive in Hs. discriminate Hs.
  - cbn. apply H1. reflexivity.
Qed.

(** [monitorSilence] when the audio is silent. *)
Lemma monitorSilence_silent q :
  silent (now q) = true -> monitor q = true ->
  (inactivityLimit <= silenceDuration q + 100 ->
   state (monitorSilence inactivityLimit silent stopThrowsWhenInactive q)
   = inactive) /\
  (state (monitorSilence inactivityLimit silent stopThrowsWhenInactive q)
   = recording ->
   timers (monitorSilence inactivityLimit silent stopThrowsWhenInactive q)
   = timers q ++ [mkTimer (now q + 100) MonitorSilence] /\
   monitor (monitorSilence inactivityLimit silent stopThrowsWhenInactive q)
   = true /\
   silenceDuration
     (monitorSilence inactivityLimit silent stopThrowsWhenInactive q)
   = silenceDuration q + 100).
Proof.
  intros Hsil Hmon. unfold monitorSilence. cbn zeta. rewrite Hsil.
  cbn [silenceDuration setSilenceDuration].
  destruct (Z.geb_spec (silenceDuration q + 100) inactivityLimit) as [Hge | Hlt].
  - match goal with
    | |- context [if monitor ?x then _ else _] =>
        assert (Hi : state x = inactive) by apply stop_inactive;
        assert (Hr : state (if monitor x
                            then setTimeout MonitorSilence 100 x else x)
                     = inactive)
          by (destruct (monitor x); exact Hi)
    end.
    split; [ intros _; exact Hr | intros Hs; congruence ].
  - cbn [monitor setSilenceDuration]. rewrite Hmon.
    split; [ intros H; lia | intros _ ]. repeat split. exact Hmon.
Qed.

Lemma silenceDue_progress K p :
  let A := timerDelay activateInactivityDetectionAfter in
  let T := A + 100 * (K - 1) in
  0 <= T < 2147483648 -> 1 <= K ->
  inactivityLimit <= 100 * K ->
  (forall i, 0 <= i < K -> silent (A + 100 * i) = true) ->
  silenceDue A T p -> state p = recording ->
  exists p',
    step1 p = Some p' /\
    ((state p' = inactive /\ now p' <= T) \/
     (state p' = recording /\ silenceDue A T p' /\
      load T (timers p') + 1 <= load T (timers p))).
Proof.
  intros A T HT HK Hlimit Hsilent (Hfut & Hdue) Hrec.
  destruct (Hdue Hrec) as (Hmon & d & cb & Hchain & Hd & Hmod & Hsd).
  assert (Hu : In (mkTimer d cb) (timers p)).
  { assert (H : In (mkTimer d cb) (filter runsMonitorSilence (timers p)))
      by (rewrite Hchain; left; reflexivity).
    apply filter_In in H. apply H. }
  assert (Hucb : runsMonitorSilence (mkTimer d cb) = true).
  { assert (H : In (mkTimer d cb) (filter runsMonitorSilence (timers p)))
      by (rewrite Hchain; left; reflexivity).
    apply filter_In in H. apply H. }
  destruct (next_some _ _ Hu) as (t & rest & Hnext).
  destruct (next_spec _ _ _ Hnext) as [Hin Hmin].
  destruct (next_filter runsMonitorSilence _ _ _ Hnext) as [Hother Hself].
  rewrite Forall_forall in Hfut, Hmin.
  assert (HtT : deadline t <= T).
  { apply Hin in Hu. destruct Hu as [<- | Hr]; [ cbn; lia | ].
    specialize (Hmin _ Hr). cbn in Hmin. lia. }
  exists (fire1 (callback t) (due t rest p)).
  split; [ unfold step; rewrite Hnext; reflexivity | ].
  destruct (later_fire duration inactivityLimit dom silent
              stopThrowsWhenInactive (callback t) (due t rest p))
    as [Hnow Hlater].
  cbn [now timers due] in Hnow, Hlater.
  destruct (state (fire1 (callback t) (due t rest p))) eqn:Hs;
    [ left; split; [ reflexivity | rewrite Hnow; exact HtT ] | right ].
  split; [ reflexivity | ].
  assert (Hcb : callback t <> StopAfterDuration).
  { intros Hc. rewrite Hc in Hs. cbn [fire] in Hs.
    rewrite stop_inactive in Hs. discriminate Hs. }
  split; [ split | ].
  - rewrite Forall_forall. intros v Hv. rewrite Hnow.
    destruct (Hlater v Hv) as [Hr | [Hr _]]; [ apply Hmin, Hr | exact Hr ].
  - intros _.
    destruct (runsMonitorSilence t) eqn:Hrt.
    + (* the timer of [monitorSilence] itself *)
      assert (Ht : t = mkTimer d cb).
      { assert (H : In t (filter runsMonitorSilence (timers p))).
        { apply filter_In. split; [ apply Hin; left; reflexivity | exact Hrt ]. }
        rewrite Hchain in H. destruct H as [H | []]. symmetry. exact H. }
      assert (Hrest : filter runsMonitorSilence rest = []).
      { specialize (Hself eq_refl). rewrite Hchain in Hself. cbn in Hself.
        destruct (filter runsMonitorSilence rest); [ reflexivity | ].
        cbn in Hself. lia. }
      subst t. cbn [callback deadline] in *.
      assert (Hsil : silent d = true).
      { assert (Hi : d = A + 100 * ((d - A) / 100)).
        { pose proof (Z.div_mod (d - A) 100 ltac:(lia)). lia. }
        rewrite Hi. apply Hsilent.
        split; [ apply Z.div_pos; lia | ].
        apply Z.div_lt_upper_bound; lia. }
      assert (Hgo :
                forall q,
                  now q = d -> monitor q = true ->
                  silenceDuration q = d - A ->
                  filter runsMonitorSilence (timers q) = [] ->
                  state (monitorSilence inactivityLimit silent
                           stopThrowsWhenInactive q) = recording ->
                  monitor (monitorSilence inactivityLimit silent
                             stopThrowsWhenInactive q) = true /\
                  exists d' cb',
                    filter runsMonitorSilence
                      (timers (monitorSilence inactivityLimit silent
                                 stopThrowsWhenInactive q))
                    = [mkTimer d' cb'] /\
                    A <= d' <= T /\ (d' - A) mod 100 = 0 /\
                    silenceDuration
                      (monitorSilence inactivityLimit silent
                         stopThrowsWhenInactive q) = d' - A).
      { intros q Hq Hmq Hsq Hfq Hsq'.
        destruct (monitorSilence_silent q ltac:(rewrite Hq; exact Hsil) Hmq)
          as [Hstop Hkeep].
        destruct (Hkeep Hsq') as (Htm & Hm' & Hsd').
        split; [ exact Hm' | ].
        exists (d + 100), MonitorSilence.
        rewrite Htm, filter_app, Hfq, Hq. cbn.
        split; [ reflexivity | ].
        assert (Hnot : ~ inactivityLimit <= silenceDuration q + 100).
        { intros H. rewrite (Hstop H) in Hsq'. discriminate Hsq'. }
        split; [ | split ].
        - assert (d <> T); [ | unfold T in *;
            assert ((T - d) mod 100 = 0);
            [ unfold T; replace (A + 100 * (K - 1) - d)
                with (- (d - A) + (K - 1) * 100) by lia;
              rewrite Z.mod_add by lia;
              apply Z.mod_opp_l_z; lia
            | ];
            assert (H100 : 100 <= T - d);
            [ apply Z.mod_divide in H0; [ | lia ];
              destruct H0 as [k Hk]; unfold T in *; nia
            | unfold T in *; lia ] ].
          intros ->. apply Hnot. unfold T in *. lia.
        - replace (d + 100 - A) with (d - A + 1 * 100) by lia.
          rewrite Z.mod_add by lia. exact Hmod.
        - lia. }
      destruct cb; try discriminate Hucb; cbn [fire] in Hs |- *.
      * apply Hgo; try assumption; cbn; try reflexivity.
        rewrite filter_app, Hrest. reflexivity.
      * apply Hgo; try assumption; reflexivity.
    + (* another timer *)
      specialize (Hother eq_refl).
      destruct (callback t) eqn:Hct; try congruence;
        try (unfold runsMonitorSilence in Hrt; rewrite Hct in Hrt;
             discriminate Hrt).
      cbn [fire] in Hs |- *.
      destruct (loneTestBody_recording _ Hs) as (Htm & Hm & Hsd').
      rewrite Htm, Hm, Hsd'. cbn.
      split; [ exact Hmon | ]. exists d, cb.
      rewrite filter_app, Hother, Hchain. cbn.
      split; [ reflexivity | ]. split; [ exact Hd | ].
      split; [ exact Hmod | exact Hsd ].
  - pose proof (calm_fire T inactivityLimit dom silent stopThrowsWhenInactive
                  (callback t) (due t rest p) Hcb) as Hcalm.
    pose proof (load_next T _ _ _ Hnext) as Hload.
    rewrite (timerDelay_small T HT) in Hcalm, Hload.
    destruct (Hcalm HtT) as [_ [Hi | (_ & _ & Hl)]]; [ congruence | ].
    cbn [now timers due] in Hl.
    replace (mkTimer (deadline t) (callback t)) with t in Hl
      by (destruct t; reflexivity).
    lia.
Qed.

Lemma silenceDue_stops K n :
  let A := timerDelay activateInactivityDetectionAfter in
  let T := A + 100 * (K - 1) in
  0 <= T < 2147483648 -> 1 <= K ->
  inactivityLimit <= 100 * K ->
  (forall i, 0 <= i < K -> silent (A + 100 * i) = true) ->
  forall p,
    silenceDue A T p -> state p = recording ->
    load T (timers p) <= Z.of_nat n ->
    exists k p',
      run k p = Some p' /\ state p' = inactive /\ now p' <= T.
Proof.
  intros A T HT HK Hlimit Hsilent.
  induction n as [ | n IH]; intros p Hinv Hrec Hload.
  - destruct (silenceDue_progress K p HT HK Hlimit Hsilent Hinv Hrec)
      as (p1 & Hstep & [(Hi & Hle) | (Hr & Hinv1 & Hl)]).
    + exists 1%nat, p1. cbn. rewrite Hstep. auto.
    + pose proof (load_nonneg T (timers p1)) as Hnn.
      rewrite (timerDelay_small T HT) in Hnn. unfold T, A in *. lia.
  - destruct (silenceDue_progress K p HT HK Hlimit Hsilent Hinv Hrec)
      as (p1 & Hstep & [(Hi & Hle) | (Hr & Hinv1 & Hl)]).
    + exists 1%nat, p1. cbn. rewrite Hstep. auto.
    + destruct (IH p1 Hinv1 Hr ltac:(unfold T, A in *; lia))
        as (k & p' & Hrun & Hrest).
      exists (S k), p'. split; [ | exact Hrest ].
      cbn. rewrite Hstep. exact Hrun.
Qed.

(** X28: silence stops the recording.  [monitorSilence] runs every
    100 ms from the activation of the inactivity detection on.  When
    the audio is silent at its first [K] runs and [K] runs of 100 ms
    make up the inactivity limit, the recorder is stopped by the time
    of run number [K], whatever the page shows. *)
Theorem silence_detected_in_time (K : Z) :
  1 <= K ->
  inactivityLimit <= 100 * K ->
  (forall i, 0 <= i < K ->
             silent (timerDelay activateInactivityDetectionAfter + 100 * i)
             = true) ->
  exists n p,
    run n (started duration activateInactivityDetectionAfter) = Some p /\
    state p = inactive /\
    now p <= timerDelay activateInactivityDetectionAfter + 100 * (K - 1).
Proof.
  intros HK Hlimit Hsilent.
  pose proof (timerDelay_nonneg activateInactivityDetectionAfter) as HA.
  pose proof (timerDelay_nonneg duration) as HD.
  destruct (Z_lt_ge_dec (timerDelay activateInactivityDetectionAfter
                         + 100 * (K - 1)) 2147483648) as [Hsmall | Hbig].
  - apply (silenceDue_stops K
             (Z.to_nat
                (load (timerDelay activateInactivityDetectionAfter
                       + 100 * (K - 1))
                   (timers (started duration
                              activateInactivityDetectionAfter)))));
      [ lia | exact HK | exact Hlimit | exact Hsilent | | reflexivity | ].
    + split.
      * unfold started. cbn.
        constructor; [ cbn; lia | ]. constructor; [ cbn; lia | constructor ].
      * intros _. split; [ reflexivity | ].
        exists (timerDelay activateInactivityDetectionAfter),
          ActivateInactivityDetection.
        split; [ reflexivity | ]. split; [ lia | ].
        split; [ rewrite Z.sub_diag; reflexivity | ].
        cbn. lia.
    + pose proof (load_nonneg
                    (timerDelay activateInactivityDetectionAfter
                     + 100 * (K - 1))
                    (timers (started duration
                               activateInactivityDetectionAfter))) as Hnn.
      rewrite (timerDelay_small
                 (timerDelay activateInactivityDetectionAfter
                  + 100 * (K - 1))) in Hnn by lia.
      lia.
  - destruct (ceiling_on_page duration inactivityLimit
                activateInactivityDetectionAfter dom silent
                stopThrowsWhenInactive)
      as [_ (n & p & Hrun & Hs & Hle & _)].
    exists n, p. split; [ exact Hrun | ]. split; [ exact Hs | ].
    assert (timerDelay duration < 2147483648); [ | lia ].
    unfold timerDelay. Z.div_mod_to_equations. lia.
Qed.

End SilenceFacts.

Section SilenceExamples.
Import RecordingTask PageExamples.

(** A busy meeting gone silent, with an inactivity limit of one minute:
    600 silent runs of [monitorSilence] end the recording. *)
Lemma silence_detected_in_time_witness :
  exists n p,
    steps 60000 busyMeeting (fun _ => true) false n (started 3600000 30000)
    = Some p /\
    state p = inactive /\
    now p <= timerDelay 30000 + 100 * (600 - 1).
Proof.
  apply (silence_detected_in_time 3600000 60000 30000 busyMeeting
           (fun _ => true) false 600).
  - lia.
  - lia.
  - intros i _. reflexivity.
Defined.

End SilenceExamples.

(* --------------------------------------------------------------------- *)
(** ** The runner of meeting jobs: polling the server *)
(* --------------------------------------------------------------------- *)

Section PollingFacts.
Import Polling.

Variables pollIntervalMs startTimeoutMs : Z.
Variable clock : nat -> Z.
Variable health : nat -> Health.
Variable getBusyStatus : nat -> Completion Z.

Lemma rounds_snoc request ms n :
  rounds request ms n ++ [request; Sleep ms] = rounds request ms (S n).
Proof.
  induction n as [ | n IH]; [ reflexivity | ].
  cbn [rounds app]. rewrite IH. reflexivity.
Qed.

Lemma busyLoop_rounds desiredState timeoutMs n :
  forall fuel,
    (forall i, (i < n)%nat ->
               decisive desiredState (getBusyStatus i) = false /\
               overdue clock timeoutMs i = false) ->
    waitForBusyState pollIntervalMs clock getBusyStatus (n + fuel)
      desiredState timeoutMs =
    busyLoop pollIntervalMs clock getBusyStatus fuel desiredState timeoutMs
      (if timeoutMs >? 0 then Some (clock 0%nat + timeoutMs) else None)
      (if timeoutMs >? 0 then S n else 0%nat) n
      (rounds GetIsBusy pollIntervalMs n).
Proof.
  unfold waitForBusyState, overdue.
  induction n as [ | n IH]; intros fuel Hquiet.
  - destruct (timeoutMs >? 0); reflexivity.
  - replace (S n + fuel)%nat with (n + S fuel)%nat by lia.
    rewrite IH by (intros i Hi; apply Hquiet; lia).
    destruct (Hquiet n ltac:(lia)) as [Hd Ho].
    cbn [busyLoop]. unfold decisive in Hd.
    destruct (getBusyStatus n) as [busyState | error]; [ | discriminate Hd ].
    rewrite Hd, rounds_snoc.
    destruct (timeoutMs >? 0); cbn [andb] in Ho |- *;
      [ rewrite Ho | ]; reflexivity.
Qed.

(** X29: [waitForBusyState] ends at the first poll that decides.  The
    state is polled first and the deadline is looked at after it, and
    only when [timeoutMs] is positive.  When the first [n] polls neither
    show the desired state nor fail, the deadline is not over after any
    of them, and the next poll shows the desired state, fails or finds
    the deadline over, then [waitForBusyState] takes [n + 1] polls, with
    a sleep of [pollIntervalMs] after each of the first [n], and ends as
    that poll decides: fulfilled on the desired state, rejected with the
    error of the poll, or rejected with the error whose message is
    [`Timed out waiting for isbusy=${desiredState} after
    ${timeoutMs}ms`]. *)
Theorem waitForBusyState_ends_at_first_decision desiredState timeoutMs n fuel :
  (forall i, (i < n)%nat ->
             decisive desiredState (getBusyStatus i) = false /\
             overdue clock timeoutMs i = false) ->
  decisive desiredState (getBusyStatus n) || overdue clock timeoutMs n = true ->
  waitForBusyState pollIntervalMs clock getBusyStatus (n + S fuel)
    desiredState timeoutMs =
  Some (match getBusyStatus n with
        | Returned busyState =>
            if busyState =? desiredState then Returned tt
            else Thrown (timedOut desiredState timeoutMs)
        | Thrown error => Thrown error
        end,
        rounds GetIsBusy pollIntervalMs n ++ [GetIsBusy]).
Proof.
  intros Hquiet Hn.
  rewrite busyLoop_rounds by exact Hquiet.
  cbn [busyLoop]. unfold decisive, overdue in *.
  destruct (getBusyStatus n) as [busyState | error]; [ | reflexivity ].
  destruct (busyState =? desiredState); [ reflexivity | ].
  cbn [orb] in Hn. apply andb_true_iff in Hn. destruct Hn as [Ht Hc].
  rewrite Ht, Hc. reflexivity.
Qed.

Lemma readyLoop_rounds n :
  forall fuel,
    (forall i, (i < n)%nat ->
               clock (S i) < clock 0%nat + startTimeoutMs /\
               isHealthy (health i) = false) ->
    waitForServerReady startTimeoutMs clock health (n + fuel) =
    readyLoop startTimeoutMs clock health fuel
      (clock 0%nat + startTimeoutMs) (S n) n (rounds GetHealth 2000 n).
Proof.
  unfold waitForServerReady.
  induction n as [ | n IH]; intros fuel Hquiet; [ reflexivity | ].
  replace (S n + fuel)%nat with (n + S fuel)%nat by lia.
  rewrite IH by (intros i Hi; apply Hquiet; lia).
  destruct (Hquiet n ltac:(lia)) as [Hc Hh].
  cbn [readyLoop].
  destruct (Z.ltb_spec (clock (S n)) (clock 0%nat + startTimeoutMs));
    [ | lia ].
  destruct (health n); [ discriminate Hh | | ];
    rewrite rounds_snoc; reflexivity.
Qed.

(** X30: [waitForServerReady] asks for /health every 2 s until the
    answer is 200 or the clock has reached the deadline.  When the
    first [n] requests are made before the deadline and are not
    answered 200, and at the next reading of the clock the deadline is
    reached or the next request is answered 200, the function ends
    there: rejected, without another request, when the deadline is
    reached, with the error whose message is [`Server did not become
    healthy within ${startTimeoutMs}ms`], and fulfilled else.  A
    request that fails is passed over like any other answer. *)
Theorem waitForServerReady_ends n fuel :
  (forall i, (i < n)%nat ->
             clock (S i) < clock 0%nat + startTimeoutMs /\
             isHealthy (health i) = false) ->
  (clock 0%nat + startTimeoutMs <=? clock (S n)) || isHealthy (health n)
  = true ->
  waitForServerReady startTimeoutMs clock health (n + S fuel) =
  Some (if clock 0%nat + startTimeoutMs <=? clock (S n)
        then (Thrown (notHealthy startTimeoutMs), rounds GetHealth 2000 n)
        else (Returned tt, rounds GetHealth 2000 n ++ [GetHealth])).
Proof.
  intros Hquiet Hend. rewrite readyLoop_rounds by exact Hquiet.
  cbn [readyLoop].
  destruct (Z.ltb_spec (clock (S n)) (clock 0%nat + startTimeoutMs));
    destruct (Z.leb_spec (clock 0%nat + startTimeoutMs) (clock (S n)));
    try lia; [ | reflexivity ].
  cbn [orb] in Hend.
  destruct (health n); [ reflexivity | discriminate Hend | discriminate Hend ].
Qed.

End PollingFacts.

Section PollingExamples.
Import Polling.

(** The server is not busy at the first two polls, 1.5 s apart, and the
    deadline of 2 s is found over after the second. *)
Lemma waitForBusyState_ends_at_first_decision_witness :
  waitForBusyState 1500 (fun k => 1500 * Z.of_nat k) (fun _ => Returned 0)
    (1 + S 0) 1 2000 =
  Some (Thrown (mkJsError UnclassifiedError "Error"
                  "Timed out waiting for isbusy=1 after 2000ms" false 0),
        [GetIsBusy; Sleep 1500; GetIsBusy]).
Proof.
  apply (waitForBusyState_ends_at_first_decision 1500
           (fun k => 1500 * Z.of_nat k) (fun _ => Returned 0) 1 2000 1 0).
  - intros [ | i] Hi; [ split; reflexivity | lia ].
  - reflexivity.
Defined.

(** The server is busy at the third poll; no deadline is set. *)
Example waitForBusyState_third_poll :
  waitForBusyState 5000 (fun _ => 0)
    (fun i => match i with 0%nat | 1%nat => Returned 0 | _ => Returned 1 end)
    3 1 0 =
  Some (Returned tt,
        [GetIsBusy; Sleep 5000; GetIsBusy; Sleep 5000; GetIsBusy]).
Proof. reflexivity. Qed.

(** The server answers 200 at the second request, 2 s after the start;
    the deadline is 120 s. *)
Lemma waitForServerReady_ends_witness :
  waitForServerReady 120000 (fun k => 2000 * Z.of_nat k)
    (fun i => match i with 0%nat => OtherStatus | _ => Healthy end)
    (1 + S 0) =
  Some (Returned tt, [GetHealth; Sleep 2000; GetHealth]).
Proof.
  apply (waitForServerReady_ends 120000 (fun k => 2000 * Z.of_nat k)
           (fun i => match i with
                     | 0%nat => OtherStatus
                     | _ => Healthy
                     end)
           1 0).
  - intros [ | i] Hi; [ split; [ cbn; lia | reflexivity ] | lia ].
  - reflexivity.
Defined.

(** A server that never answers 200, looked at every 50 s: the third
    reading of the clock finds the deadline of 120 s reached. *)
Example waitForServerReady_times_out :
  waitForServerReady 120000 (fun k => 50000 * Z.of_nat k)
    (fun _ => OtherStatus) 4 =
  Some (Thrown (mkJsError UnclassifiedError "Error"
                  "Server did not become healthy within 120000ms" false 0),
        [GetHealth; Sleep 2000; GetHealth; Sleep 2000]).
Proof. reflexivity. Qed.

End PollingExamples.
